(** * clamdpy: wire framing and reply parsing of the clamd client

    A shallow embedding of [clamdpy/sockets.py], [clamdpy/models.py] and
    [clamdpy/exceptions.py].

    - A Python [str] is a list of Unicode code points, a [bytes] object a
      list of octets; both are carried by [N].
    - Python integers are [Z].
    - A call either returns a value or raises: [Res].  Code that talks to
      a socket threads the socket through the state-and-exception monad
      [M].
    - The library routines the source relies on ([str.strip], [str.split],
      [str.rsplit], [str.join], [in], the UTF-8 codec, [struct.pack],
      [int], [re], [datetime.strptime]) are given as executable
      definitions of their documented behaviour. *)

From Stdlib Require Import String Ascii DecimalString List NArith ZArith Bool Lia.
Import ListNotations.
Local Open Scope N_scope.

(** ** Python values *)

Definition str := list N.
Definition bytes := list N.

(** An ASCII literal of the source as a [str]. *)
Definition py (s : string) : str := map N_of_ascii (list_ascii_of_string s).

(** An ASCII literal of the source as a [bytes] ([b"..."]). *)
Definition pyb (s : string) : bytes := map N_of_ascii (list_ascii_of_string s).

(** ** Exceptions ([clamdpy/exceptions.py] and the built-in ones that can
    escape the modelled code) *)

(** The arguments of an [OSError] of the socket library. *)
Inductive OSError : Type :=
| OSError1 (arg : str)                    (* [len(e.args) == 1] *)
| OSError2 (errno : Z) (strerror : str).  (* [e.args == (errno, strerror)] *)

Inductive exn : Type :=
| UnknownCommand (command : str)
| CommandReadTimedOut (command : str)
| ResponseError (command : str) (error : str)
| BufferTooLongError (error : str)
| ConnectionError (msg : str) (errorno : option Z)
| ValueError
| IndexError
| UnicodeDecodeError
| UnicodeEncodeError
| struct_error
| OverflowError
| TypeError
| OSError_exn (e : OSError).  (* an [OSError] that no [except] clause took *)

(** [BufferTooLongError.__init__] calls [super().__init__("INSTREAM", error)]:
    the attributes every [ResponseError] instance carries. *)
Definition response_error_fields (e : exn) : option (str * str) :=
  match e with
  | ResponseError command error => Some (command, error)
  | BufferTooLongError error => Some (py "INSTREAM", error)
  | _ => None
  end.

Inductive Res (A : Type) : Type :=
| Ok (a : A)
| Raise (e : exn).
Arguments Ok {A} a.
Arguments Raise {A} e.

Definition bindR {A B} (r : Res A) (f : A -> Res B) : Res B :=
  match r with
  | Ok a => f a
  | Raise e => Raise e
  end.

(** ** [str] primitives *)

Definition mem_chars (chars : str) (c : N) : bool := existsb (N.eqb c) chars.

Fixpoint lstrip (p : N -> bool) (s : str) : str :=
  match s with
  | [] => []
  | c :: s' => if p c then lstrip p s' else s
  end.

Definition rstrip (p : N -> bool) (s : str) : str := rev (lstrip p (rev s)).

Definition strip_by (p : N -> bool) (s : str) : str := rstrip p (lstrip p s).

(** [s.strip(chars)] *)
Definition strip_chars (chars : str) (s : str) : str := strip_by (mem_chars chars) s.

(** [Py_UNICODE_ISSPACE]: the characters [str.strip()] and [\s] treat as
    white space. *)
Definition Py_UNICODE_ISSPACE (c : N) : bool :=
  ((0x09 <=? c) && (c <=? 0x0D)) || ((0x1C <=? c) && (c <=? 0x20))
  || (c =? 0x85) || (c =? 0xA0) || (c =? 0x1680)
  || ((0x2000 <=? c) && (c <=? 0x200A))
  || (c =? 0x2028) || (c =? 0x2029) || (c =? 0x202F) || (c =? 0x205F)
  || (c =? 0x3000).

(** [s.strip()] *)
Definition strip (s : str) : str := strip_by Py_UNICODE_ISSPACE s.

Fixpoint starts_with (pre s : str) : bool :=
  match pre, s with
  | [], _ => true
  | _ :: _, [] => false
  | a :: pre', b :: s' => (a =? b) && starts_with pre' s'
  end.

(** [sub in s] *)
Fixpoint contains (sub s : str) : bool :=
  starts_with sub s ||
  match s with
  | [] => false
  | _ :: s' => contains sub s'
  end.

(** [sep.join(parts)] *)
Fixpoint join (sep : str) (parts : list str) : str :=
  match parts with
  | [] => []
  | [p] => p
  | p :: rest => p ++ sep ++ join sep rest
  end.

(** [s.split(sep)] for a separator [sep] of one character [c]. *)
Fixpoint split (c : N) (s : str) : list str :=
  match s with
  | [] => [[]]
  | x :: s' =>
      if x =? c then [] :: split c s'
      else match split c s' with
           | [] => [[x]]
           | f :: fs => (x :: f) :: fs
           end
  end.

(** The cut made by [s.rsplit(sep, 1)]: the text before and after the
    right-most occurrence of [sep], if there is one. *)
Fixpoint rcut (sep s : str) : option (str * str) :=
  match s with
  | [] => None
  | c :: s' =>
      match rcut sep s' with
      | Some (a, b) => Some (c :: a, b)
      | None => if starts_with sep s then Some ([], skipn (length sep) s) else None
      end
  end.

(** [s.rsplit(sep, 1)] for a non-empty [sep]. *)
Definition rsplit1 (sep s : str) : list str :=
  match rcut sep s with
  | Some (a, b) => [a; b]
  | None => [s]
  end.

(** ** The UTF-8 codec *)

Definition utf8_encode_char (c : N) : option bytes :=
  if c <? 0x80 then Some [c]
  else if c <? 0x800 then Some [0xC0 + c / 64; 0x80 + c mod 64]
  else if c <? 0x10000 then
    if (0xD800 <=? c) && (c <=? 0xDFFF) then None
    else Some [0xE0 + c / 4096; 0x80 + (c / 64) mod 64; 0x80 + c mod 64]
  else if c <? 0x110000 then
    Some [0xF0 + c / 262144; 0x80 + (c / 4096) mod 64;
          0x80 + (c / 64) mod 64; 0x80 + c mod 64]
  else None.

(** [s.encode("utf-8")]; [None] stands for [UnicodeEncodeError] (a lone
    surrogate). *)
Fixpoint utf8_encode (s : str) : option bytes :=
  match s with
  | [] => Some []
  | c :: s' =>
      match utf8_encode_char c, utf8_encode s' with
      | Some b, Some bs => Some (b ++ bs)
      | _, _ => None
      end
  end.

Definition is_cont (b : N) : bool := (0x80 <=? b) && (b <=? 0xBF).

Definition in_range (lo hi b : N) : bool := (lo <=? b) && (b <=? hi).

(** [b.decode("utf-8")] in strict mode; [None] stands for
    [UnicodeDecodeError]. *)
Fixpoint utf8_decode (b : bytes) : option str :=
  match b with
  | [] => Some []
  | b0 :: r0 =>
      if b0 <? 0x80 then option_map (cons b0) (utf8_decode r0)
      else if b0 <? 0xC2 then None
      else if b0 <? 0xE0 then
        match r0 with
        | b1 :: r1 =>
            if is_cont b1
            then option_map (cons ((b0 - 0xC0) * 64 + (b1 - 0x80))) (utf8_decode r1)
            else None
        | _ => None
        end
      else if b0 <? 0xF0 then
        match r0 with
        | b1 :: b2 :: r2 =>
            if in_range (if b0 =? 0xE0 then 0xA0 else 0x80)
                        (if b0 =? 0xED then 0x9F else 0xBF) b1
               && is_cont b2
            then option_map
                   (cons ((b0 - 0xE0) * 4096 + (b1 - 0x80) * 64 + (b2 - 0x80)))
                   (utf8_decode r2)
            else None
        | _ => None
        end
      else if b0 <? 0xF5 then
        match r0 with
        | b1 :: b2 :: b3 :: r3 =>
            if in_range (if b0 =? 0xF0 then 0x90 else 0x80)
                        (if b0 =? 0xF4 then 0x8F else 0xBF) b1
               && is_cont b2 && is_cont b3
            then option_map
                   (cons ((b0 - 0xF0) * 262144 + (b1 - 0x80) * 4096
                          + (b2 - 0x80) * 64 + (b3 - 0x80)))
                   (utf8_decode r3)
            else None
        | _ => None
        end
      else None
  end.

(** [struct.pack(b"!L", n)]: four octets, most significant first; [None]
    stands for [struct.error] (argument out of range). *)
Definition struct_pack_L (n : Z) : option bytes :=
  if ((0 <=? n) && (n <=? 4294967295))%Z
  then let m := Z.to_N n in
       Some [m / 16777216; (m / 65536) mod 256; (m / 256) mod 256; m mod 256]
  else None.

(** ** Regular expressions ([re])

    The fragment of [re] that [RESULT_REGEX] and the pattern built by
    [datetime.strptime] use, with the backtracking, greedy, left-to-right
    search order of the [re] engine.  The matcher is written in
    continuation-passing style: [k] is what remains to be matched after
    [r]; a failing continuation makes the matcher fall back to its next
    alternative. *)

Inductive cclass : Type :=
| CAny                   (* [.]: any character but a newline *)
| CLit (c : N)           (* the character [c] *)
| CNot (c : N)           (* [[^c]] *)
| CRange (lo hi : N)     (* [[lo-hi]] *)
| CDigit                 (* [\d] *)
| CSpace.                (* [\s] *)

Inductive regex : Type :=
| RChar (cls : cclass)
| REps
| RSeq (r1 r2 : regex)
| RAlt (r1 r2 : regex)
| RStar (r : regex)
| RGroup (name : string) (r : regex)
| RBol
| REol.

Definition RPlus (r : regex) : regex := RSeq r (RStar r).
Definition ROpt (r : regex) : regex := RAlt r REps.
Definition RLit (s : string) : regex :=
  fold_right (fun c r => RSeq (RChar (CLit c)) r) REps (py s).
Definition RAlts (rs : list regex) (last : regex) : regex :=
  fold_right RAlt last rs.
Definition RSeqs (rs : list regex) : regex := fold_right RSeq REps rs.

(** First code point of each run of ten decimal digits ([Nd]) of the
    Unicode database (version 14.0). *)
Definition decimal_zeros : list N :=
  [0x30; 0x660; 0x6f0; 0x7c0; 0x966; 0x9e6; 0xa66; 0xae6; 0xb66; 0xbe6;
   0xc66; 0xce6; 0xd66; 0xde6; 0xe50; 0xed0; 0xf20; 0x1040; 0x1090;
   0x17e0; 0x1810; 0x1946; 0x19d0; 0x1a80; 0x1a90; 0x1b50; 0x1bb0;
   0x1c40; 0x1c50; 0xa620; 0xa8d0; 0xa900; 0xa9d0; 0xa9f0; 0xaa50;
   0xabf0; 0xff10; 0x104a0; 0x10d30; 0x11066; 0x110f0; 0x11136; 0x111d0;
   0x112f0; 0x11450; 0x114d0; 0x11650; 0x116c0; 0x11730; 0x118e0;
   0x11950; 0x11c50; 0x11d50; 0x11da0; 0x16a60; 0x16ac0; 0x16b50;
   0x1d7ce; 0x1d7d8; 0x1d7e2; 0x1d7ec; 0x1d7f6; 0x1e140; 0x1e2f0;
   0x1e950; 0x1fbf0].

(** [Py_UNICODE_TODECIMAL] *)
Definition Py_UNICODE_TODECIMAL (c : N) : option N :=
  match find (fun z => (z <=? c) && (c <=? z + 9)) decimal_zeros with
  | Some z => Some (c - z)
  | None => None
  end.

(** [c.lower()] on the ASCII letters. *)
Definition ascii_lower (c : N) : N :=
  if (0x41 <=? c) && (c <=? 0x5A) then c + 32 else c.

(** [icase] is [re.IGNORECASE]; the patterns used here have ASCII letters
    only, and a letter is compared up to ASCII case. *)
Definition cclass_mem (icase : bool) (cls : cclass) (c : N) : bool :=
  match cls with
  | CAny => negb (c =? 10)
  | CLit x => if icase then ascii_lower c =? ascii_lower x else c =? x
  | CNot x => negb (c =? x)
  | CRange lo hi => (lo <=? c) && (c <=? hi)
  | CDigit => match Py_UNICODE_TODECIMAL c with Some _ => true | None => false end
  | CSpace => Py_UNICODE_ISSPACE c
  end.

Definition groups := list (string * str).

Fixpoint group (name : string) (g : groups) : option str :=
  match g with
  | [] => None
  | (n, v) :: g' => if String.eqb n name then Some v else group name g'
  end.

Definition cont := str -> groups -> option (str * groups).

(** The greedy loop of [r*]: [step] matches [r] once.  An iteration must
    consume input, and at most [fuel] iterations are tried. *)
Fixpoint star_loop (step : str -> groups -> cont -> option (str * groups))
    (k : cont) (fuel : nat) (inp : str) (g : groups) {struct fuel}
  : option (str * groups) :=
  match fuel with
  | O => k inp g
  | S fuel' =>
      match step inp g
              (fun rest g' =>
                 if (length rest <? length inp)%nat
                 then star_loop step k fuel' rest g' else None) with
      | Some res => Some res
      | None => k inp g
      end
  end.

(** [rx icase n0 r inp g k]: match [r] at the head of [inp], the rest of a
    subject of [n0] characters, then continue with [k]. *)
Fixpoint rx (icase : bool) (n0 : nat) (r : regex) {struct r}
  : str -> groups -> cont -> option (str * groups) :=
  match r with
  | RChar cls => fun inp g k =>
      match inp with
      | c :: rest => if cclass_mem icase cls c then k rest g else None
      | [] => None
      end
  | REps => fun inp g k => k inp g
  | RSeq r1 r2 => fun inp g k =>
      rx icase n0 r1 inp g (fun rest g' => rx icase n0 r2 rest g' k)
  | RAlt r1 r2 => fun inp g k =>
      match rx icase n0 r1 inp g k with
      | Some res => Some res
      | None => rx icase n0 r2 inp g k
      end
  | RStar r1 => fun inp g k =>
      star_loop (rx icase n0 r1) k (length inp) inp g
  | RGroup name r1 => fun inp g k =>
      rx icase n0 r1 inp g
         (fun rest g' =>
            k rest ((name, firstn (length inp - length rest) inp) :: g'))
  | RBol => fun inp g k =>
      if (length inp =? n0)%nat then k inp g else None
  | REol => fun inp g k =>
      match inp with
      | [] => k inp g
      | [c] => if c =? 10 then k inp g else None
      | _ => None
      end
  end.

(** The continuation at the end of the pattern: the match is found. *)
Definition match_end : cont := fun rest g => Some (rest, g).

(** [pattern.match(s)]: the captures and the unmatched rest of [s]. *)
Definition re_match (icase : bool) (r : regex) (s : str) : option (str * groups) :=
  rx icase (length s) r s [] match_end.

(** ** [int(s)] *)

Definition Py_ISSPACE (c : N) : bool :=
  ((0x09 <=? c) && (c <=? 0x0D)) || (c =? 0x20).

(** [_PyUnicode_TransformDecimalAndSpaceToASCII] *)
Fixpoint to_ascii_decimal (s : str) : option str :=
  match s with
  | [] => Some []
  | c :: s' =>
      let c' :=
        if c <? 127 then Some c
        else if Py_UNICODE_ISSPACE c then Some 0x20
        else option_map (N.add 0x30) (Py_UNICODE_TODECIMAL c) in
      match c', to_ascii_decimal s' with
      | Some x, Some r => Some (x :: r)
      | _, _ => None
      end
  end.

Definition is_ascii_digit (c : N) : bool := (0x30 <=? c) && (c <=? 0x39).

(** Digits with single underscores between them; [prev] tells whether the
    previous character was a digit.  Returns the value and the number of
    digits read. *)
Fixpoint digits_value (s : str) (prev : bool) (acc : Z) (count : N) : option (Z * N) :=
  match s with
  | [] => if prev then Some (acc, count) else None
  | c :: s' =>
      if is_ascii_digit c
      then digits_value s' true (10 * acc + Z.of_N (c - 0x30))%Z (count + 1)
      else if (c =? 0x5F) && prev then digits_value s' false acc count
      else None
  end.

(** [sys.get_int_max_str_digits()], the interpreter's default. *)
Definition int_max_str_digits : N := 4300.

(** [int(s)]: white space at both ends, a sign, decimal digits of any
    script with single underscores between them; [ValueError] otherwise,
    and for more digits than [int_max_str_digits]. *)
Definition int (s : str) : Res Z :=
  match to_ascii_decimal s with
  | None => Raise ValueError
  | Some a =>
      let body := strip_by Py_ISSPACE a in
      let '(neg, ds) :=
        match body with
        | c :: r => if c =? 0x2D then (true, r)
                    else if c =? 0x2B then (false, r) else (false, body)
        | [] => (false, body)
        end in
      match digits_value ds false 0%Z 0 with
      | Some (v, count) =>
          if int_max_str_digits <? count then Raise ValueError
          else Ok (if neg then (- v)%Z else v)
      | None => Raise ValueError
      end
  end.

Notation "x <- e ;; f" := (bindR e (fun x => f))
  (at level 61, e at next level, right associativity).

(** ** [datetime.strptime(s, "%a %b %d %H:%M:%S %Y")] in the C locale *)

Record datetime : Type := mk_datetime
  { year : Z; month : Z; day : Z; hour : Z; minute : Z; second : Z }.

Definition a_weekday : list string :=
  ["mon"; "tue"; "wed"; "thu"; "fri"; "sat"; "sun"]%string.

Definition a_month : list string :=
  [""; "jan"; "feb"; "mar"; "apr"; "may"; "jun"; "jul"; "aug"; "sep"; "oct";
   "nov"; "dec"]%string.

Definition RRange (lo hi : string) : regex :=
  match py lo, py hi with
  | [l], [h] => RChar (CRange l h)
  | _, _ => REps
  end.

Definition RDigit : regex := RChar CDigit.
Definition RSpaces : regex := RPlus (RChar CSpace).

Definition RNames (names : list string) : regex :=
  match rev names with
  | [] => REps
  | last :: firsts => RAlts (map RLit (rev firsts)) (RLit last)
  end.

(** The pattern [_strptime.TimeRE] builds for this format, compiled with
    [re.IGNORECASE]:
    [(?P<a>mon|...|sun)\s+(?P<b>jan|...|dec)\s+
     (?P<d>3[0-1]|[1-2]\d|0[1-9]|[1-9]| [1-9])\s+
     (?P<H>2[0-3]|[0-1]\d|\d):(?P<M>[0-5]\d|\d):(?P<S>6[0-1]|[0-5]\d|\d)\s+
     (?P<Y>\d\d\d\d)] *)
Definition format_regex : regex :=
  RSeqs
    [RGroup "a" (RNames a_weekday);
     RSpaces;
     RGroup "b" (RNames (tl a_month));
     RSpaces;
     RGroup "d"
       (RAlts [RSeq (RLit "3") (RRange "0" "1");
               RSeq (RRange "1" "2") RDigit;
               RSeq (RLit "0") (RRange "1" "9");
               RRange "1" "9"]
              (RSeq (RLit " ") (RRange "1" "9")));
     RSpaces;
     RGroup "H"
       (RAlts [RSeq (RLit "2") (RRange "0" "3");
               RSeq (RRange "0" "1") RDigit]
              RDigit);
     RLit ":";
     RGroup "M" (RAlt (RSeq (RRange "0" "5") RDigit) RDigit);
     RLit ":";
     RGroup "S"
       (RAlts [RSeq (RLit "6") (RRange "0" "1");
               RSeq (RRange "0" "5") RDigit]
              RDigit);
     RSpaces;
     RGroup "Y" (RSeqs [RDigit; RDigit; RDigit; RDigit])].

Fixpoint str_eqb (a b : str) : bool :=
  match a, b with
  | [], [] => true
  | x :: a', y :: b' => (x =? y) && str_eqb a' b'
  | _, _ => false
  end.

(** [names.index(s)] *)
Fixpoint index (s : str) (names : list string) : Res Z :=
  match names with
  | [] => Raise ValueError
  | n :: names' =>
      if str_eqb s (py n) then Ok 0%Z
      else i <- index s names' ;; Ok (i + 1)%Z
  end.

Definition is_leap (y : Z) : bool :=
  ((y mod 4 =? 0) && (negb (y mod 100 =? 0) || (y mod 400 =? 0)))%Z.

Definition days_in_month (y m : Z) : Z :=
  (if m =? 2 then (if is_leap y then 29 else 28)
   else if (m =? 4) || (m =? 6) || (m =? 9) || (m =? 11) then 30
   else 31)%Z.

(** [datetime(year, month, day, hour, minute, second)] *)
Definition new_datetime (y mo d h mi s : Z) : Res datetime :=
  if ((1 <=? y) && (y <=? 9999) && (1 <=? mo) && (mo <=? 12)
      && (1 <=? d) && (d <=? days_in_month y mo)
      && (0 <=? h) && (h <=? 23) && (0 <=? mi) && (mi <=? 59)
      && (0 <=? s) && (s <=? 59))%Z
  then Ok (mk_datetime y mo d h mi s)
  else Raise ValueError.

Definition group_or_empty (name : string) (g : groups) : str :=
  match group name g with
  | Some v => v
  | None => []
  end.

(** [_strptime._strptime_datetime]: match the pattern, refuse text left
    after the match, read the fields and build the [datetime].  Every
    failure is a [ValueError]: no match, unconverted data, a name that is
    not in the locale's list once lowered, a date or time out of range. *)
Definition strptime (s : str) : Res datetime :=
  match re_match true format_regex s with
  | None => Raise ValueError
  | Some (rest, found) =>
      match rest with
      | _ :: _ => Raise ValueError
      | [] =>
          _ <- index (map ascii_lower (group_or_empty "a" found)) a_weekday ;;
          mo <- index (map ascii_lower (group_or_empty "b" found)) a_month ;;
          d <- int (group_or_empty "d" found) ;;
          h <- int (group_or_empty "H" found) ;;
          mi <- int (group_or_empty "M" found) ;;
          sec <- int (group_or_empty "S" found) ;;
          y <- int (group_or_empty "Y" found) ;;
          new_datetime y mo d h mi sec
      end
  end.

(** ** [clamdpy/models.py] *)

(** [RESULT_REGEX]: start of string; group [path], any run of characters
    other than a colon; a colon and a space; optionally group [reason], one
    or more characters other than a newline, and a space; group [status],
    one of [FOUND], [OK], [ERROR]; end of string.  The two groups without
    a name carry their number. *)
Definition RESULT_REGEX : regex :=
  RSeqs
    [RBol;
     RGroup "path" (RStar (RChar (CNot 0x3A)));
     RLit ": ";
     ROpt (RGroup "2" (RSeq (RGroup "reason" (RPlus (RChar CAny))) (RLit " ")));
     RGroup "status"
       (RGroup "5" (RAlt (RLit "FOUND") (RAlt (RLit "OK") (RLit "ERROR"))));
     REol].

Module VersionInfo.

Record t : Type := mk
  { version : str; signature : Z; signature_date : datetime }.

(** [splitted[i]] *)
Definition item (l : list str) (i : nat) : Res str :=
  match nth_error l i with
  | Some x => Ok x
  | None => Raise IndexError
  end.

Definition _from_str (string : str) : Res t :=
  let splitted := split 0x2F string in
  v <- item splitted 0 ;;
  s <- item splitted 1 ;;
  n <- int s ;;
  d <- item splitted 2 ;;
  date <- strptime d ;;
  Ok (mk v n date).

End VersionInfo.

Module ScanResult.

(** [Path(...)] of the text it was built from, or the literal
    ["stream"]. *)
Inductive scan_path : Type :=
| Path (p : str)
| stream.

Inductive scan_status : Type := FOUND | OK | ERROR.

Record t : Type := mk
  { path : scan_path; reason : option str; status : scan_status }.

(** The text of a status. *)
Definition status_str (st : scan_status) : str :=
  match st with
  | FOUND => py "FOUND"
  | OK => py "OK"
  | ERROR => py "ERROR"
  end.

Definition status_of (s : str) : option scan_status :=
  if str_eqb s (py "FOUND") then Some FOUND
  else if str_eqb s (py "OK") then Some OK
  else if str_eqb s (py "ERROR") then Some ERROR
  else None.

Definition _from_str (string : str) (command : str) (is_stream : bool) : Res t :=
  match re_match false RESULT_REGEX string with
  | None => Raise (ResponseError command (py "Unable to match string: " ++ string))
  | Some (_, m) =>
      match group "path" m, status_of (group_or_empty "status" m) with
      | Some p, Some st =>
          Ok (mk (if is_stream then stream else Path p) (group "reason" m) st)
      | _, _ => Raise ValueError (* every match sets these two groups *)
      end
  end.

End ScanResult.

(** ** Sockets

    What the client sees of a connected socket: the octets the daemon
    sends before it closes its end, all of them there when the client
    reads; whether reading fails; what [sendall] wrote, oldest first; how
    many more octets the connection takes before writing fails, and with
    which error ([None]: every write goes through); whether [close()] was
    called. *)

Record socket : Type := mk_socket
  { incoming : bytes;
    read_error : option OSError;
    output : list bytes;
    write_limit : option (nat * OSError);
    closed : bool }.

Definition set_incoming (b : bytes) (s : socket) : socket :=
  mk_socket b (read_error s) (output s) (write_limit s) (closed s).

Definition close (s : socket) : socket :=
  mk_socket (incoming s) (read_error s) (output s) (write_limit s) true.

(** The outcome of [socket.socket(...)], [settimeout] and [connect]: a
    connected socket, or the exception one of them raises.  That is an
    [OSError] when the connection cannot be made, and another exception
    for an argument the library does not take: [ValueError] for a
    negative [timeout], [OverflowError] for a [port] outside 0..65535,
    [TypeError] for a NUL in [host]. *)
Inductive connect_result : Type :=
| Connected (sock : socket)
| Raised (e : exn).

Definition M (A : Type) : Type := socket -> Res A * socket.

Definition ret {A} (a : A) : M A := fun s => (Ok a, s).
Definition raise {A} (e : exn) : M A := fun s => (Raise e, s).
Definition bindM {A B} (m : M A) (f : A -> M B) : M B :=
  fun s => match m s with
           | (Ok a, s') => f a s'
           | (Raise e, s') => (Raise e, s')
           end.

Notation "x <~ e ;; f" := (bindM e (fun x => f))
  (at level 61, e at next level, right associativity).

(** The error of an operation on a closed socket. *)
Definition EBADF : OSError := OSError2 9 (py "Bad file descriptor").

(** [sock.sendall(data)]: all of [data] is written, or an [OSError] is
    raised after the part of it that the connection still took. *)
Definition sendall (data : bytes) : M unit :=
  fun s =>
    if closed s then (Raise (OSError_exn EBADF), s)
    else
      match write_limit s with
      | None =>
          (Ok tt,
           mk_socket (incoming s) (read_error s) (output s ++ [data]) None (closed s))
      | Some (n, e) =>
          if (length data <=? n)%nat
          then (Ok tt,
                mk_socket (incoming s) (read_error s) (output s ++ [data])
                  (Some ((n - length data)%nat, e)) (closed s))
          else (Raise (OSError_exn e),
                mk_socket (incoming s) (read_error s) (output s ++ [firstn n data])
                  (Some (O, e)) (closed s))
      end.

(** [f.readline()] on a binary file: up to and including the first
    newline octet.  Returns the line and what is left. *)
Fixpoint readline (b : bytes) : bytes * bytes :=
  match b with
  | [] => ([], [])
  | x :: b' =>
      if x =? 10 then ([x], b')
      else let (l, r) := readline b' in (x :: l, r)
  end.

(** [io.DEFAULT_BUFFER_SIZE], the size of the buffer of the reader that
    [sock.makefile("rb")] returns: 8192 octets in CPython 3.8 to 3.14. *)
Definition DEFAULT_BUFFER_SIZE : nat := N.to_nat 8192.

(** What the reader takes off the socket for one [readline()]: it fills
    its buffer with what is there, [DEFAULT_BUFFER_SIZE] octets at most at
    a time, until the octets it took hold a newline or the stream ends.
    Returns the octets taken and those left on the socket; [fuel] bounds
    the number of fills. *)
Fixpoint read_ahead (fuel : nat) (b : bytes) : bytes * bytes :=
  match fuel with
  | O => ([], b)
  | S fuel' =>
      let block := firstn DEFAULT_BUFFER_SIZE b in
      let rest := skipn DEFAULT_BUFFER_SIZE b in
      if existsb (N.eqb 10) block then (block, rest)
      else match rest with
           | [] => (block, [])
           | _ :: _ => let (taken, left) := read_ahead fuel' rest in
                       (block ++ taken, left)
           end
  end.

(** [with sock.makefile("rb") as f: f.readline()]: the first line of
    what the reader took; the octets it took after the line go with the
    reader when it is closed. *)
Definition makefile_readline (b : bytes) : bytes * bytes :=
  let (taken, left) := read_ahead (S (length b)) b in
  (fst (readline taken), left).

(** The result of a call that runs inside [with self._acquire_socket()]:
    what it returns or raises, and the socket it used, closed on exit. *)
Definition Outcome (A : Type) : Type := (Res A * option socket)%type.

Definition with_socket {A} (acquired : Res socket) (body : M A) : Outcome A :=
  match acquired with
  | Raise e => (Raise e, None)
  | Ok sock => let (r, sock') := body sock in (r, Some (close sock'))
  end.

(** [str(n)] for an integer. *)
Definition str_of_int (n : Z) : str := py (NilZero.string_of_int (Z.to_int n)).

(** ** [clamdpy/sockets.py] *)

Definition UNKNOWN_COMMAND : str := py "UNKNOWN COMMAND".
Definition COMMAND_READ_TIMED_OUT : str := py "COMMAND READ TIMED OUT".
Definition DEFAULT_UNIX_SOCKET_PATH : str := py "/var/run/clamav/clamd.ctl".

(** [Literal["n", "z"]] *)
Inductive terminator : Type := LT_n | LT_z.

Definition terminator_str (t : terminator) : str :=
  match t with
  | LT_n => py "n"
  | LT_z => py "z"
  end.

(** [ClamdNetworkSocket] connects to [host:port], [ClamdUnixSocket] to
    [socket_path]; they share everything but [_acquire_socket].  The
    [timeout] attribute is only handed to [settimeout]. *)
Inductive address : Type :=
| AF_INET (host : str) (port : Z)
| AF_UNIX (socket_path : str).

Record Clamd : Type := mk_Clamd
  { addr : address;
    max_chunk_size : Z;
    line_terminator : terminator }.

Definition ClamdNetworkSocket : Clamd :=
  mk_Clamd (AF_INET (py "127.0.0.1") 3310) 1024 LT_n.

Definition ClamdUnixSocket : Clamd :=
  mk_Clamd (AF_UNIX DEFAULT_UNIX_SOCKET_PATH) 1024 LT_n.

(** The one character of the string [self._endline]. *)
Definition _endline (self : Clamd) : N :=
  match line_terminator self with
  | LT_n => 10
  | LT_z => 0
  end.

Definition address_str (a : address) : str :=
  match a with
  | AF_INET host port => host ++ py ":" ++ str_of_int port
  | AF_UNIX socket_path => socket_path
  end.

Definition connection_error (what : str) (e : OSError) : exn :=
  match e with
  | OSError1 arg => ConnectionError (what ++ py ": " ++ arg) None
  | OSError2 errno strerror => ConnectionError (what ++ py ": " ++ strerror) (Some errno)
  end.

Definition _acquire_socket (self : Clamd) (conn : connect_result) : Res socket :=
  match conn with
  | Connected sock => Ok sock
  | Raised (OSError_exn e) =>
      Raise (connection_error (py "Error while connecting to " ++ address_str (addr self)) e)
  | Raised e => Raise e
  end.

Definition _send (self : Clamd) (command : str) (args : list str) : M unit :=
  let cmd := terminator_str (line_terminator self) ++ command in
  let cmd := match args with
             | [] => cmd
             | _ :: _ => cmd ++ py " " ++ join (py " ") args
             end in
  let cmd := cmd ++ [_endline self] in
  match utf8_encode cmd with
  | Some data => sendall data
  | None => raise UnicodeEncodeError
  end.

Definition _recv (self : Clamd) (multiline : bool) : M str :=
  fun sock =>
    match (if closed sock then Some EBADF else read_error sock) with
    | Some e => (Raise (connection_error (py "Error while reading from socket") e), sock)
    | None =>
        let (data, rest) :=
          if multiline then (incoming sock, []) else makefile_readline (incoming sock) in
        match utf8_decode data with
        | Some s => (Ok (strip_chars [_endline self] s), set_incoming rest sock)
        | None => (Raise UnicodeDecodeError, set_incoming rest sock)
        end
    end.

Definition _command (self : Clamd) (conn : connect_result) (command : str)
    (args : list str) (multiline : bool) (raise_on_error : bool) : Outcome str :=
  with_socket (_acquire_socket self conn)
    (_ <~ _send self command args ;;
     recv <~ _recv self multiline ;;
     if str_eqb recv UNKNOWN_COMMAND then raise (UnknownCommand command)
     else if str_eqb recv COMMAND_READ_TIMED_OUT then raise (CommandReadTimedOut command)
     else if raise_on_error then
       let response := rsplit1 (py "ERROR") recv in
       if (1 <? length response)%nat
       then raise (ResponseError command (strip (nth 0 response [])))
       else ret recv
     else ret recv).

(** [[f(x) for x in l]]: left to right, up to the first exception. *)
Fixpoint list_comp {A B} (f : A -> Res B) (l : list A) : Res (list B) :=
  match l with
  | [] => Ok []
  | x :: l' => y <- f x ;; ys <- list_comp f l' ;; Ok (y :: ys)
  end.

(** The result of a method with a [raw] flag: the reply text when [raw]
    is set, the parsed value otherwise. *)
Definition raw_or (A : Type) : Type := (str + A)%type.

Section Client.

(** [str(Path(path).absolute())]: depends on the working directory of
    the process. *)
Variable absolute : str -> str.

Definition _any_scan (self : Clamd) (conn : connect_result) (command : str)
    (path : str) (raw : bool) : Outcome (raw_or (list ScanResult.t)) :=
  let path := absolute path in
  let (r, sock) := _command self conn command [path] true false in
  (result <- r ;;
   if raw then Ok (inl result)
   else l <- list_comp (fun line => ScanResult._from_str line command false)
                       (split (_endline self) result) ;;
        Ok (inr l),
   sock).

Definition ping (self : Clamd) (conn : connect_result) : Outcome str :=
  _command self conn (py "PING") [] true true.

Definition reload (self : Clamd) (conn : connect_result) : Outcome str :=
  _command self conn (py "RELOAD") [] true true.

Definition shutdown (self : Clamd) (conn : connect_result) : Outcome unit :=
  with_socket (_acquire_socket self conn) (_send self (py "SHUTDOWN") []).

Definition version (self : Clamd) (conn : connect_result) (raw : bool)
  : Outcome (raw_or VersionInfo.t) :=
  let (r, sock) := _command self conn (py "VERSION") [] true true in
  (rv <- r ;;
   if raw then Ok (inl rv)
   else v <- VersionInfo._from_str rv ;; Ok (inr v),
   sock).

Definition stats (self : Clamd) (conn : connect_result) : Outcome str :=
  _command self conn (py "STATS") [] true true.

Definition scan (self : Clamd) (conn : connect_result) (path : str) (raw : bool) :=
  _any_scan self conn (py "SCAN") path raw.

Definition contscan (self : Clamd) (conn : connect_result) (path : str) (raw : bool) :=
  _any_scan self conn (py "CONTSCAN") path raw.

Definition multiscan (self : Clamd) (conn : connect_result) (path : str) (raw : bool) :=
  _any_scan self conn (py "MULTISCAN") path raw.

End Client.

Section Instream.

(** The caller's byte source: any object with a [read(n)] method,
    given by its state and what one call of [read] returns and leaves. *)
Variable Src : Type.
Variable read : Src -> Z -> bytes * Src.

(** The [while chunk:] loop.  [None]: the loop is still running after
    [fuel] rounds. *)
Fixpoint send_chunks (fuel : nat) (n : Z) (chunk : bytes) (buff : Src)
    (sock : socket) : option (Res unit * socket * Src) :=
  match chunk with
  | [] => Some (Ok tt, sock, buff)
  | _ :: _ =>
      match fuel with
      | O => None
      | S fuel' =>
          match struct_pack_L (Z.of_nat (length chunk)) with
          | None => Some (Raise struct_error, sock, buff)
          | Some size =>
              match sendall (size ++ chunk) sock with
              | (Raise e, sock') => Some (Raise e, sock', buff)
              | (Ok _, sock') =>
                  let (chunk', buff') := read buff n in
                  send_chunks fuel' n chunk' buff' sock'
              end
          end
      end
  end.

(** What [instream] does with the reply. *)
Definition instream_reply (self : Clamd) (raw : bool) : M (raw_or ScanResult.t) :=
  result <~ _recv self true ;;
  if contains (py "INSTREAM size limit exceeded") result
  then raise (BufferTooLongError (strip (nth 0 (rsplit1 (py "ERROR") result) [])))
  else if raw then ret (inl result)
  else match ScanResult._from_str result (py "INSTREAM") true with
       | Ok r => ret (inr r)
       | Raise e => raise e
       end.

(** [max_chunk_size or self.max_chunk_size] *)
Definition chunk_size (self : Clamd) (max_chunk_size_arg : option Z) : Z :=
  match max_chunk_size_arg with
  | Some m => if (m =? 0)%Z then max_chunk_size self else m
  | None => max_chunk_size self
  end.

(** [instream] up to and including the zero-length chunk. *)
Definition instream_upload (fuel : nat) (self : Clamd) (buff : Src)
    (max_chunk_size_arg : option Z) (sock : socket)
  : option (Res unit * socket * Src) :=
  let max_chunk_size := chunk_size self max_chunk_size_arg in
  match _send self (py "INSTREAM") [] sock with
  | (Raise e, sock1) => Some (Raise e, sock1, buff)
  | (Ok _, sock1) =>
      let (chunk, buff1) := read buff max_chunk_size in
      match send_chunks fuel max_chunk_size chunk buff1 sock1 with
      | None => None
      | Some (Raise e, sock2, buff2) => Some (Raise e, sock2, buff2)
      | Some (Ok _, sock2, buff2) =>
          match struct_pack_L 0 with
          | None => Some (Raise struct_error, sock2, buff2)
          | Some zero =>
              match sendall zero sock2 with
              | (r, sock3) => Some (r, sock3, buff2)
              end
          end
      end
  end.

Definition instream (fuel : nat) (self : Clamd) (conn : connect_result)
    (buff : Src) (raw : bool) (max_chunk_size_arg : option Z)
  : option (Outcome (raw_or ScanResult.t) * Src) :=
  match _acquire_socket self conn with
  | Raise e => Some ((Raise e, None), buff)
  | Ok sock =>
      match instream_upload fuel self buff max_chunk_size_arg sock with
      | None => None
      | Some (Raise e, sock1, buff1) =>
          Some ((Raise e, Some (close sock1)), buff1)
      | Some (Ok _, sock1, buff1) =>
          let (r, sock2) := instream_reply self raw sock1 in
          Some ((r, Some (close sock2)), buff1)
      end
  end.

End Instream.

(** [io.BytesIO(data).read(n)]: the next [n] octets, or all that is left
    when [n] is negative. *)
Definition BytesIO_read (data : bytes) (n : Z) : bytes * bytes :=
  if (n <? 0)%Z then (data, [])
  else (firstn (Z.to_nat n) data, skipn (Z.to_nat n) data).

(** * Notions used to state the properties *)

(** [a] and [b] are the texts around the right-most occurrence of [sep]
    in [s]. *)
Definition last_occurrence (sep s a b : str) : Prop :=
  s = a ++ sep ++ b /\
  forall a' b', s = a' ++ sep ++ b' -> (length a' <= length a)%nat.

(** A connected socket on which the daemon sends [b] and then closes,
    and that takes every write. *)
Definition fresh_socket (b : bytes) : socket := mk_socket b None [] None false.

(** The socket is open and its connection takes [n] more octets. *)
Definition takes (n : nat) (s : socket) : Prop :=
  closed s = false /\
  match write_limit s with
  | None => True
  | Some (k, _) => (n <= k)%nat
  end.

(** The socket [s] after the payloads [l] were written on it. *)
Definition wrote (l : list bytes) (s : socket) : socket :=
  mk_socket (incoming s) (read_error s) (output s ++ l)
    match write_limit s with
    | None => None
    | Some (k, e) => Some (fold_left (fun k d => (k - length d)%nat) l k, e)
    end
    (closed s).

(** All the octets written on [s], in order. *)
Definition sent (s : socket) : bytes := concat (output s).

(** The far end of [s]: it receives, in order, what was sent on [s]. *)
Definition loopback (s : socket) : socket := fresh_socket (concat (output s)).

(** The letter that starts a frame in each terminator mode. *)
Definition terminator_letter (t : terminator) : N :=
  match t with
  | LT_n => 0x6E
  | LT_z => 0x7A
  end.

(** The verb followed by its space-separated arguments, if any. *)
Definition command_text (verb : str) (args : list str) : str :=
  verb ++ match args with
          | [] => []
          | _ :: _ => py " " ++ join (py " ") args
          end.

(** The Command Frame as the specification words it: the terminator
    character, the command text, the terminator character again. *)
Definition spec_frame (term : N) (verb : str) (args : list str) : str :=
  [term] ++ command_text verb args ++ [term].

(** The public operations that go through [_command], with the verb each
    sends. *)
Inductive request : Type :=
| Ping
| Reload
| Version (raw : bool)
| Stats
| Scan (path : str) (raw : bool)
| Contscan (path : str) (raw : bool)
| Multiscan (path : str) (raw : bool).

Definition verb (r : request) : str :=
  match r with
  | Ping => py "PING"
  | Reload => py "RELOAD"
  | Version _ => py "VERSION"
  | Stats => py "STATS"
  | Scan _ _ => py "SCAN"
  | Contscan _ _ => py "CONTSCAN"
  | Multiscan _ _ => py "MULTISCAN"
  end.

Definition arguments (absolute : str -> str) (r : request) : list str :=
  match r with
  | Scan path _ | Contscan path _ | Multiscan path _ => [absolute path]
  | _ => []
  end.

Inductive value : Type :=
| Text (s : str)
| Parsed_version (v : VersionInfo.t)
| Parsed_scan (l : list ScanResult.t).

Definition map_outcome {A B} (f : A -> B) (o : Outcome A) : Outcome B :=
  (match fst o with
   | Ok a => Ok (f a)
   | Raise e => Raise e
   end, snd o).

Definition raw_value {A} (f : A -> value) (v : raw_or A) : value :=
  match v with
  | inl s => Text s
  | inr a => f a
  end.

(** Calling the method of the client that answers to [r]. *)
Definition call (absolute : str -> str) (self : Clamd) (conn : connect_result)
    (r : request) : Outcome value :=
  match r with
  | Ping => map_outcome Text (ping self conn)
  | Reload => map_outcome Text (reload self conn)
  | Version raw => map_outcome (raw_value Parsed_version) (version self conn raw)
  | Stats => map_outcome Text (stats self conn)
  | Scan path raw =>
      map_outcome (raw_value Parsed_scan) (scan absolute self conn path raw)
  | Contscan path raw =>
      map_outcome (raw_value Parsed_scan) (contscan absolute self conn path raw)
  | Multiscan path raw =>
      map_outcome (raw_value Parsed_scan) (multiscan absolute self conn path raw)
  end.

Definition status_word (st : str) : Prop :=
  st = py "FOUND" \/ st = py "OK" \/ st = py "ERROR".

(** Where [$] matches: at the end of the string, or before one final
    newline. *)
Definition end_of_string (e : str) : Prop := e = [] \/ e = [10].

(** The pattern [<path>: [<reason> ]<status>]: a path without a colon, a
    colon and a space, optionally a reason (not empty, without a newline)
    and a space, a status word, and the end of the string. *)
Inductive result_line (line : str) : Prop :=
| line_without_reason (p st e : str) :
    ~ In 0x3A p -> status_word st -> end_of_string e ->
    line = p ++ py ": " ++ st ++ e -> result_line line
| line_with_reason (p rs st e : str) :
    ~ In 0x3A p -> rs <> [] -> ~ In 10 rs -> status_word st -> end_of_string e ->
    line = p ++ py ": " ++ rs ++ py " " ++ st ++ e -> result_line line.

(** The end of [RESULT_REGEX]: the status word and the end of the string. *)
Definition status_tail : regex :=
  RSeqs [RGroup "status"
           (RGroup "5" (RAlt (RLit "FOUND") (RAlt (RLit "OK") (RLit "ERROR"))));
         REol].

(** The error taxonomy of the specification, and the entry each exception
    class of [clamdpy/exceptions.py] answers to.  No class of the code
    stands for [E_MalformedReply]; the built-in exceptions are outside the
    taxonomy. *)
Inductive error_name : Type :=
| E_ConnectionFailure
| E_UnknownCommand
| E_CommandTimeout
| E_ResponseError
| E_BufferTooLong
| E_MalformedReply.

Definition error_name_of (e : exn) : option error_name :=
  match e with
  | ConnectionError _ _ => Some E_ConnectionFailure
  | UnknownCommand _ => Some E_UnknownCommand
  | CommandReadTimedOut _ => Some E_CommandTimeout
  | ResponseError _ _ => Some E_ResponseError
  | BufferTooLongError _ => Some E_BufferTooLong
  | _ => None
  end.


(** Four octets, most significant first. *)
Definition be32 (n : N) : bytes :=
  [n / 16777216; (n / 65536) mod 256; (n / 256) mod 256; n mod 256].

(** The number a big-endian string of octets stands for. *)
Definition be_value (b : bytes) : N := fold_left (fun acc x => acc * 256 + x) b 0.

(** A chunk on the wire: its length, then its octets. *)
Definition chunk_frame (chunk : bytes) : bytes :=
  be32 (N.of_nat (length chunk)) ++ chunk.

Section Chunks.

Variable Src : Type.
Variable read : Src -> Z -> bytes * Src.

(** [chunk] and the chunks that reading [n] octets at a time gives after
    it, up to the first empty one; [None] when more than [fuel] chunks
    come. *)
Fixpoint chunks_from (fuel : nat) (n : Z) (chunk : bytes) (buff : Src)
  : option (list bytes * Src) :=
  match chunk with
  | [] => Some ([], buff)
  | _ :: _ =>
      match fuel with
      | O => None
      | S fuel' =>
          let (chunk', buff') := read buff n in
          match chunks_from fuel' n chunk' buff' with
          | Some (cs, b) => Some (chunk :: cs, b)
          | None => None
          end
      end
  end.

(** The chunks obtained by reading [n] octets at a time from [buff]
    until it is exhausted, and the source as it is left. *)
Definition read_chunks (fuel : nat) (n : Z) (buff : Src)
  : option (list bytes * Src) :=
  let (chunk, buff') := read buff n in chunks_from fuel n chunk buff'.

End Chunks.

(** The text and the error number an [OSError] carries. *)
Definition os_text (e : OSError) : str :=
  match e with
  | OSError1 arg => arg
  | OSError2 _ strerror => strerror
  end.

Definition os_errno (e : OSError) : option Z :=
  match e with
  | OSError1 _ => None
  | OSError2 errno _ => Some errno
  end.

(** The octets of the frame of a command, when it has an encoding. *)
Definition frame_of (self : Clamd) (command : str) (args : list str) : option bytes :=
  utf8_encode (terminator_letter (line_terminator self)
                 :: command_text command args ++ [_endline self]).

(** The reason of a line, with the space after it. *)
Definition reason_text (reason : option str) : str :=
  match reason with
  | Some rs => rs ++ py " "
  | None => []
  end.

(** A reply line written from its parts. *)
Definition format_result (p : str) (reason : option str)
    (st : ScanResult.scan_status) : str :=
  p ++ py ": "
    ++ match reason with
       | Some rs => rs ++ py " "
       | None => []
       end
    ++ ScanResult.status_str st.

(** What the far end reads from the body of an [INSTREAM] upload: chunks,
    each after its 4-octet length, up to the chunk of length zero, after
    which nothing may follow.  [fuel] bounds the number of chunks. *)
Fixpoint decode_chunks (fuel : nat) (wire : bytes) : option bytes :=
  match fuel with
  | O => None
  | S fuel' =>
      match wire with
      | b0 :: b1 :: b2 :: b3 :: rest =>
          let n := be_value [b0; b1; b2; b3] in
          if n =? 0 then
            match rest with
            | [] => Some []
            | _ :: _ => None
            end
          else if N.of_nat (length rest) <? n then None
          else option_map (app (firstn (N.to_nat n) rest))
                 (decode_chunks fuel' (skipn (N.to_nat n) rest))
      | _ => None
      end
  end.

(** A code point that UTF-8 encodes: not above U+10FFFF, not a surrogate. *)
Definition scalar_value (c : N) : Prop :=
  c < 0x110000 /\ ~ (0xD800 <= c <= 0xDFFF).

(** A date and a time of day that exist. *)
Definition valid_datetime (t : datetime) : Prop :=
  (1 <= year t <= 9999 /\ 1 <= month t <= 12 /\
   1 <= day t <= days_in_month (year t) (month t) /\
   days_in_month (year t) (month t) <= 31 /\
   0 <= hour t <= 23 /\ 0 <= minute t <= 59 /\ 0 <= second t <= 59)%Z.

(** * Properties *)

(** ** Lists of characters *)

Lemma starts_with_app (pre rest : str) : starts_with pre (pre ++ rest) = true.
Proof.
  induction pre as [|c pre IH]; simpl; [reflexivity|].
  now rewrite N.eqb_refl, IH.
Qed.

Lemma starts_with_inv (pre s : str) :
  starts_with pre s = true -> s = pre ++ skipn (length pre) s.
Proof.
  revert s; induction pre as [|c pre IH]; intros [|x s]; simpl; try easy.
  intros H. apply andb_prop in H as [Hc Hs].
  apply N.eqb_eq in Hc. subst x. f_equal. now apply IH.
Qed.

Lemma starts_with_iff (pre s : str) :
  starts_with pre s = true <-> exists rest, s = pre ++ rest.
Proof.
  split.
  - intros H. eexists. now apply starts_with_inv.
  - intros [rest ->]. apply starts_with_app.
Qed.

Lemma contains_iff (sub s : str) :
  contains sub s = true <-> exists a b, s = a ++ sub ++ b.
Proof.
  induction s as [|x s IH]; simpl.
  - rewrite orb_false_r, starts_with_iff. split.
    + intros [rest H]. exists [], rest. exact H.
    + intros (a & b & H). destruct a as [|y a]; [|discriminate].
      exists b. exact H.
  - rewrite orb_true_iff, IH, starts_with_iff. split.
    + intros [[rest H] | (a & b & H)].
      * exists [], rest. exact H.
      * exists (x :: a), b. now rewrite H.
    + intros (a & b & H). destruct a as [|y a].
      * left. exists b. exact H.
      * right. exists a, b. now injection H.
Qed.

Lemma rcut_None (sep s : str) :
  sep <> [] -> rcut sep s = None -> forall a b, s <> a ++ sep ++ b.
Proof.
  intros Hsep. induction s as [|x s IH]; simpl; intros H a b E.
  - destruct a; [|discriminate]. destruct sep; [now apply Hsep | discriminate].
  - destruct (rcut sep s) as [[a0 b0]|] eqn:R; [discriminate|].
    destruct (starts_with sep (x :: s)) eqn:S; [discriminate|].
    destruct a as [|y a].
    + simpl in E. rewrite E, starts_with_app in S. discriminate.
    + injection E as _ E. now apply (IH eq_refl a b).
Qed.

Lemma rcut_Some (sep s a b : str) :
  sep <> [] -> rcut sep s = Some (a, b) -> last_occurrence sep s a b.
Proof.
  intros Hsep. revert a b. induction s as [|x s IH]; simpl; intros a b H.
  - discriminate.
  - destruct (rcut sep s) as [[a0 b0]|] eqn:R.
    + injection H as <- <-. destruct (IH _ _ eq_refl) as [E L]. split.
      * now rewrite E.
      * intros a' b' E'. destruct a' as [|y a']; simpl; [lia|].
        injection E' as _ E'. apply L in E'. lia.
    + destruct (starts_with sep (x :: s)) eqn:S; [|discriminate].
      injection H as <- <-. split.
      * now apply starts_with_inv.
      * intros a' b' E'. destruct a' as [|y a']; simpl; [lia|].
        injection E' as _ E'. now apply (rcut_None _ _ Hsep R) in E'.
Qed.

Lemma last_occurrence_unique (sep s a b a' b' : str) :
  last_occurrence sep s a b -> last_occurrence sep s a' b' -> a = a' /\ b = b'.
Proof.
  intros [E L] [E' L'].
  assert (Hlen : length a = length a') by (apply L' in E; apply L in E'; lia).
  assert (Ha : a = a').
  { apply (f_equal (firstn (length a))) in E'. rewrite E in E' at 1.
    rewrite firstn_app, Nat.sub_diag, firstn_all in E'. simpl in E'.
    rewrite app_nil_r in E'. rewrite E'.
    rewrite Hlen, firstn_app, Nat.sub_diag, firstn_all. simpl.
    now rewrite app_nil_r. }
  subst a'. split; [reflexivity|].
  rewrite E in E'. apply app_inv_head in E'. now apply app_inv_head in E'.
Qed.

Lemma rcut_last_occurrence (sep s a b : str) :
  sep <> [] -> last_occurrence sep s a b -> rcut sep s = Some (a, b).
Proof.
  intros Hsep H. destruct (rcut sep s) as [[a0 b0]|] eqn:R.
  - apply rcut_Some in R; [|exact Hsep].
    destruct (last_occurrence_unique _ _ _ _ _ _ R H) as [-> ->]. reflexivity.
  - destruct H as [E _]. now apply (rcut_None _ _ Hsep R) in E.
Qed.

Lemma rsplit1_length (sep s : str) :
  sep <> [] ->
  ((1 < length (rsplit1 sep s))%nat <-> exists a b, s = a ++ sep ++ b).
Proof.
  intros Hsep. unfold rsplit1. destruct (rcut sep s) as [[a b]|] eqn:R; simpl.
  - split; [intros _|lia]. exists a, b. now apply rcut_Some in R as [E _].
  - split; [lia|]. intros (a & b & E). now apply (rcut_None _ _ Hsep R) in E.
Qed.

(** ** Stripping *)

Lemma lstrip_stop (p : N -> bool) (c : N) (s : str) :
  p c = false -> lstrip p (c :: s) = c :: s.
Proof. intros H. simpl. now rewrite H. Qed.

Lemma rstrip_snoc (p : N -> bool) (s : str) (c : N) :
  rstrip p (s ++ [c]) = if p c then rstrip p s else s ++ [c].
Proof.
  unfold rstrip. rewrite rev_app_distr. simpl.
  destruct (p c); [reflexivity|]. simpl. now rewrite rev_involutive.
Qed.

Lemma rstrip_cons (p : N -> bool) (c : N) (s : str) :
  p c = false -> rstrip p (c :: s) = c :: rstrip p s.
Proof.
  intros H. induction s as [|x s IH] using rev_ind.
  - unfold rstrip. simpl. now rewrite H.
  - change (c :: s ++ [x]) with ((c :: s) ++ [x]).
    rewrite !rstrip_snoc. now destruct (p x).
Qed.

Lemma rstrip_id (p : N -> bool) (s : str) :
  (forall t c, s = t ++ [c] -> p c = false) -> rstrip p s = s.
Proof.
  destruct s as [|x s] using rev_ind; [reflexivity|].
  intros H. rewrite rstrip_snoc. now rewrite (H s x eq_refl).
Qed.

Lemma lstrip_spec (p : N -> bool) (s : str) :
  exists l, s = l ++ lstrip p s /\ Forall (fun c => p c = true) l /\
            (forall c r, lstrip p s = c :: r -> p c = false).
Proof.
  induction s as [|x s (l & E & F & L)]; simpl.
  - exists []. repeat split; [constructor | discriminate].
  - destruct (p x) eqn:P.
    + exists (x :: l). repeat split; [now rewrite E at 1 | now constructor | exact L].
    + exists []. repeat split; [constructor|]. now intros c r [= <- _].
Qed.

Lemma rstrip_spec (p : N -> bool) (s : str) :
  exists r, s = rstrip p s ++ r /\ Forall (fun c => p c = true) r /\
            (forall t c, rstrip p s = t ++ [c] -> p c = false).
Proof.
  unfold rstrip. destruct (lstrip_spec p (rev s)) as (l & E & F & L).
  exists (rev l). repeat split.
  - rewrite <- rev_app_distr, <- E. now rewrite rev_involutive.
  - apply Forall_rev. exact F.
  - intros t c H. apply (f_equal (@rev N)) in H.
    rewrite rev_involutive, rev_app_distr in H. simpl in H. now apply L in H.
Qed.

(** [strip_by p] removes the longest prefix and the longest suffix made of
    characters satisfying [p]. *)
Lemma strip_by_spec (p : N -> bool) (s : str) :
  exists l r, s = l ++ strip_by p s ++ r /\
              Forall (fun c => p c = true) l /\ Forall (fun c => p c = true) r /\
              (forall c t, strip_by p s = c :: t -> p c = false) /\
              (forall t c, strip_by p s = t ++ [c] -> p c = false).
Proof.
  unfold strip_by.
  destruct (lstrip_spec p s) as (l & E & F & L).
  destruct (rstrip_spec p (lstrip p s)) as (r & E' & F' & L').
  exists l, r. repeat split; try assumption.
  - now rewrite <- E'.
  - intros c t H. rewrite H in E'. simpl in E'. now apply L in E'.
Qed.

(** ** The UTF-8 codec *)

Lemma utf8_encode_app (a b : str) :
  utf8_encode (a ++ b) =
  match utf8_encode a, utf8_encode b with
  | Some x, Some y => Some (x ++ y)
  | _, _ => None
  end.
Proof.
  induction a as [|c a IH]; simpl.
  - now destruct (utf8_encode b).
  - rewrite IH. destruct (utf8_encode_char c), (utf8_encode a), (utf8_encode b);
      try reflexivity. now rewrite app_assoc.
Qed.

Lemma utf8_encode_ascii (s : str) :
  Forall (fun c => c < 0x80) s -> utf8_encode s = Some s.
Proof.
  induction 1 as [|c s Hc _ IH]; simpl; [reflexivity|].
  unfold utf8_encode_char. apply N.ltb_lt in Hc. now rewrite Hc, IH.
Qed.

Lemma utf8_decode_cons (b0 : N) (r0 : bytes) :
  utf8_decode (b0 :: r0) =
  if b0 <? 0x80 then option_map (cons b0) (utf8_decode r0)
  else if b0 <? 0xC2 then None
  else if b0 <? 0xE0 then
    match r0 with
    | b1 :: r1 =>
        if is_cont b1
        then option_map (cons ((b0 - 0xC0) * 64 + (b1 - 0x80))) (utf8_decode r1)
        else None
    | _ => None
    end
  else if b0 <? 0xF0 then
    match r0 with
    | b1 :: b2 :: r2 =>
        if in_range (if b0 =? 0xE0 then 0xA0 else 0x80)
                    (if b0 =? 0xED then 0x9F else 0xBF) b1
           && is_cont b2
        then option_map
               (cons ((b0 - 0xE0) * 4096 + (b1 - 0x80) * 64 + (b2 - 0x80)))
               (utf8_decode r2)
        else None
    | _ => None
    end
  else if b0 <? 0xF5 then
    match r0 with
    | b1 :: b2 :: b3 :: r3 =>
        if in_range (if b0 =? 0xF0 then 0x90 else 0x80)
                    (if b0 =? 0xF4 then 0x8F else 0xBF) b1
           && is_cont b2 && is_cont b3
        then option_map
               (cons ((b0 - 0xF0) * 262144 + (b1 - 0x80) * 4096
                      + (b2 - 0x80) * 64 + (b3 - 0x80)))
               (utf8_decode r3)
        else None
    | _ => None
    end
  else None.
Proof. reflexivity. Qed.

Ltac decide_tests :=
  repeat match goal with
    | |- context [?a =? ?b] => destruct (N.eqb_spec a b); try lia
    | |- context [?a <? ?b] => destruct (N.ltb_spec a b); try lia
    | |- context [?a <=? ?b] => destruct (N.leb_spec a b); try lia
    end.

Lemma utf8_decode_encode_char (c : N) (bs rest : bytes) :
  utf8_encode_char c = Some bs ->
  utf8_decode (bs ++ rest) = option_map (cons c) (utf8_decode rest).
Proof.
  unfold utf8_encode_char.
  pose proof (N.div_mod' c 64) as D1.
  pose proof (N.mod_upper_bound c 64 ltac:(lia)) as M1.
  pose proof (N.div_mod' (c / 64) 64) as D2.
  pose proof (N.mod_upper_bound (c / 64) 64 ltac:(lia)) as M2.
  pose proof (N.div_mod' c 4096) as D3.
  pose proof (N.mod_upper_bound c 4096 ltac:(lia)) as M3.
  pose proof (N.div_mod' (c / 4096) 64) as D4.
  pose proof (N.mod_upper_bound (c / 4096) 64 ltac:(lia)) as M4.
  pose proof (N.div_mod' c 262144) as D5.
  pose proof (N.mod_upper_bound c 262144 ltac:(lia)) as M5.
  set (q1 := c / 64) in *. set (r1 := c mod 64) in *.
  set (r2 := q1 mod 64) in *. set (q2 := q1 / 64) in *.
  set (q3 := c / 4096) in *. set (r3 := c mod 4096) in *.
  set (r4 := q3 mod 64) in *. set (q4 := q3 / 64) in *.
  set (q5 := c / 262144) in *. set (r5 := c mod 262144) in *.
  clearbody q1 r1 q2 r2 q3 r3 q4 r4 q5 r5.
  remember (0xC0 + q1) as h2 eqn:Eh2. remember (0xE0 + q3) as h3 eqn:Eh3.
  remember (0xF0 + q5) as h4 eqn:Eh4. remember (0x80 + r1) as t1 eqn:Et1.
  remember (0x80 + r2) as t2 eqn:Et2. remember (0x80 + r4) as t3 eqn:Et3.
  destruct (N.ltb_spec c 0x80).
  { intros [= <-]. cbn [app]. rewrite utf8_decode_cons. now decide_tests. }
  destruct (N.ltb_spec c 0x800).
  { intros [= <-]. cbn [app]. rewrite utf8_decode_cons.
    unfold is_cont. decide_tests. cbn [andb]. do 2 f_equal. lia. }
  destruct (N.ltb_spec c 0x10000).
  { destruct (N.leb_spec 0xD800 c), (N.leb_spec c 0xDFFF); cbn [andb];
      try discriminate; intros [= <-]; cbn [app]; rewrite utf8_decode_cons;
      unfold is_cont, in_range; decide_tests; cbn [andb]; do 2 f_equal; lia. }
  destruct (N.ltb_spec c 0x110000); [|discriminate].
  intros [= <-]. cbn [app]. rewrite utf8_decode_cons.
  unfold is_cont, in_range. decide_tests; cbn [andb]; do 2 f_equal; lia.
Qed.

Lemma utf8_decode_encode (s : str) (b : bytes) :
  utf8_encode s = Some b -> utf8_decode b = Some s.
Proof.
  revert b. induction s as [|c s IH]; simpl; intros b.
  - now intros [= <-].
  - destruct (utf8_encode_char c) as [bc|] eqn:Ec; [|discriminate].
    destruct (utf8_encode s) as [bs|] eqn:Es; [|discriminate].
    intros [= <-]. rewrite (utf8_decode_encode_char _ _ _ Ec).
    now rewrite (IH _ eq_refl).
Qed.

Lemma utf8_encode_join (args : list str) (bargs : list bytes) :
  Forall2 (fun a b => utf8_encode a = Some b) args bargs ->
  utf8_encode (join (py " ") args) = Some (join [0x20] bargs).
Proof.
  induction 1 as [|a b args bargs Hab Hrest IH]; [reflexivity|].
  destruct Hrest as [|a' b' args' bargs' Hab' Hrest'].
  - exact Hab.
  - change (join (py " ") (a :: a' :: args'))
      with (a ++ py " " ++ join (py " ") (a' :: args')).
    change (join [0x20] (b :: b' :: bargs'))
      with (b ++ [0x20] ++ join [0x20] (b' :: bargs')).
    now rewrite !utf8_encode_app, Hab, IH.
Qed.

(** ** Framing of commands *)

Lemma terminator_str_letter (t : terminator) :
  terminator_str t = [terminator_letter t].
Proof. now destruct t. Qed.

Lemma terminator_letter_ascii (t : terminator) :
  utf8_encode [terminator_letter t] = Some [terminator_letter t].
Proof. now destruct t. Qed.

Lemma _endline_ascii (self : Clamd) :
  utf8_encode [_endline self] = Some [_endline self].
Proof. unfold _endline. now destruct (line_terminator self). Qed.

(** The string [_send] encodes. *)
Lemma _send_unfold (self : Clamd) (command : str) (args : list str) :
  _send self command args =
  match utf8_encode (terminator_letter (line_terminator self)
                       :: command_text command args ++ [_endline self]) with
  | Some data => sendall data
  | None => raise UnicodeEncodeError
  end.
Proof.
  unfold _send, command_text. rewrite terminator_str_letter.
  destruct args as [|a args]; cbn [app]; rewrite <- ?app_assoc; reflexivity.
Qed.

Lemma command_text_encode (command : str) (args : list str)
    (bc : bytes) (bargs : list bytes) :
  utf8_encode command = Some bc ->
  Forall2 (fun a b => utf8_encode a = Some b) args bargs ->
  utf8_encode (command_text command args) =
  Some (bc ++ match bargs with
              | [] => []
              | _ :: _ => 0x20 :: join [0x20] bargs
              end).
Proof.
  intros Hc Ha. unfold command_text. rewrite utf8_encode_app, Hc.
  destruct Ha as [|a b args bargs Hab Hrest]; [reflexivity|].
  rewrite utf8_encode_app.
  now rewrite (utf8_encode_join (a :: args) (b :: bargs)) by now constructor.
Qed.

Lemma sendall_takes (data : bytes) (s : socket) :
  takes (length data) s -> sendall data s = (Ok tt, wrote [data] s).
Proof.
  intros [Hc Hw]. unfold sendall, wrote. rewrite Hc.
  destruct (write_limit s) as [[k e]|]; [|reflexivity].
  apply Nat.leb_le in Hw. now rewrite Hw.
Qed.

Lemma wrote_takes (l : list bytes) (n : nat) (s : socket) :
  takes (length (concat l) + n) s -> takes n (wrote l s).
Proof.
  unfold takes, wrote. cbn [closed write_limit]. intros [Hc Hw].
  split; [exact Hc|].
  destruct (write_limit s) as [[k e]|]; [|exact I].
  revert k Hw. induction l as [|d l IH]; intros k Hw; cbn [fold_left].
  - exact Hw.
  - apply IH. cbn [concat] in Hw. rewrite length_app in Hw. lia.
Qed.

Lemma wrote_wrote (l1 l2 : list bytes) (s : socket) :
  wrote l2 (wrote l1 s) = wrote (l1 ++ l2) s.
Proof.
  unfold wrote. cbn [incoming read_error output write_limit closed].
  rewrite <- app_assoc. destruct (write_limit s) as [[k e]|]; [|reflexivity].
  now rewrite fold_left_app.
Qed.

Lemma takes_le (n m : nat) (s : socket) :
  (n <= m)%nat -> takes m s -> takes n s.
Proof.
  intros H [Hc Hw]. split; [exact Hc|].
  destruct (write_limit s) as [[k e]|]; [lia | exact I].
Qed.

(** C1 (as amended): [_send] hands to [sendall] the mode letter ([n] or
    [z]), the UTF-8 octets of the verb, then, when there are arguments, a
    space and the arguments' octets joined by spaces, then the terminator
    character of the mode (newline for [n], NUL for [z]); on a connection
    that takes them, these octets are written as one payload. *)
Theorem send_frame (self : Clamd) (command : str) (args : list str)
    (sock : socket) (bc : bytes) (bargs : list bytes) :
  utf8_encode command = Some bc ->
  Forall2 (fun a b => utf8_encode a = Some b) args bargs ->
  let frame :=
    terminator_letter (line_terminator self)
      :: (bc ++ match bargs with
                | [] => []
                | _ :: _ => 0x20 :: join [0x20] bargs
                end)
      ++ [_endline self] in
  _send self command args sock = sendall frame sock /\
  (takes (length frame) sock ->
   _send self command args sock =
   (Ok tt,
    mk_socket (incoming sock) (read_error sock) (output sock ++ [frame])
      match write_limit sock with
      | None => None
      | Some (k, e) => Some ((k - length frame)%nat, e)
      end
      (closed sock))).
Proof.
  intros Hc Ha frame.
  assert (E : _send self command args sock = sendall frame sock).
  { rewrite _send_unfold.
    change (terminator_letter (line_terminator self)
              :: command_text command args ++ [_endline self])
      with ([terminator_letter (line_terminator self)]
              ++ command_text command args ++ [_endline self]).
    rewrite !utf8_encode_app, terminator_letter_ascii, _endline_ascii.
    rewrite (command_text_encode _ _ _ _ Hc Ha). reflexivity. }
  split; [exact E|]. intros T. rewrite E. exact (sendall_takes _ _ T).
Qed.

Lemma send_frame_witness :
  _send (mk_Clamd (AF_UNIX DEFAULT_UNIX_SOCKET_PATH) 1024 LT_z)
        (py "SCAN") [py "/tmp/" ++ [0xE9]; py "b"] (fresh_socket []) =
  (Ok tt,
   mk_socket [] None [pyb "zSCAN /tmp/" ++ [0xC3; 0xA9] ++ pyb " b" ++ [0]] None false).
Proof.
  apply (send_frame (mk_Clamd (AF_UNIX DEFAULT_UNIX_SOCKET_PATH) 1024 LT_z)
           (py "SCAN") [py "/tmp/" ++ [0xE9]; py "b"] (fresh_socket [])
           (pyb "SCAN") [pyb "/tmp/" ++ [0xC3; 0xA9]; pyb "b"]).
  - reflexivity.
  - repeat constructor.
  - split; [reflexivity | exact I].
Defined.

(** A verb or an argument with a lone surrogate has no UTF-8 encoding:
    [_send] raises and writes nothing. *)
Lemma _send_unencodable (self : Clamd) (command : str) (args : list str)
    (sock : socket) :
  utf8_encode (command_text command args) = None ->
  _send self command args sock = (Raise UnicodeEncodeError, sock).
Proof.
  intros H. rewrite _send_unfold.
  change (terminator_letter (line_terminator self)
            :: command_text command args ++ [_endline self])
    with ([terminator_letter (line_terminator self)]
            ++ command_text command args ++ [_endline self]).
  now rewrite !utf8_encode_app, H, terminator_letter_ascii.
Qed.

(** C1 (as stated) fails: in newline mode the frame of [PING] starts with
    the letter [n], not with the newline character the specification's
    frame starts with. *)
Lemma send_frame_starts_with_letter :
  utf8_encode (spec_frame (_endline ClamdNetworkSocket) (py "PING") []) =
    Some [10; 80; 73; 78; 71; 10] /\
  _send ClamdNetworkSocket (py "PING") [] (fresh_socket []) =
    (Ok tt, mk_socket [] None [[110; 80; 73; 78; 71; 10]] None false) /\
  output (snd (_send ClamdNetworkSocket (py "PING") [] (fresh_socket []))) <>
    [[10; 80; 73; 78; 71; 10]].
Proof. repeat split. discriminate. Qed.

(** ** Round trip of a frame through the far end *)

Lemma strip_frame (p : N -> bool) (letter e : N) (text : str) :
  p letter = false -> p e = true ->
  strip_by p (letter :: text ++ [e]) = letter :: rstrip p text.
Proof.
  intros Hl He. unfold strip_by. rewrite (lstrip_stop _ _ _ Hl).
  rewrite (rstrip_cons _ _ _ Hl), rstrip_snoc, He. reflexivity.
Qed.

Lemma letter_not_stripped (self : Clamd) :
  mem_chars [_endline self] (terminator_letter (line_terminator self)) = false.
Proof. unfold _endline. now destruct (line_terminator self). Qed.

Lemma mem_chars_single (c x : N) : mem_chars [c] x = true <-> x = c.
Proof.
  unfold mem_chars. simpl. rewrite orb_false_r. apply N.eqb_eq.
Qed.

(** What the far end reads back from any frame [_send] wrote. *)
Lemma frame_read_back (self : Clamd) (command : str) (args : list str)
    (sock' : socket) :
  _send self command args (fresh_socket []) = (Ok tt, sock') ->
  fst (_recv self true (loopback sock')) =
  Ok (terminator_letter (line_terminator self)
        :: rstrip (mem_chars [_endline self]) (command_text command args)).
Proof.
  rewrite _send_unfold.
  destruct (utf8_encode _) as [data|] eqn:E; [|discriminate].
  intros [= <-]. unfold _recv, loopback. cbn. rewrite app_nil_r.
  rewrite (utf8_decode_encode _ _ E). cbn [fst]. f_equal.
  unfold strip_chars. apply strip_frame.
  - apply letter_not_stripped.
  - now apply mem_chars_single.
Qed.

(** C2 (as amended): writing a frame and stripping the terminator
    character from both ends of what the far end decodes gives the mode
    letter followed by the verb and its space-separated arguments,
    whenever that text does not end with the terminator character. *)
Theorem frame_round_trip (self : Clamd) (command : str) (args : list str)
    (sock' : socket) :
  _send self command args (fresh_socket []) = (Ok tt, sock') ->
  (forall t, command_text command args <> t ++ [_endline self]) ->
  fst (_recv self true (loopback sock')) =
  Ok (terminator_letter (line_terminator self) :: command_text command args).
Proof.
  intros Hs Hend. rewrite (frame_read_back _ _ _ _ Hs). do 2 f_equal.
  apply rstrip_id. intros t c E.
  destruct (mem_chars [_endline self] c) eqn:Hc; [|reflexivity].
  apply mem_chars_single in Hc. subst c. now apply Hend in E.
Qed.

Lemma frame_round_trip_witness :
  fst (_recv ClamdNetworkSocket true
         (loopback (mk_socket [] None [pyb "nSCAN /tmp/a" ++ [10]] None false))) =
  Ok (py "nSCAN /tmp/a").
Proof.
  apply (frame_round_trip ClamdNetworkSocket (py "SCAN") [py "/tmp/a"]).
  - reflexivity.
  - intros t E. apply (f_equal (@rev N)) in E. rewrite rev_app_distr in E.
    discriminate.
Defined.

(** C2 (as stated) fails: what is recovered from the frame of [PING] is
    [nPING], not the verb. *)
Lemma frame_round_trip_keeps_letter :
  fst (_recv ClamdNetworkSocket true
         (loopback (snd (_send ClamdNetworkSocket (py "PING") [] (fresh_socket [])))))
    = Ok (py "nPING") /\
  py "nPING" <> command_text (py "PING") [].
Proof. split; [reflexivity | discriminate]. Qed.

(** ** Classification of replies by [_command] *)

Lemma str_eqb_eq (a b : str) : str_eqb a b = true <-> a = b.
Proof.
  revert b. induction a as [|x a IH]; intros [|y b]; simpl; try easy.
  rewrite andb_true_iff, N.eqb_eq, IH. split.
  - now intros [-> ->].
  - now intros [= -> ->].
Qed.

Lemma str_eqb_neq (a b : str) : a <> b -> str_eqb a b = false.
Proof.
  intros H. destruct (str_eqb a b) eqn:E; [|reflexivity].
  now apply str_eqb_eq in E.
Qed.

Section Command.

Variables (self : Clamd) (command : str) (args : list str) (multiline : bool).
Variables (sock sock1 sock2 : socket) (reply : str).
Hypothesis Hsend : _send self command args sock = (Ok tt, sock1).
Hypothesis Hrecv : _recv self multiline sock1 = (Ok reply, sock2).

Lemma _command_unknown (raise_on_error : bool) :
  reply = UNKNOWN_COMMAND ->
  _command self (Connected sock) command args multiline raise_on_error =
  (Raise (UnknownCommand command), Some (close sock2)).
Proof.
  intros ->. unfold _command, with_socket, bindM. cbn [_acquire_socket].
  rewrite Hsend, Hrecv. reflexivity.
Qed.

Lemma _command_timed_out (raise_on_error : bool) :
  reply = COMMAND_READ_TIMED_OUT ->
  _command self (Connected sock) command args multiline raise_on_error =
  (Raise (CommandReadTimedOut command), Some (close sock2)).
Proof.
  intros ->. unfold _command, with_socket, bindM. cbn [_acquire_socket].
  rewrite Hsend, Hrecv. reflexivity.
Qed.

Hypothesis Hunknown : reply <> UNKNOWN_COMMAND.
Hypothesis Htimeout : reply <> COMMAND_READ_TIMED_OUT.

Lemma _command_no_raise :
  _command self (Connected sock) command args multiline false =
  (Ok reply, Some (close sock2)).
Proof.
  unfold _command, with_socket, bindM. cbn [_acquire_socket].
  rewrite Hsend, Hrecv, !str_eqb_neq by assumption. reflexivity.
Qed.

Lemma _command_error (a b : str) :
  rcut (py "ERROR") reply = Some (a, b) ->
  _command self (Connected sock) command args multiline true =
  (Raise (ResponseError command (strip a)), Some (close sock2)).
Proof.
  intros R. unfold _command, with_socket, bindM. cbn [_acquire_socket].
  rewrite Hsend, Hrecv, !str_eqb_neq by assumption.
  unfold rsplit1. rewrite R. reflexivity.
Qed.

Lemma _command_success :
  rcut (py "ERROR") reply = None ->
  _command self (Connected sock) command args multiline true =
  (Ok reply, Some (close sock2)).
Proof.
  intros R. unfold _command, with_socket, bindM. cbn [_acquire_socket].
  rewrite Hsend, Hrecv, !str_eqb_neq by assumption.
  unfold rsplit1. rewrite R. reflexivity.
Qed.

End Command.

Lemma ERROR_not_empty : py "ERROR" <> [].
Proof. discriminate. Qed.

(** C4: with [raise_on_error] set, a reply that passed the two sentinel
    checks and that [rsplit("ERROR", 1)] cuts in more than one piece makes
    [_command] raise [ResponseError] with the command and the stripped
    text before the right-most [ERROR]; the reply [Reason ERROR] raises
    [ResponseError(command, "Reason")], and without [raise_on_error] the
    reply is returned as it is. *)
Theorem error_reply (self : Clamd) (command : str) (args : list str)
    (multiline : bool) (sock sock1 sock2 : socket) (reply : str) :
  _send self command args sock = (Ok tt, sock1) ->
  _recv self multiline sock1 = (Ok reply, sock2) ->
  reply <> UNKNOWN_COMMAND ->
  reply <> COMMAND_READ_TIMED_OUT ->
  ((1 < length (rsplit1 (py "ERROR") reply))%nat ->
   exists a b,
     last_occurrence (py "ERROR") reply a b /\
     _command self (Connected sock) command args multiline true =
     (Raise (ResponseError command (strip a)), Some (close sock2))) /\
  (reply = py "Reason ERROR" ->
   _command self (Connected sock) command args multiline true =
   (Raise (ResponseError command (py "Reason")), Some (close sock2))) /\
  _command self (Connected sock) command args multiline false =
  (Ok reply, Some (close sock2)).
Proof.
  intros Hs Hr Hu Ht. repeat split.
  - intros Hlen. unfold rsplit1 in Hlen.
    destruct (rcut (py "ERROR") reply) as [[a b]|] eqn:R; [|simpl in Hlen; lia].
    exists a, b. split.
    + apply rcut_Some; [exact ERROR_not_empty | exact R].
    + exact (_command_error _ _ _ _ _ _ _ _ Hs Hr Hu Ht a b R).
  - intros E.
    apply (_command_error _ _ _ _ _ _ _ _ Hs Hr Hu Ht (py "Reason ") []).
    now rewrite E.
  - exact (_command_no_raise _ _ _ _ _ _ _ _ Hs Hr Hu Ht).
Qed.

Lemma error_reply_witness :
  _command ClamdNetworkSocket (Connected (fresh_socket (pyb "Reason ERROR")))
    (py "DUMMY") [] true true =
  (Raise (ResponseError (py "DUMMY") (py "Reason")),
   Some (mk_socket [] None [pyb "nDUMMY" ++ [10]] None true)) /\
  _command ClamdNetworkSocket (Connected (fresh_socket (pyb "Reason ERROR")))
    (py "DUMMY") [] true false =
  (Ok (py "Reason ERROR"), Some (mk_socket [] None [pyb "nDUMMY" ++ [10]] None true)).
Proof.
  destruct (error_reply ClamdNetworkSocket (py "DUMMY") [] true
              (fresh_socket (pyb "Reason ERROR"))
              (mk_socket (pyb "Reason ERROR") None [pyb "nDUMMY" ++ [10]] None false)
              (mk_socket [] None [pyb "nDUMMY" ++ [10]] None false)
              (py "Reason ERROR"))
    as (_ & Hraise & Hkeep).
  - reflexivity.
  - reflexivity.
  - discriminate.
  - discriminate.
  - split; [exact (Hraise eq_refl) | exact Hkeep].
Defined.

(** ** The sentinel replies *)

Lemma call_sentinel (absolute : str -> str) (self : Clamd) (sock : socket)
    (req : request) (out : Outcome str) (e : exn) :
  (forall raise_on_error,
      _command self (Connected sock) (verb req) (arguments absolute req)
        true raise_on_error = out) ->
  fst out = Raise e ->
  call absolute self (Connected sock) req = (Raise e, snd out).
Proof.
  intros H He. destruct out as [r s]. simpl in He. subst r.
  destruct req; unfold call, map_outcome, ping, reload, version, stats,
    scan, contscan, multiscan, _any_scan; cbn [verb arguments] in H;
    rewrite H; reflexivity.
Qed.

(** C3 (as amended): for every operation that goes through [_command]
    ([ping], [reload], [version], [stats], [scan], [contscan],
    [multiscan]), a reply that is exactly [UNKNOWN COMMAND] makes the call
    raise [UnknownCommand] with the verb that was sent, and a reply that is
    exactly [COMMAND READ TIMED OUT] makes it raise [CommandReadTimedOut]
    with that verb. *)
Theorem sentinel_replies (absolute : str -> str) (self : Clamd)
    (req : request) (sock sock1 sock2 : socket) (reply : str) :
  _send self (verb req) (arguments absolute req) sock = (Ok tt, sock1) ->
  _recv self true sock1 = (Ok reply, sock2) ->
  (reply = UNKNOWN_COMMAND ->
   call absolute self (Connected sock) req =
   (Raise (UnknownCommand (verb req)), Some (close sock2))) /\
  (reply = COMMAND_READ_TIMED_OUT ->
   call absolute self (Connected sock) req =
   (Raise (CommandReadTimedOut (verb req)), Some (close sock2))).
Proof.
  intros Hs Hr. split; intros E.
  - apply (call_sentinel absolute self sock req
             (Raise (UnknownCommand (verb req)), Some (close sock2)));
      [|reflexivity].
    intros roe. exact (_command_unknown _ _ _ _ _ _ _ _ Hs Hr roe E).
  - apply (call_sentinel absolute self sock req
             (Raise (CommandReadTimedOut (verb req)), Some (close sock2)));
      [|reflexivity].
    intros roe. exact (_command_timed_out _ _ _ _ _ _ _ _ Hs Hr roe E).
Qed.

Lemma sentinel_replies_witness :
  call (fun p => p) ClamdNetworkSocket
    (Connected (fresh_socket (pyb "UNKNOWN COMMAND"))) (Scan (py "/tmp/a") false) =
  (Raise (UnknownCommand (py "SCAN")),
   Some (mk_socket [] None [pyb "nSCAN /tmp/a" ++ [10]] None true)) /\
  call (fun p => p) ClamdNetworkSocket
    (Connected (fresh_socket (pyb "COMMAND READ TIMED OUT"))) (Version false) =
  (Raise (CommandReadTimedOut (py "VERSION")),
   Some (mk_socket [] None [pyb "nVERSION" ++ [10]] None true)).
Proof.
  split.
  - apply (sentinel_replies (fun p => p) ClamdNetworkSocket
             (Scan (py "/tmp/a") false)
             (fresh_socket (pyb "UNKNOWN COMMAND"))
             (mk_socket (pyb "UNKNOWN COMMAND") None [pyb "nSCAN /tmp/a" ++ [10]] None false)
             (mk_socket [] None [pyb "nSCAN /tmp/a" ++ [10]] None false)
             (py "UNKNOWN COMMAND")); reflexivity.
  - apply (sentinel_replies (fun p => p) ClamdNetworkSocket
             (Version false)
             (fresh_socket (pyb "COMMAND READ TIMED OUT"))
             (mk_socket (pyb "COMMAND READ TIMED OUT") None [pyb "nVERSION" ++ [10]] None false)
             (mk_socket [] None [pyb "nVERSION" ++ [10]] None false)
             (py "COMMAND READ TIMED OUT")); reflexivity.
Defined.

(** C3 (as stated) fails: [shutdown] reads no reply, and [instream] has no
    check of the sentinels; on the reply [UNKNOWN COMMAND] it returns the
    reply when [raw] is set and raises [ResponseError] otherwise. *)
Lemma sentinel_replies_not_all_operations :
  shutdown ClamdNetworkSocket (Connected (fresh_socket (pyb "UNKNOWN COMMAND"))) =
  (Ok tt, Some (mk_socket (pyb "UNKNOWN COMMAND") None [pyb "nSHUTDOWN" ++ [10]] None true)) /\
  instream bytes BytesIO_read 1 ClamdNetworkSocket
    (Connected (fresh_socket (pyb "UNKNOWN COMMAND"))) [] true None =
  Some ((Ok (inl (py "UNKNOWN COMMAND")),
         Some (mk_socket [] None [pyb "nINSTREAM" ++ [10]; [0; 0; 0; 0]] None true)), []) /\
  instream bytes BytesIO_read 1 ClamdNetworkSocket
    (Connected (fresh_socket (pyb "UNKNOWN COMMAND"))) [] false None =
  Some ((Raise (ResponseError (py "INSTREAM")
                  (py "Unable to match string: UNKNOWN COMMAND")),
         Some (mk_socket [] None [pyb "nINSTREAM" ++ [10]; [0; 0; 0; 0]] None true)), []) /\
  instream bytes BytesIO_read 1 ClamdNetworkSocket
    (Connected (fresh_socket (pyb "COMMAND READ TIMED OUT"))) [] true None =
  Some ((Ok (inl (py "COMMAND READ TIMED OUT")),
         Some (mk_socket [] None [pyb "nINSTREAM" ++ [10]; [0; 0; 0; 0]] None true)), []).
Proof. repeat split. Qed.

(** ** Regular expressions *)

Lemma rx_lit (n0 : nat) (l inp : str) (g : groups) (k : cont) :
  rx false n0 (fold_right (fun c r => RSeq (RChar (CLit c)) r) REps l) inp g k =
  if starts_with l inp then k (skipn (length l) inp) g else None.
Proof.
  revert inp. induction l as [|c l IH]; intros inp; [reflexivity|].
  cbn [fold_right rx]. destruct inp as [|x inp]; [reflexivity|].
  cbn [cclass_mem starts_with length skipn]. rewrite (N.eqb_sym c x).
  destruct (x =? c); [apply IH | reflexivity].
Qed.

Lemma star_class_inv (icase : bool) (n0 : nat) (cls : cclass) (k : cont)
    (fuel : nat) (inp : str) (g : groups) (res : str * groups) :
  star_loop (rx icase n0 (RChar cls)) k fuel inp g = Some res ->
  exists pre rest,
    inp = pre ++ rest /\
    Forall (fun c => cclass_mem icase cls c = true) pre /\
    k rest g = Some res.
Proof.
  revert inp. induction fuel as [|fuel IH]; intros inp; cbn [star_loop rx].
  - intros H. now exists [], inp.
  - destruct inp as [|c inp]; [intros H; now exists [], []|].
    destruct (cclass_mem icase cls c) eqn:M; [|intros H; now exists [], (c :: inp)].
    destruct (length inp <? length (c :: inp))%nat.
    + destruct (star_loop _ k fuel inp g) eqn:L.
      * intros [= <-]. destruct (IH _ L) as (pre & rest & -> & F & K).
        exists (c :: pre), rest. repeat split; [now constructor | exact K].
      * intros H. now exists [], (c :: inp).
    + intros H. now exists [], (c :: inp).
Qed.

Lemma star_class_complete (icase : bool) (n0 : nat) (cls : cclass) (k : cont)
    (fuel : nat) (pre rest : str) (g : groups) :
  (length (pre ++ rest) <= fuel)%nat ->
  Forall (fun c => cclass_mem icase cls c = true) pre ->
  k rest g <> None ->
  star_loop (rx icase n0 (RChar cls)) k fuel (pre ++ rest) g <> None.
Proof.
  intros Hfuel F K. revert fuel Hfuel.
  induction F as [|c pre M F IH]; intros fuel Hfuel.
  - destruct fuel as [|fuel]; cbn [star_loop app]; [exact K|].
    now destruct (rx _ _ _ _ _ _).
  - destruct fuel as [|fuel]; [simpl in Hfuel; lia|].
    cbn [star_loop app rx]. rewrite M.
    replace (length (pre ++ rest) <? length (c :: pre ++ rest))%nat with true
      by (symmetry; apply Nat.ltb_lt; simpl; lia).
    assert (H : star_loop (rx icase n0 (RChar cls)) k fuel (pre ++ rest) g <> None)
      by (apply IH; simpl in Hfuel; lia).
    now destruct (star_loop _ k fuel (pre ++ rest) g).
Qed.

Lemma firstn_consumed (a b : str) :
  firstn (length (a ++ b) - length b) (a ++ b) = a.
Proof.
  rewrite length_app, Nat.add_sub, firstn_app, Nat.sub_diag, firstn_all.
  simpl. apply app_nil_r.
Qed.

Lemma status_tail_inv (n0 : nat) (r : str) (g : groups) (res : str * groups) :
  rx false n0 status_tail r g match_end = Some res ->
  exists st e,
    status_word st /\ end_of_string e /\ r = st ++ e /\
    res = (e, ("status"%string, st) :: ("5"%string, st) :: g).
Proof.
  unfold status_tail, RSeqs, RLit. cbn [fold_right]. cbn [rx].
  rewrite !rx_lit.
  assert (Eol : forall st e,
             starts_with st r = true -> e = skipn (length st) r ->
             match e with
             | [] => match_end e (("status"%string, firstn (length r - length e) r)
                                    :: ("5"%string, firstn (length r - length e) r) :: g)
             | [c] => if c =? 10
                      then match_end e (("status"%string, firstn (length r - length e) r)
                                    :: ("5"%string, firstn (length r - length e) r) :: g)
                      else None
             | _ => None
             end = Some res ->
             end_of_string e /\ r = st ++ e /\
             res = (e, ("status"%string, st) :: ("5"%string, st) :: g)).
  { intros st e S -> H. apply starts_with_inv in S.
    set (e := skipn (length st) r) in *. clearbody e. subst r.
    rewrite firstn_consumed in H. unfold match_end in H.
    destruct e as [|c [|c' e]]; [| |discriminate].
    - injection H as <-. repeat split. now left.
    - destruct (N.eqb_spec c 10); [|discriminate]. subst c.
      injection H as <-. repeat split. now right. }
  destruct (starts_with (py "FOUND") r) eqn:S1.
  - destruct (skipn (length (py "FOUND")) r) as [|c [|c' e]] eqn:E1.
    + intros H. exists (py "FOUND"), []. split; [now left|].
      apply (Eol _ _ S1 (eq_sym E1)). exact H.
    + destruct (c =? 10) eqn:C.
      * intros H. exists (py "FOUND"), [c]. split; [now left|].
        apply (Eol _ _ S1 (eq_sym E1)). now rewrite C.
      * destruct (starts_with (py "OK") r) eqn:S2;
          [apply starts_with_inv in S1, S2; rewrite S1 in S2 at 1; discriminate|].
        destruct (starts_with (py "ERROR") r) eqn:S3;
          [apply starts_with_inv in S1, S3; rewrite S1 in S3 at 1; discriminate|].
        discriminate.
    + destruct (starts_with (py "OK") r) eqn:S2;
        [apply starts_with_inv in S1, S2; rewrite S1 in S2 at 1; discriminate|].
      destruct (starts_with (py "ERROR") r) eqn:S3;
        [apply starts_with_inv in S1, S3; rewrite S1 in S3 at 1; discriminate|].
      discriminate.
  - destruct (starts_with (py "OK") r) eqn:S2.
    + destruct (skipn (length (py "OK")) r) as [|c [|c' e]] eqn:E2.
      * intros H. exists (py "OK"), []. split; [right; now left|].
        apply (Eol _ _ S2 (eq_sym E2)). exact H.
      * destruct (c =? 10) eqn:C.
        -- intros H. exists (py "OK"), [c]. split; [right; now left|].
           apply (Eol _ _ S2 (eq_sym E2)). now rewrite C.
        -- destruct (starts_with (py "ERROR") r) eqn:S3;
             [apply starts_with_inv in S2, S3; rewrite S2 in S3 at 1; discriminate|].
           discriminate.
      * destruct (starts_with (py "ERROR") r) eqn:S3;
          [apply starts_with_inv in S2, S3; rewrite S2 in S3 at 1; discriminate|].
        discriminate.
    + destruct (starts_with (py "ERROR") r) eqn:S3; [|discriminate].
      destruct (skipn (length (py "ERROR")) r) as [|c [|c' e]] eqn:E3.
      * intros H. exists (py "ERROR"), []. split; [right; now right|].
        apply (Eol _ _ S3 (eq_sym E3)). exact H.
      * destruct (c =? 10) eqn:C; [|discriminate].
        intros H. exists (py "ERROR"), [c]. split; [right; now right|].
        apply (Eol _ _ S3 (eq_sym E3)). now rewrite C.
      * discriminate.
Qed.

Lemma not_colon_Forall (p : str) :
  Forall (fun c => cclass_mem false (CNot 0x3A) c = true) p <-> ~ In 0x3A p.
Proof.
  rewrite Forall_forall. cbn [cclass_mem]. split.
  - intros H Hin. apply H in Hin. now rewrite N.eqb_refl in Hin.
  - intros H c Hin. destruct (N.eqb_spec c 0x3A); [now subst c|reflexivity].
Qed.

Lemma not_newline_Forall (p : str) :
  Forall (fun c => cclass_mem false CAny c = true) p <-> ~ In 10 p.
Proof.
  rewrite Forall_forall. cbn [cclass_mem]. split.
  - intros H Hin. apply H in Hin. now rewrite N.eqb_refl in Hin.
  - intros H c Hin. destruct (N.eqb_spec c 10); [now subst c|reflexivity].
Qed.

Lemma RESULT_REGEX_inv (line rest : str) (m : groups) :
  re_match false RESULT_REGEX line = Some (rest, m) ->
  exists p st,
    ~ In 0x3A p /\ status_word st /\ end_of_string rest /\
    ((line = p ++ py ": " ++ st ++ rest /\
      m = [("status"%string, st); ("5"%string, st); ("path"%string, p)]) \/
     (exists rs,
         rs <> [] /\ ~ In 10 rs /\
         line = p ++ py ": " ++ rs ++ py " " ++ st ++ rest /\
         m = [("status"%string, st); ("5"%string, st);
              ("2"%string, rs ++ py " "); ("reason"%string, rs);
              ("path"%string, p)])).
Proof.
  unfold re_match, RESULT_REGEX, RSeqs, ROpt, RPlus. cbn [fold_right].
  change (RSeq (RGroup "status" (RGroup "5"
            (RAlt (RLit "FOUND") (RAlt (RLit "OK") (RLit "ERROR")))))
            (RSeq REol REps)) with status_tail.
  cbn [rx]. rewrite Nat.eqb_refl. intros H.
  apply (star_class_inv false 0) in H as (p & r & -> & Fp & H).
  apply not_colon_Forall in Fp. rewrite firstn_consumed in H.
  unfold RLit in H at 1. rewrite rx_lit in H.
  destruct (starts_with (py ": ") r) eqn:S; [|discriminate].
  apply starts_with_inv in S.
  set (r2 := skipn (length (py ": ")) r) in *. clearbody r2. subst r.
  set (n0 := length (p ++ py ": " ++ r2)) in *. clearbody n0.
  exists p.
  assert (Fallback :
            rx false n0 status_tail r2 [("path"%string, p)] match_end
            = Some (rest, m) ->
            exists st,
              ~ In 58 p /\ status_word st /\ end_of_string rest /\
              ((p ++ py ": " ++ r2 = p ++ py ": " ++ st ++ rest /\
                m = [("status"%string, st); ("5"%string, st); ("path"%string, p)]) \/
               (exists rs,
                   rs <> [] /\ ~ In 10 rs /\
                   p ++ py ": " ++ r2 = p ++ py ": " ++ rs ++ py " " ++ st ++ rest /\
                   m = [("status"%string, st); ("5"%string, st);
                        ("2"%string, rs ++ py " "); ("reason"%string, rs);
                        ("path"%string, p)]))).
  { intros T. apply status_tail_inv in T as (st & e & W & Ee & -> & [= -> ->]).
    exists st. repeat split; try assumption. now left. }
  destruct r2 as [|c r3]; [exact (Fallback H)|].
  destruct (cclass_mem false CAny c) eqn:Mc; [|exact (Fallback H)].
  match type of H with
  | match ?X with _ => _ end = _ => destruct X as [res|] eqn:L; [|exact (Fallback H)]
  end.
  injection H as ->. clear Fallback.
  apply (star_class_inv false 0 CAny) in L as (pre & r4 & -> & Fpre & L).
  change (c :: pre ++ r4) with ((c :: pre) ++ r4) in L.
  rewrite firstn_consumed in L.
  unfold RLit in L at 1. rewrite rx_lit in L.
  destruct (starts_with (py " ") r4) eqn:S4; [|discriminate].
  apply starts_with_inv in S4.
  set (r5 := skipn (length (py " ")) r4) in *. clearbody r5. subst r4.
  replace ((c :: pre) ++ py " " ++ r5) with (((c :: pre) ++ py " ") ++ r5) in L
    by now rewrite <- app_assoc.
  rewrite firstn_consumed in L.
  apply status_tail_inv in L as (st & e & W & Ee & -> & [= -> ->]).
  exists st. repeat split; try assumption. right. exists (c :: pre).
  repeat split.
  - discriminate.
  - apply not_newline_Forall. constructor; assumption.
Qed.

Lemma status_tail_complete (n0 : nat) (st e : str) (g : groups) :
  status_word st -> end_of_string e ->
  rx false n0 status_tail (st ++ e) g match_end <> None.
Proof.
  intros [-> | [-> | ->]] [-> | ->]; discriminate.
Qed.

Lemma skipn_prefix (a b : str) : skipn (length a) (a ++ b) = b.
Proof. induction a; simpl; auto. Qed.

Lemma RESULT_REGEX_complete (line : str) :
  result_line line -> re_match false RESULT_REGEX line <> None.
Proof.
  intros L. unfold re_match, RESULT_REGEX, RSeqs, ROpt, RPlus. cbn [fold_right].
  change (RSeq (RGroup "status" (RGroup "5"
            (RAlt (RLit "FOUND") (RAlt (RLit "OK") (RLit "ERROR")))))
            (RSeq REol REps)) with status_tail.
  cbn [rx]. rewrite Nat.eqb_refl.
  destruct L as [p st e Hp W Ee -> | p rs st e Hp Hrs Hnl W Ee ->].
  - apply (star_class_complete false 0 (CNot 0x3A));
      [apply Nat.le_refl | now apply not_colon_Forall |].
    unfold RLit at 1. rewrite rx_lit, starts_with_app, skipn_prefix.
    match goal with
    | |- match ?X with _ => _ end <> None => destruct X; [discriminate|]
    end.
    now apply status_tail_complete.
  - apply (star_class_complete false 0 (CNot 0x3A));
      [apply Nat.le_refl | now apply not_colon_Forall |].
    unfold RLit at 1. rewrite rx_lit, starts_with_app, skipn_prefix.
    destruct rs as [|c rs]; [now contradiction Hrs|].
    cbn [app].
    assert (Hc : cclass_mem false CAny c = true).
    { cbn [cclass_mem]. destruct (N.eqb_spec c 10); [|reflexivity].
      subst c. exfalso. apply Hnl. now left. }
    rewrite Hc.
    match goal with
    | |- match ?X with _ => _ end <> None =>
        assert (HX : X <> None); [|now destruct X]
    end.
    apply (star_class_complete false 0 CAny).
    + apply Nat.le_refl.
    + apply not_newline_Forall. intros Hin. apply Hnl. now right.
    + unfold RLit at 1. rewrite rx_lit, starts_with_app, skipn_prefix.
      now apply status_tail_complete.
Qed.

(** [RESULT_REGEX] matches exactly the lines of the shape [result_line]. *)
Lemma RESULT_REGEX_matches (line : str) :
  re_match false RESULT_REGEX line <> None <-> result_line line.
Proof.
  split; [|apply RESULT_REGEX_complete].
  destruct (re_match false RESULT_REGEX line) as [[rest m]|] eqn:E; [|easy].
  intros _. apply RESULT_REGEX_inv in E
    as (p & st & Hp & W & Ee & [[-> _] | (rs & Hrs & Hnl & -> & _)]).
  - now apply (line_without_reason _ p st rest).
  - now apply (line_with_reason _ p rs st rest).
Qed.

(** ** Parsing of scan results *)

Lemma status_of_word (st : str) :
  status_word st ->
  exists s, ScanResult.status_of st = Some s /\ ScanResult.status_str s = st.
Proof.
  intros [-> | [-> | ->]].
  - now exists ScanResult.FOUND.
  - now exists ScanResult.OK.
  - now exists ScanResult.ERROR.
Qed.

(** A line that does not match raises [ResponseError]. *)
Lemma _from_str_no_match (line command : str) (is_stream : bool) :
  re_match false RESULT_REGEX line = None ->
  ScanResult._from_str line command is_stream =
  Raise (ResponseError command (py "Unable to match string: " ++ line)).
Proof. intros H. unfold ScanResult._from_str. now rewrite H. Qed.

(** A line that matches gives a result made of its groups. *)
Lemma _from_str_match (line command : str) (is_stream : bool) :
  re_match false RESULT_REGEX line <> None ->
  exists p st e,
    ~ In 0x3A p /\ end_of_string e /\
    ((line = p ++ py ": " ++ ScanResult.status_str st ++ e /\
      ScanResult._from_str line command is_stream =
      Ok (ScanResult.mk (if is_stream then ScanResult.stream else ScanResult.Path p)
            None st)) \/
     (exists rs,
         rs <> [] /\ ~ In 10 rs /\
         line = p ++ py ": " ++ rs ++ py " " ++ ScanResult.status_str st ++ e /\
         ScanResult._from_str line command is_stream =
         Ok (ScanResult.mk (if is_stream then ScanResult.stream else ScanResult.Path p)
               (Some rs) st))).
Proof.
  intros H. unfold ScanResult._from_str.
  destruct (re_match false RESULT_REGEX line) as [[rest m]|] eqn:E; [|easy].
  apply RESULT_REGEX_inv in E
    as (p & w & Hp & W & Ee & [[-> ->] | (rs & Hrs & Hnl & -> & ->)]);
    destruct (status_of_word _ W) as (st & Hst & <-);
    exists p, st, rest; repeat split; try assumption.
  - left. split; [reflexivity|].
    unfold group_or_empty. cbn [group String.eqb Ascii.eqb Bool.eqb].
    now rewrite Hst.
  - right. exists rs. repeat split; try assumption.
    unfold group_or_empty. cbn [group String.eqb Ascii.eqb Bool.eqb].
    now rewrite Hst.
Qed.

Lemma _from_str_cases (line command : str) (is_stream : bool) :
  (~ result_line line /\
   ScanResult._from_str line command is_stream =
   Raise (ResponseError command (py "Unable to match string: " ++ line))) \/
  (result_line line /\
   exists r, ScanResult._from_str line command is_stream = Ok r).
Proof.
  destruct (re_match false RESULT_REGEX line) as [res|] eqn:E.
  - right. assert (H : re_match false RESULT_REGEX line <> None) by now rewrite E.
    split; [now apply RESULT_REGEX_matches|].
    destruct (_from_str_match line command is_stream H)
      as (p & st & e & _ & _ & [[_ R] | (rs & _ & _ & _ & R)]); eauto.
  - left. split; [|now apply _from_str_no_match].
    intros L. apply RESULT_REGEX_matches in L. now apply L.
Qed.

(** C6: the path of a parsed line is what comes before the first colon of
    the line: it contains no colon, a colon follows it, and so it differs
    from every path that contains a colon. *)
Theorem path_stops_at_first_colon (line command : str) (is_stream : bool)
    (r : ScanResult.t) :
  ScanResult._from_str line command is_stream = Ok r ->
  exists p rest,
    line = p ++ py ":" ++ rest /\ ~ In 0x3A p /\
    ScanResult.path r = (if is_stream then ScanResult.stream else ScanResult.Path p) /\
    forall component, In 0x3A component ->
                      ScanResult.path r <> ScanResult.Path component.
Proof.
  intros H.
  assert (M : re_match false RESULT_REGEX line <> None).
  { intros E. rewrite (_from_str_no_match _ _ _ E) in H. discriminate. }
  destruct (_from_str_match line command is_stream M)
    as (p & st & e & Hp & _ & [[-> R] | (rs & _ & _ & -> & R)]);
    rewrite R in H; injection H as <-; exists p; eexists;
    (split; [cbn [py list_ascii_of_string map app]; reflexivity|]);
    (split; [exact Hp|]); (split; [reflexivity|]);
    intros component Hc; cbn [ScanResult.path]; destruct is_stream;
    try discriminate; intros [= ->]; contradiction.
Qed.

Lemma path_stops_at_first_colon_witness :
  exists p rest,
    py "/tmp/a: b: Eicar FOUND" = p ++ py ":" ++ rest /\ ~ In 0x3A p /\
    ScanResult.Path (py "/tmp/a") = ScanResult.Path p /\
    forall component, In 0x3A component ->
                      ScanResult.Path (py "/tmp/a") <> ScanResult.Path component.
Proof.
  exact (path_stops_at_first_colon (py "/tmp/a: b: Eicar FOUND") (py "SCAN") false
           (ScanResult.mk (ScanResult.Path (py "/tmp/a")) (Some (py "b: Eicar"))
              ScanResult.FOUND)
           eq_refl).
Defined.

(** C10: the documentation of [ScanResult.reason] says that the reason of
    an [OK] result is always [None]; the code gives an [OK] result with a
    reason for a line that has text between the colon and [OK], such as
    the reply for a clean file whose name contains a colon and a space. *)
Theorem ok_result_with_reason :
  ScanResult._from_str (py "/tmp/a: x OK") (py "SCAN") false =
  Ok (ScanResult.mk (ScanResult.Path (py "/tmp/a")) (Some (py "x")) ScanResult.OK) /\
  ScanResult._from_str (py "/data/a: b: OK") (py "SCAN") false =
  Ok (ScanResult.mk (ScanResult.Path (py "/data/a")) (Some (py "b:")) ScanResult.OK).
Proof. split; reflexivity. Qed.

(** ** Parsing of a multi-line scan reply *)

Lemma list_comp_first_failure {A B} (f : A -> Res B) (pre : list A) (x : A)
    (post : list A) (e : exn) :
  Forall (fun a => exists b, f a = Ok b) pre ->
  f x = Raise e ->
  list_comp f (pre ++ x :: post) = Raise e.
Proof.
  intros F Hx. induction F as [|a pre [b Hb] _ IH]; simpl.
  - now rewrite Hx.
  - now rewrite Hb, IH.
Qed.

Lemma list_comp_all {A B} (f : A -> Res B) (l : list A) (bs : list B) :
  list_comp f l = Ok bs -> Forall2 (fun a b => f a = Ok b) l bs.
Proof.
  revert bs. induction l as [|a l IH]; simpl; intros bs.
  - intros [= <-]. constructor.
  - destruct (f a) as [b|e] eqn:Ha; [|discriminate]. simpl.
    destruct (list_comp f l) as [bs'|e] eqn:Hl; [|discriminate]. simpl.
    intros [= <-]. constructor; [exact Ha | now apply IH].
Qed.

Lemma _any_scan_parsed (absolute : str -> str) (self : Clamd) (command path : str)
    (sock sock1 sock2 : socket) (reply : str) :
  _send self command [absolute path] sock = (Ok tt, sock1) ->
  _recv self true sock1 = (Ok reply, sock2) ->
  reply <> UNKNOWN_COMMAND ->
  reply <> COMMAND_READ_TIMED_OUT ->
  _any_scan absolute self (Connected sock) command path false =
  (l <- list_comp (fun line => ScanResult._from_str line command false)
                  (split (_endline self) reply) ;;
   Ok (inr l),
   Some (close sock2)).
Proof.
  intros Hs Hr Hu Ht. unfold _any_scan.
  now rewrite (_command_no_raise _ _ _ _ _ _ _ _ Hs Hr Hu Ht).
Qed.

(** C5 (as amended): when a line of a multi-line scan reply does not have
    the shape [path: [reason ]status], the call raises [ResponseError] with
    the command and the message [Unable to match string: ] followed by
    that line; the lines are parsed in order and the first that fails ends
    the call, so a list is only returned when every line was parsed. *)
Theorem scan_reply_all_or_nothing (absolute : str -> str) (self : Clamd)
    (command path : str) (sock sock1 sock2 : socket) (reply : str) :
  _send self command [absolute path] sock = (Ok tt, sock1) ->
  _recv self true sock1 = (Ok reply, sock2) ->
  reply <> UNKNOWN_COMMAND ->
  reply <> COMMAND_READ_TIMED_OUT ->
  (forall pre line post,
      split (_endline self) reply = pre ++ line :: post ->
      Forall result_line pre ->
      ~ result_line line ->
      _any_scan absolute self (Connected sock) command path false =
      (Raise (ResponseError command (py "Unable to match string: " ++ line)),
       Some (close sock2))) /\
  (forall l,
      fst (_any_scan absolute self (Connected sock) command path false) = Ok (inr l) ->
      Forall2 (fun line r => ScanResult._from_str line command false = Ok r)
        (split (_endline self) reply) l).
Proof.
  intros Hs Hr Hu Ht. rewrite (_any_scan_parsed _ _ _ _ _ _ _ _ Hs Hr Hu Ht).
  split.
  - intros pre line post E Fpre Hline. rewrite E.
    rewrite (list_comp_first_failure _ pre line post
               (ResponseError command (py "Unable to match string: " ++ line))).
    + reflexivity.
    + apply Forall_forall. intros a Ha.
      rewrite Forall_forall in Fpre. apply Fpre in Ha.
      destruct (_from_str_cases a command false) as [[N _] | [_ R]];
        [contradiction | exact R].
    + now destruct (_from_str_cases line command false) as [[_ R] | [L _]].
  - intros l. cbn [fst].
    destruct (list_comp _ _) as [l'|e] eqn:E; [|discriminate].
    simpl. intros [= <-]. now apply list_comp_all.
Qed.

Lemma scan_reply_all_or_nothing_witness :
  _any_scan (fun p => p) ClamdNetworkSocket
    (Connected (fresh_socket (pyb "/a: OK" ++ [10] ++ pyb "/b OK" ++ [10] ++ pyb "/c:")))
    (py "SCAN") (py "/") false =
  (Raise (ResponseError (py "SCAN") (py "Unable to match string: /b OK")),
   Some (mk_socket [] None [pyb "nSCAN /" ++ [10]] None true)).
Proof.
  refine (proj1 (scan_reply_all_or_nothing (fun p => p) ClamdNetworkSocket
            (py "SCAN") (py "/")
            (fresh_socket (pyb "/a: OK" ++ [10] ++ pyb "/b OK" ++ [10] ++ pyb "/c:"))
            (mk_socket (pyb "/a: OK" ++ [10] ++ pyb "/b OK" ++ [10] ++ pyb "/c:")
               None [pyb "nSCAN /" ++ [10]] None false)
            (mk_socket [] None [pyb "nSCAN /" ++ [10]] None false)
            (py "/a: OK" ++ [10] ++ py "/b OK" ++ [10] ++ py "/c:")
            eq_refl eq_refl _ _)
          [py "/a: OK"] (py "/b OK") [py "/c:"] eq_refl _ _).
  - discriminate.
  - discriminate.
  - repeat constructor.
    apply (line_without_reason _ (py "/a") (py "OK") []);
      [cbn; intuition discriminate | right; left; reflexivity
      | left; reflexivity | reflexivity].
  - intros L. apply RESULT_REGEX_matches in L. now apply L.
Defined.

(** C5 (as stated) fails: the error raised for a line that cannot be
    parsed is a [ResponseError], equal to the one [_command] raises when
    the daemon itself reports that text as an error; it is not the
    [MalformedReply] of the specification. *)
Lemma unparsed_line_raises_ResponseError :
  fst (_any_scan (fun p => p) ClamdNetworkSocket
         (Connected (fresh_socket (pyb "garbage"))) (py "SCAN") (py "/") false) =
  Raise (ResponseError (py "SCAN") (py "Unable to match string: garbage")) /\
  fst (_command ClamdNetworkSocket
         (Connected (fresh_socket (pyb "Unable to match string: garbage ERROR")))
         (py "SCAN") [py "/"] true true) =
  Raise (ResponseError (py "SCAN") (py "Unable to match string: garbage")) /\
  error_name_of (ResponseError (py "SCAN") (py "Unable to match string: garbage"))
  <> Some E_MalformedReply.
Proof. repeat split. discriminate. Qed.

(** ** [int] and [split] *)








Lemma split_no_sep (c : N) (s : str) : ~ In c s -> split c s = [s].
Proof.
  induction s as [|x s IH]; [reflexivity|]. intros H. cbn [split].
  destruct (N.eqb_spec x c) as [->|]; [exfalso; apply H; now left|].
  rewrite IH; [reflexivity|]. intros Hin. apply H. now right.
Qed.

Lemma split_field (c : N) (a b : str) :
  ~ In c a -> split c (a ++ c :: b) = a :: split c b.
Proof.
  induction a as [|x a IH]; intros H.
  - cbn [app split]. now rewrite N.eqb_refl.
  - cbn [app split]. destruct (N.eqb_spec x c) as [->|];
      [exfalso; apply H; now left|].
    rewrite IH; [reflexivity|]. intros Hin. apply H. now right.
Qed.




(** ** The streamed upload *)

Lemma struct_pack_L_be32 (n : Z) :
  (0 <= n < 4294967296)%Z -> struct_pack_L n = Some (be32 (Z.to_N n)).
Proof.
  intros H. unfold struct_pack_L.
  replace ((0 <=? n)%Z && (n <=? 4294967295)%Z) with true; [reflexivity|].
  symmetry. apply andb_true_intro. split; apply Z.leb_le; lia.
Qed.

Lemma struct_pack_L_too_long (n : Z) :
  (4294967296 <= n)%Z -> struct_pack_L n = None.
Proof.
  intros H. unfold struct_pack_L.
  replace (n <=? 4294967295)%Z with false; [now rewrite andb_false_r|].
  symmetry. apply Z.leb_gt. lia.
Qed.

(** [be32] is the 4-octet unsigned big-endian encoding. *)
Lemma be32_spec (n : N) :
  n < 4294967296 ->
  length (be32 n) = 4%nat /\ Forall (fun b => b < 256) (be32 n) /\
  be_value (be32 n) = n.
Proof.
  intros H. unfold be32, be_value. cbn [length fold_left].
  pose proof (N.div_mod' n 256) as D1.
  pose proof (N.mod_upper_bound n 256 ltac:(lia)) as M1.
  pose proof (N.div_mod' (n / 256) 256) as D2.
  pose proof (N.mod_upper_bound (n / 256) 256 ltac:(lia)) as M2.
  pose proof (N.div_mod' n 65536) as D3.
  pose proof (N.mod_upper_bound n 65536 ltac:(lia)) as M3.
  pose proof (N.div_mod' (n / 65536) 256) as D4.
  pose proof (N.mod_upper_bound (n / 65536) 256 ltac:(lia)) as M4.
  pose proof (N.div_mod' n 16777216) as D5.
  pose proof (N.mod_upper_bound n 16777216 ltac:(lia)) as M5.
  set (q1 := n / 256) in *. set (r1 := n mod 256) in *.
  set (r2 := q1 mod 256) in *. set (q2 := q1 / 256) in *.
  set (q3 := n / 65536) in *. set (r3 := n mod 65536) in *.
  set (r4 := q3 mod 256) in *. set (q4 := q3 / 256) in *.
  set (q5 := n / 16777216) in *. set (r5 := n mod 16777216) in *.
  clearbody q1 r1 q2 r2 q3 r3 q4 r4 q5 r5.
  split; [reflexivity|]. split.
  - repeat constructor; lia.
  - lia.
Qed.

Lemma wrote_nil (s : socket) : wrote [] s = s.
Proof.
  destruct s as [i r o w c]. unfold wrote. cbn. rewrite app_nil_r.
  now destruct w as [[k e]|].
Qed.

Section Upload.

Variable Src : Type.
Variable read : Src -> Z -> bytes * Src.

Lemma send_chunks_written (fuel : nat) (n : Z) (chunk : bytes) (buff : Src)
    (sock : socket) (cs : list bytes) (buff' : Src) :
  chunks_from Src read fuel n chunk buff = Some (cs, buff') ->
  Forall (fun c => N.of_nat (length c) < 4294967296) cs ->
  takes (length (concat (map chunk_frame cs))) sock ->
  send_chunks Src read fuel n chunk buff sock =
  Some (Ok tt, wrote (map chunk_frame cs) sock, buff').
Proof.
  revert chunk buff sock cs. induction fuel as [|fuel IH];
    intros chunk buff sock cs; destruct chunk as [|x chunk];
    cbn [chunks_from send_chunks]; try discriminate.
  - intros [= <- <-] _ _. cbn [map]. now rewrite wrote_nil.
  - intros [= <- <-] _ _. cbn [map]. now rewrite wrote_nil.
  - destruct (read buff n) as [chunk' buff1].
    destruct (chunks_from Src read fuel n chunk' buff1) as [[cs' b]|] eqn:C;
      [|discriminate].
    intros [= <- <-] F T. inversion F as [|c l Hc Hcs]; subst.
    rewrite struct_pack_L_be32 by lia.
    rewrite <- nat_N_Z, N2Z.id.
    change (be32 (N.of_nat (length (x :: chunk))) ++ x :: chunk)
      with (chunk_frame (x :: chunk)).
    cbn [map concat] in T. rewrite length_app in T.
    rewrite sendall_takes by (eapply takes_le; [|exact T]; lia).
    rewrite (IH _ _ _ _ C Hcs).
    + now rewrite wrote_wrote.
    + apply wrote_takes. cbn [concat]. now rewrite app_nil_r.
Qed.

Lemma instream_frame (self : Clamd) (sock : socket) :
  _send self (py "INSTREAM") [] sock =
  sendall (terminator_letter (line_terminator self)
             :: pyb "INSTREAM" ++ [_endline self]) sock.
Proof.
  rewrite _send_unfold. unfold _endline.
  now destruct (line_terminator self).
Qed.

Lemma chunk_size_positive (self : Clamd) (arg : option Z) (m : Z) :
  (0 < m)%Z ->
  arg = Some m \/ (arg = None /\ max_chunk_size self = m) ->
  chunk_size self arg = m.
Proof.
  intros Hm [-> | [-> H]]; cbn [chunk_size]; [|exact H].
  destruct (Z.eqb_spec m 0); [lia | reflexivity].
Qed.

Lemma instream_upload_written (fuel : nat) (self : Clamd) (buff : Src)
    (arg : option Z) (sock : socket) (chunks : list bytes) (buff' : Src) :
  read_chunks Src read fuel (chunk_size self arg) buff = Some (chunks, buff') ->
  Forall (fun c => N.of_nat (length c) < 4294967296) chunks ->
  takes (length (concat
                   ((terminator_letter (line_terminator self)
                       :: pyb "INSTREAM" ++ [_endline self])
                    :: map chunk_frame chunks ++ [[0; 0; 0; 0]]))) sock ->
  instream_upload Src read fuel self buff arg sock =
  Some (Ok tt,
        wrote ((terminator_letter (line_terminator self)
                  :: pyb "INSTREAM" ++ [_endline self])
               :: map chunk_frame chunks ++ [[0; 0; 0; 0]]) sock,
        buff').
Proof.
  unfold read_chunks, instream_upload. rewrite instream_frame.
  destruct (read buff (chunk_size self arg)) as [chunk buff1].
  intros C F T. cbn [concat] in T. rewrite length_app, concat_app, length_app in T.
  rewrite sendall_takes by (eapply takes_le; [|exact T]; lia).
  rewrite (send_chunks_written _ _ _ _ _ _ _ C F)
    by (apply wrote_takes; eapply takes_le; [|exact T]; cbn [concat];
        rewrite app_nil_r; lia).
  cbn [struct_pack_L Z.leb Z.compare andb Z.to_N N.div N.modulo].
  rewrite sendall_takes.
  - rewrite !wrote_wrote. reflexivity.
  - rewrite wrote_wrote. apply wrote_takes. eapply takes_le; [|exact T].
    cbn [app concat length]. rewrite !length_app. cbn [length]. lia.
Qed.

Lemma _recv_keeps_output (self : Clamd) (multiline : bool) (sock sock' : socket)
    (r : Res str) :
  _recv self multiline sock = (r, sock') ->
  output sock' = output sock /\ closed sock' = closed sock /\
  write_limit sock' = write_limit sock.
Proof.
  unfold _recv. destruct (if closed sock then _ else _); [now intros [= <- <-]|].
  destruct (if multiline then _ else _) as [data rest].
  destruct (utf8_decode data); now intros [= <- <-].
Qed.

Lemma instream_reply_output (self : Clamd) (raw : bool) (sock : socket) :
  output (snd (instream_reply self raw sock)) = output sock /\
  closed (snd (instream_reply self raw sock)) = closed sock.
Proof.
  unfold instream_reply, bindM.
  destruct (_recv self true sock) as [[result|e] sock1] eqn:R;
    destruct (_recv_keeps_output _ _ _ _ _ R) as (Ho & Hc & _);
    [|now split].
  destruct (contains _ _); [now split|].
  destruct raw; [now split|].
  now destruct (ScanResult._from_str _ _ _).
Qed.

End Upload.

Section Instream_properties.

Variable Src : Type.
Variable read : Src -> Z -> bytes * Src.

Lemma instream_written (fuel : nat) (self : Clamd) (sock : socket) (buff : Src)
    (raw : bool) (arg : option Z) (chunks : list bytes) (buff' : Src) :
  read_chunks Src read fuel (chunk_size self arg) buff = Some (chunks, buff') ->
  Forall (fun c => N.of_nat (length c) < 4294967296) chunks ->
  takes (length (concat
                   ((terminator_letter (line_terminator self)
                       :: pyb "INSTREAM" ++ [_endline self])
                    :: map chunk_frame chunks ++ [[0; 0; 0; 0]]))) sock ->
  exists r sock',
    instream Src read fuel self (Connected sock) buff raw arg =
      Some ((r, Some sock'), buff') /\
    output sock' =
      output sock ++
        (terminator_letter (line_terminator self)
           :: pyb "INSTREAM" ++ [_endline self])
        :: map chunk_frame chunks ++ [[0; 0; 0; 0]] /\
    closed sock' = true.
Proof.
  intros C F T. unfold instream. cbn [_acquire_socket].
  rewrite (instream_upload_written Src read _ _ _ _ sock _ _ C F T).
  match goal with
  | |- context [instream_reply self raw ?s] =>
      destruct (instream_reply_output self raw s) as [Ho _];
      destruct (instream_reply self raw s) as [r sock2]
  end.
  exists r, (close sock2). repeat split. exact Ho.
Qed.

(** C8 (as amended): after the [INSTREAM] frame, [instream] writes the
    chunks obtained by reading up to the maximum chunk size from the
    source until it is exhausted, each after its length as four octets,
    most significant first, and then four zero octets, provided every
    chunk is shorter than 2^32 octets and the connection takes all these
    octets, so that no write fails. *)
Theorem upload_chunks (fuel : nat) (self : Clamd) (sock : socket) (buff : Src)
    (raw : bool) (arg : option Z) (m : Z) (chunks : list bytes) (buff' : Src) :
  (0 < m)%Z ->
  arg = Some m \/ (arg = None /\ max_chunk_size self = m) ->
  read_chunks Src read fuel m buff = Some (chunks, buff') ->
  Forall (fun c => N.of_nat (length c) < 4294967296) chunks ->
  takes (length (concat
                   ((terminator_letter (line_terminator self)
                       :: pyb "INSTREAM" ++ [_endline self])
                    :: map chunk_frame chunks ++ [[0; 0; 0; 0]]))) sock ->
  exists r sock',
    instream Src read fuel self (Connected sock) buff raw arg =
      Some ((r, Some sock'), buff') /\
    output sock' =
      output sock ++
        (terminator_letter (line_terminator self)
           :: pyb "INSTREAM" ++ [_endline self])
        :: map chunk_frame chunks ++ [[0; 0; 0; 0]] /\
    closed sock' = true.
Proof.
  intros Hm Harg C F T. apply instream_written; [|exact F|exact T].
  now rewrite (chunk_size_positive self arg m Hm Harg).
Qed.

(** A chunk of 2^32 octets or more cannot be framed: the call ends with
    [struct.error] and nothing but the [INSTREAM] frame is written. *)
Lemma instream_chunk_too_long (fuel : nat) (self : Clamd) (sock : socket)
    (buff : Src) (raw : bool) (arg : option Z) (chunk : bytes) (buff1 : Src) :
  read buff (chunk_size self arg) = (chunk, buff1) ->
  (4294967296 <= Z.of_nat (length chunk))%Z ->
  takes 10 sock ->
  instream Src read (S fuel) self (Connected sock) buff raw arg =
  Some ((Raise struct_error,
         Some (close (wrote [terminator_letter (line_terminator self)
                               :: pyb "INSTREAM" ++ [_endline self]] sock))),
        buff1).
Proof.
  intros R L T. unfold instream, instream_upload. cbn [_acquire_socket].
  rewrite instream_frame, sendall_takes by exact T. rewrite R.
  destruct chunk as [|x chunk]; [simpl in L; lia|].
  cbn [send_chunks]. now rewrite (struct_pack_L_too_long _ L).
Qed.

(** C9: when the reply of a streamed upload contains
    [INSTREAM size limit exceeded], [instream] raises
    [BufferTooLongError], whatever [raw] is, with the stripped text
    before the right-most [ERROR] of the reply (the stripped reply, if
    it has no [ERROR]); the reply [INSTREAM size limit exceeded ERROR]
    gives the message [INSTREAM size limit exceeded]. *)
Theorem size_limit_reply (fuel : nat) (self : Clamd) (sock : socket)
    (buff : Src) (raw : bool) (arg : option Z) (sock1 sock2 : socket)
    (buff1 : Src) (reply : str) :
  instream_upload Src read fuel self buff arg sock = Some (Ok tt, sock1, buff1) ->
  _recv self true sock1 = (Ok reply, sock2) ->
  contains (py "INSTREAM size limit exceeded") reply = true ->
  exists msg,
    instream Src read fuel self (Connected sock) buff raw arg =
      Some ((Raise (BufferTooLongError msg), Some (close sock2)), buff1) /\
    response_error_fields (BufferTooLongError msg) = Some (py "INSTREAM", msg) /\
    (forall a b, last_occurrence (py "ERROR") reply a b -> msg = strip a) /\
    ((forall a b, reply <> a ++ py "ERROR" ++ b) -> msg = strip reply) /\
    (reply = py "INSTREAM size limit exceeded ERROR" ->
     msg = py "INSTREAM size limit exceeded").
Proof.
  intros U R C.
  exists (strip (nth 0 (rsplit1 (py "ERROR") reply) [])). split; [|split].
  - unfold instream. cbn [_acquire_socket]. rewrite U.
    unfold instream_reply, bindM. rewrite R, C. reflexivity.
  - reflexivity.
  - unfold rsplit1. repeat split.
    + intros a b L. now rewrite (rcut_last_occurrence _ _ _ _ ERROR_not_empty L).
    + intros N. destruct (rcut (py "ERROR") reply) as [[a b]|] eqn:E;
        [|reflexivity].
      apply rcut_Some in E as [E _]; [|exact ERROR_not_empty].
      now apply N in E.
    + now intros ->.
Qed.

End Instream_properties.

Lemma BytesIO_read_nonneg (data : bytes) (m : Z) :
  (0 <= m)%Z ->
  BytesIO_read data m = (firstn (Z.to_nat m) data, skipn (Z.to_nat m) data).
Proof.
  intros H. unfold BytesIO_read. destruct (Z.ltb_spec m 0); [lia | reflexivity].
Qed.

(** Reading from a [BytesIO] ends: the chunks are the content of the
    buffer cut every [m] octets. *)
Lemma BytesIO_chunks_from (m : Z) (fuel : nat) (chunk data : bytes) :
  (0 < m)%Z ->
  (Z.of_nat (length chunk) <= m)%Z ->
  (chunk = [] -> data = []) ->
  (length chunk + length data <= fuel)%nat ->
  exists cs,
    chunks_from bytes BytesIO_read fuel m chunk data = Some (cs, []) /\
    concat cs = chunk ++ data /\
    Forall (fun c => c <> [] /\ (Z.of_nat (length c) <= m)%Z) cs.
Proof.
  intros Hm. revert chunk data.
  induction fuel as [|fuel IH]; intros chunk data Hc Hnil Hfuel;
    destruct chunk as [|x chunk]; cbn [chunks_from].
  - rewrite (Hnil eq_refl). now exists [].
  - simpl in Hfuel. lia.
  - rewrite (Hnil eq_refl). now exists [].
  - rewrite BytesIO_read_nonneg by lia.
    destruct (IH (firstn (Z.to_nat m) data) (skipn (Z.to_nat m) data))
      as (cs & -> & Hcat & F).
    + rewrite length_firstn. lia.
    + intros E. destruct data as [|y data]; [now rewrite skipn_nil|].
      destruct (Z.to_nat m) eqn:K; [lia | discriminate].
    + rewrite length_firstn, length_skipn. simpl in Hfuel. lia.
    + exists ((x :: chunk) :: cs). repeat split.
      * cbn [concat]. now rewrite Hcat, firstn_skipn.
      * constructor; [split; [discriminate | exact Hc] | exact F].
Qed.

Lemma BytesIO_read_chunks (m : Z) (data : bytes) :
  (0 < m)%Z ->
  exists cs,
    read_chunks bytes BytesIO_read (length data) m data = Some (cs, []) /\
    concat cs = data /\
    Forall (fun c => c <> [] /\ (Z.of_nat (length c) <= m)%Z) cs.
Proof.
  intros Hm. unfold read_chunks. rewrite BytesIO_read_nonneg by lia.
  destruct (BytesIO_chunks_from m (length data)
              (firstn (Z.to_nat m) data) (skipn (Z.to_nat m) data) Hm)
    as (cs & E & Hcat & F).
  - rewrite length_firstn. lia.
  - intros E. destruct data as [|y data]; [now rewrite skipn_nil|].
    destruct (Z.to_nat m) eqn:K; [lia | discriminate].
  - rewrite length_firstn, length_skipn. lia.
  - exists cs. repeat split; [exact E | | exact F].
    now rewrite Hcat, firstn_skipn.
Qed.

(** The upload of a [BytesIO] with a chunk size below 2^32 always goes
    through. *)
Corollary instream_BytesIO (self : Clamd) (sock : socket) (data : bytes)
    (raw : bool) (arg : option Z) (m : Z) :
  (0 < m < 4294967296)%Z ->
  arg = Some m \/ (arg = None /\ max_chunk_size self = m) ->
  closed sock = false -> write_limit sock = None ->
  exists chunks r sock',
    concat chunks = data /\
    Forall (fun c => c <> [] /\ (Z.of_nat (length c) <= m)%Z) chunks /\
    instream bytes BytesIO_read (length data) self (Connected sock) data raw arg =
      Some ((r, Some sock'), []) /\
    output sock' =
      output sock ++
        (terminator_letter (line_terminator self)
           :: pyb "INSTREAM" ++ [_endline self])
        :: map chunk_frame chunks ++ [[0; 0; 0; 0]].
Proof.
  intros Hm Harg Hc Hw.
  destruct (BytesIO_read_chunks m data) as (cs & C & Hcat & F); [lia|].
  rewrite <- (chunk_size_positive self arg m) in C by (lia || assumption).
  destruct (instream_written bytes BytesIO_read (length data) self sock data
              raw arg cs [] C) as (r & sock' & I & O & _).
  - apply Forall_forall. intros c Hin. rewrite Forall_forall in F.
    destruct (F c Hin) as [_ Hlen]. lia.
  - split; [exact Hc | now rewrite Hw].
  - exists cs, r, sock'. repeat split; assumption.
Qed.

Lemma upload_chunks_witness :
  exists r sock',
    instream bytes BytesIO_read 3 ClamdNetworkSocket
      (Connected (fresh_socket (pyb "stream: OK"))) [1; 2; 3; 4; 5] false (Some 2%Z) =
      Some ((r, Some sock'), []) /\
    output sock' =
      [] ++ (terminator_letter LT_n :: pyb "INSTREAM" ++ [10])
         :: map chunk_frame [[1; 2]; [3; 4]; [5]] ++ [[0; 0; 0; 0]] /\
    closed sock' = true.
Proof.
  apply (upload_chunks bytes BytesIO_read 3 ClamdNetworkSocket
           (fresh_socket (pyb "stream: OK")) [1; 2; 3; 4; 5] false (Some 2%Z) 2%Z
           [[1; 2]; [3; 4]; [5]] []).
  - reflexivity.
  - now left.
  - reflexivity.
  - repeat constructor.
  - split; [reflexivity | exact I].
Defined.

(** C8 (as stated) fails: with a maximum chunk size of 2^32 and a source
    of 2^32 octets, the chunk that is read has no 4-octet length; the call
    raises [struct.error] and writes neither the chunk nor the final zero
    length. *)
Lemma upload_chunk_of_4GiB :
  instream bytes BytesIO_read 1 ClamdNetworkSocket (Connected (fresh_socket []))
    (repeat 0 (Z.to_nat 4294967296)) true (Some 4294967296%Z) =
  Some ((Raise struct_error,
         Some (mk_socket [] None [pyb "nINSTREAM" ++ [10]] None true)), []).
Proof.
  assert (K : Z.of_nat (Z.to_nat 4294967296) = 4294967296%Z)
    by (apply Z2Nat.id; lia).
  generalize dependent (Z.to_nat 4294967296). intros k K.
  apply (instream_chunk_too_long bytes BytesIO_read 0 ClamdNetworkSocket
           (fresh_socket []) (repeat 0 k) true (Some 4294967296%Z) (repeat 0 k) []).
  - cbn [chunk_size Z.eqb]. rewrite BytesIO_read_nonneg by lia.
    rewrite <- K, Nat2Z.id.
    rewrite <- (repeat_length 0 k) at 1 3.
    now rewrite firstn_all, skipn_all.
  - rewrite repeat_length. lia.
  - split; [reflexivity | exact I].
Qed.

Lemma size_limit_reply_witness :
  exists msg,
    instream bytes BytesIO_read 3 ClamdNetworkSocket
      (Connected (fresh_socket (pyb "INSTREAM size limit exceeded ERROR" ++ [10])))
      [1; 2; 3] false None =
      Some ((Raise (BufferTooLongError msg),
             Some (close (mk_socket [] None
                            [pyb "nINSTREAM" ++ [10]; [0; 0; 0; 3; 1; 2; 3]; [0; 0; 0; 0]]
                            None false))), []) /\
    msg = py "INSTREAM size limit exceeded".
Proof.
  destruct (size_limit_reply bytes BytesIO_read 3 ClamdNetworkSocket
              (fresh_socket (pyb "INSTREAM size limit exceeded ERROR" ++ [10]))
              [1; 2; 3] false None
              (mk_socket (pyb "INSTREAM size limit exceeded ERROR" ++ [10]) None
                 [pyb "nINSTREAM" ++ [10]; [0; 0; 0; 3; 1; 2; 3]; [0; 0; 0; 0]] None false)
              (mk_socket [] None
                 [pyb "nINSTREAM" ++ [10]; [0; 0; 0; 3; 1; 2; 3]; [0; 0; 0; 0]] None false)
              [] (py "INSTREAM size limit exceeded ERROR"))
    as (msg & I & _ & _ & _ & M).
  - reflexivity.
  - reflexivity.
  - reflexivity.
  - exists msg. split; [exact I | exact (M eq_refl)].
Defined.

(** ** The cases of [tests/test_sockets.py] *)

Example test_unknown_command :
  fst (_command ClamdUnixSocket (Connected (fresh_socket (pyb "UNKNOWN COMMAND")))
         (py "UNKNOWN") [] true true) =
  Raise (UnknownCommand (py "UNKNOWN")).
Proof. reflexivity. Qed.

Example test_command_read_timed_out :
  fst (_command ClamdUnixSocket
         (Connected (fresh_socket (pyb "COMMAND READ TIMED OUT")))
         (py "DUMMY") [] true true) =
  Raise (CommandReadTimedOut (py "DUMMY")).
Proof. reflexivity. Qed.

Example test_response_error :
  fst (_command ClamdUnixSocket (Connected (fresh_socket (pyb "Reason ERROR")))
         (py "DUMMY") [] true true) =
  Raise (ResponseError (py "DUMMY") (py "Reason")).
Proof. reflexivity. Qed.

Example test_response_error_no_exc :
  fst (_command ClamdUnixSocket (Connected (fresh_socket (pyb "Reason ERROR")))
         (py "DUMMY") [] true false) =
  Ok (py "Reason ERROR").
Proof. reflexivity. Qed.

Example test_pong :
  fst (ping ClamdUnixSocket (Connected (fresh_socket (pyb "PONG")))) = Ok (py "PONG").
Proof. reflexivity. Qed.

Example test_reload :
  fst (reload ClamdUnixSocket (Connected (fresh_socket (pyb "RELOADING")))) =
  Ok (py "RELOADING").
Proof. reflexivity. Qed.

Example test_shutdown :
  fst (shutdown ClamdUnixSocket (Connected (fresh_socket []))) = Ok tt.
Proof. reflexivity. Qed.

Example test_version :
  fst (version ClamdUnixSocket
         (Connected (fresh_socket (pyb "ClamAV 0.103.9/27065/Wed Oct 18 09:49:14 2023")))
         true) =
    Ok (inl (py "ClamAV 0.103.9/27065/Wed Oct 18 09:49:14 2023")) /\
  fst (version ClamdUnixSocket
         (Connected (fresh_socket (pyb "ClamAV 0.103.9/27065/Wed Oct 18 09:49:14 2023")))
         false) =
    Ok (inr (VersionInfo.mk (py "ClamAV 0.103.9") 27065
               (mk_datetime 2023 10 18 9 49 14))).
Proof. split; vm_compute; reflexivity. Qed.

Example test_scan :
  fst (scan (fun p => p) ClamdUnixSocket
         (Connected
            (fresh_socket
               (pyb "/path/to/file: OK" ++ [10]
                  ++ pyb "/path/to/file2: Virus desc FOUND" ++ [10]
                  ++ pyb "/path/to/file3: File path check failure: No such file or directory. ERROR")))
         (py "dummy") false) =
  Ok (inr [ScanResult.mk (ScanResult.Path (py "/path/to/file")) None ScanResult.OK;
           ScanResult.mk (ScanResult.Path (py "/path/to/file2"))
             (Some (py "Virus desc")) ScanResult.FOUND;
           ScanResult.mk (ScanResult.Path (py "/path/to/file3"))
             (Some (py "File path check failure: No such file or directory."))
             ScanResult.ERROR]).
Proof. vm_compute. reflexivity. Qed.

(** The test marked [xfail]: the line is not parsed. *)
Example test_scan_colon_in_path :
  fst (scan (fun p => p) ClamdUnixSocket
         (Connected
            (fresh_socket
               (pyb "/path/to/file_with:/path: File path check failure: No such file or directory. ERROR")))
         (py "dummy") false) =
  Raise (ResponseError (py "SCAN")
           (py "Unable to match string: /path/to/file_with:/path: File path check failure: No such file or directory. ERROR")).
Proof. vm_compute. reflexivity. Qed.

Example test_instream :
  option_map (fun o => fst (fst o))
    (instream bytes BytesIO_read 0 ClamdUnixSocket
       (Connected (fresh_socket (pyb "stream: OK"))) [] true None) =
    Some (Ok (inl (py "stream: OK"))) /\
  option_map (fun o => fst (fst o))
    (instream bytes BytesIO_read 0 ClamdUnixSocket
       (Connected (fresh_socket (pyb "stream: OK"))) [] false None) =
    Some (Ok (inr (ScanResult.mk ScanResult.stream None ScanResult.OK))).
Proof. split; vm_compute; reflexivity. Qed.

Example test_instream_size_limit :
  option_map (fun o => fst (fst o))
    (instream bytes BytesIO_read 0 ClamdUnixSocket
       (Connected (fresh_socket (pyb "INSTREAM size limit exceeded ERROR")))
       [] false None) =
  Some (Raise (BufferTooLongError (py "INSTREAM size limit exceeded"))).
Proof. vm_compute. reflexivity. Qed.

(** * Further properties of the client *)

(** ** Connecting, reading and closing *)

Lemma connection_error_fields (what : str) (e : OSError) :
  connection_error what e = ConnectionError (what ++ py ": " ++ os_text e) (os_errno e).
Proof. now destruct e. Qed.

(** X1: when [settimeout] or [connect] raises an [OSError], every
    operation raises [ConnectionError] with the message
    [Error while connecting to], the address ([host:port] or the socket
    path), a colon and the text of the [OSError], and with the error
    number when the [OSError] has one; an exception of another class,
    raised for an argument the library does not take, leaves the
    operation as it is.  In both cases no socket is left, and [instream]
    has not read its source. *)
Theorem connect_failure (absolute : str -> str) (self : Clamd) (x : exn)
    (req : request) (Src : Type) (read : Src -> Z -> bytes * Src) (fuel : nat)
    (buff : Src) (raw : bool) (arg : option Z) :
  let err :=
    match x with
    | OSError_exn e =>
        ConnectionError
          (py "Error while connecting to " ++ address_str (addr self)
             ++ py ": " ++ os_text e)
          (os_errno e)
    | _ => x
    end in
  call absolute self (Raised x) req = (Raise err, None) /\
  shutdown self (Raised x) = (Raise err, None) /\
  instream Src read fuel self (Raised x) buff raw arg = Some ((Raise err, None), buff).
Proof.
  cbv zeta.
  assert (E : _acquire_socket self (Raised x) =
              Raise match x with
                    | OSError_exn e =>
                        ConnectionError
                          (py "Error while connecting to " ++ address_str (addr self)
                             ++ py ": " ++ os_text e)
                          (os_errno e)
                    | _ => x
                    end).
  { destruct x; cbn [_acquire_socket]; try reflexivity.
    rewrite connection_error_fields. now rewrite <- app_assoc. }
  repeat split.
  - destruct req; unfold call, map_outcome, ping, reload, version, stats, scan,
      contscan, multiscan, _any_scan, _command; rewrite E; reflexivity.
  - unfold shutdown. now rewrite E.
  - unfold instream. now rewrite E.
Qed.

(** A refused connection, and a port that [connect] does not take. *)
Example connect_refused_and_port_out_of_range :
  ping ClamdNetworkSocket (Raised (OSError_exn (OSError2 111 (py "Connection refused")))) =
    (Raise (ConnectionError
              (py "Error while connecting to 127.0.0.1:3310: Connection refused")
              (Some 111%Z)), None) /\
  ping (mk_Clamd (AF_INET (py "127.0.0.1") 70000) 1024 LT_n) (Raised OverflowError) =
    (Raise OverflowError, None).
Proof. split; reflexivity. Qed.

Lemma _recv_read_error (self : Clamd) (multiline : bool) (sock : socket)
    (e : OSError) :
  closed sock = false ->
  read_error sock = Some e ->
  _recv self multiline sock =
  (Raise (ConnectionError (py "Error while reading from socket: " ++ os_text e)
            (os_errno e)), sock).
Proof.
  intros Hc H. unfold _recv. rewrite Hc, H, connection_error_fields. reflexivity.
Qed.

(** What [sendall] does to a socket: the octets it wrote are those it was
    given, or the first of them when it raises. *)
Lemma sendall_cases (data : bytes) (s s' : socket) (r : Res unit) :
  sendall data s = (r, s') ->
  read_error s' = read_error s /\ incoming s' = incoming s /\
  closed s' = closed s /\
  ((r = Ok tt /\ closed s = false /\ sent s' = sent s ++ data) \/
   (exists e part rest,
      r = Raise (OSError_exn e) /\ data = part ++ rest /\
      (data <> [] -> rest <> []) /\ sent s' = sent s ++ part)).
Proof.
  unfold sendall, sent. destruct (closed s) eqn:Hc.
  { intros [= <- <-]. repeat split; try assumption.
    right. exists EBADF, [], data. now rewrite app_nil_r. }
  destruct (write_limit s) as [[k e]|].
  - destruct (Nat.leb_spec (length data) k) as [Hk|Hk]; intros [= <- <-];
      cbn [read_error incoming closed output]; repeat split; try assumption.
    + left. now rewrite concat_app; cbn [concat]; rewrite app_nil_r.
    + right. exists e, (firstn k data), (skipn k data).
      rewrite firstn_skipn, concat_app. cbn [concat]. rewrite app_nil_r.
      repeat split. intros _ E. apply (f_equal (@length N)) in E.
      rewrite length_skipn in E. cbn [length] in E. lia.
  - intros [= <- <-]; cbn [read_error incoming closed output];
      repeat split; try assumption.
    left. now rewrite concat_app; cbn [concat]; rewrite app_nil_r.
Qed.

Lemma _send_keeps_read_error (self : Clamd) (command : str) (args : list str)
    (sock sock1 : socket) (r : Res unit) :
  _send self command args sock = (r, sock1) ->
  read_error sock1 = read_error sock /\ incoming sock1 = incoming sock /\
  closed sock1 = closed sock.
Proof.
  rewrite _send_unfold. destruct (utf8_encode _).
  - intros H. apply sendall_cases in H. tauto.
  - intros [= <- <-]. now repeat split.
Qed.

(** A frame is only written on an open socket. *)
Lemma _send_open (self : Clamd) (command : str) (args : list str)
    (sock sock1 : socket) :
  _send self command args sock = (Ok tt, sock1) -> closed sock1 = false.
Proof.
  intros H. destruct (_send_keeps_read_error _ _ _ _ _ _ H) as (_ & _ & ->).
  revert H. rewrite _send_unfold. destruct (utf8_encode _); [|discriminate].
  intros H. apply sendall_cases in H.
  destruct H as (_ & _ & _ & [(_ & Hc & _) | (e & part & rest & E & _)]);
    [exact Hc | discriminate].
Qed.

(** X2: when reading the reply fails with an [OSError], an operation that
    goes through [_command] raises [ConnectionError] with the message
    [Error while reading from socket: ] and the text of the [OSError] (and
    its error number, if any), after the frame has been written; the
    socket is closed. *)
Theorem read_failure (absolute : str -> str) (self : Clamd) (req : request)
    (sock sock1 : socket) (e : OSError) :
  _send self (verb req) (arguments absolute req) sock = (Ok tt, sock1) ->
  read_error sock = Some e ->
  call absolute self (Connected sock) req =
  (Raise (ConnectionError (py "Error while reading from socket: " ++ os_text e)
            (os_errno e)),
   Some (close sock1)).
Proof.
  intros Hs He.
  destruct (_send_keeps_read_error _ _ _ _ _ _ Hs) as (Hre & _ & _).
  rewrite He in Hre.
  assert (C : forall roe,
             _command self (Connected sock) (verb req) (arguments absolute req)
               true roe =
             (Raise (ConnectionError
                       (py "Error while reading from socket: " ++ os_text e)
                       (os_errno e)),
              Some (close sock1))).
  { intros roe. unfold _command, with_socket, bindM. cbn [_acquire_socket].
    now rewrite Hs, (_recv_read_error _ _ _ _ (_send_open _ _ _ _ _ Hs) Hre). }
  destruct req; unfold call, map_outcome, ping, reload, version, stats, scan,
    contscan, multiscan, _any_scan; cbn [verb arguments] in C; rewrite C;
    reflexivity.
Qed.

Lemma read_failure_witness :
  call (fun p => p) ClamdNetworkSocket
    (Connected (mk_socket [] (Some (OSError2 104 (py "Connection reset by peer")))
                  [] None false))
    Ping =
  (Raise (ConnectionError
            (py "Error while reading from socket: Connection reset by peer")
            (Some 104%Z)),
   Some (mk_socket [] (Some (OSError2 104 (py "Connection reset by peer")))
           [pyb "nPING" ++ [10]] None true)).
Proof.
  apply (read_failure (fun p => p) ClamdNetworkSocket Ping
           (mk_socket [] (Some (OSError2 104 (py "Connection reset by peer"))) [] None false)
           (mk_socket [] (Some (OSError2 104 (py "Connection reset by peer")))
              [pyb "nPING" ++ [10]] None false)
           (OSError2 104 (py "Connection reset by peer"))); reflexivity.
Defined.

(** What [_command] leaves on the socket: it is closed, and what was
    written on it is the frame, or the first octets of the frame when
    writing failed. *)
Lemma _command_socket (self : Clamd) (sock : socket) (command : str)
    (args : list str) (multiline raise_on_error : bool) :
  exists r s part,
    _command self (Connected sock) command args multiline raise_on_error =
      (r, Some s) /\
    closed s = true /\
    sent s = sent sock ++ part /\
    (frame_of self command args = Some part \/
     (exists e data rest,
        r = Raise (OSError_exn e) /\ frame_of self command args = Some data /\
        data = part ++ rest /\ rest <> [] /\ incoming s = incoming sock) \/
     (r = Raise UnicodeEncodeError /\ frame_of self command args = None /\
      part = [])).
Proof.
  unfold _command, with_socket, bindM, frame_of. cbn [_acquire_socket].
  rewrite _send_unfold.
  destruct (utf8_encode _) as [data|] eqn:E.
  - destruct (sendall data sock) as [[[]|e] sock1] eqn:S;
      apply sendall_cases in S;
      destruct S as (_ & Hi & _ & [(Hr & _ & Hs) | (e' & part & rest & Hr & Hd & Hne & Hs)]);
      try discriminate.
    + destruct (_recv self multiline sock1) as [[reply|e] sock2] eqn:R;
        destruct (_recv_keeps_output _ _ _ _ _ R) as (Ho & _);
        assert (Hs2 : sent (close sock2) = sent sock ++ data)
          by (unfold sent in *; cbn [close output]; now rewrite Ho).
      * destruct (str_eqb reply UNKNOWN_COMMAND);
          [eexists _, _, data; repeat split; [exact Hs2 | now left]|].
        destruct (str_eqb reply COMMAND_READ_TIMED_OUT);
          [eexists _, _, data; repeat split; [exact Hs2 | now left]|].
        destruct raise_on_error;
          [|eexists _, _, data; repeat split; [exact Hs2 | now left]].
        destruct (1 <? length _)%nat;
          eexists _, _, data; repeat split; solve [exact Hs2 | now left].
      * eexists _, _, data; repeat split; [exact Hs2 | now left].
    + injection Hr as ->. eexists _, _, part. repeat split.
      * exact Hs.
      * right. left. exists e', data, rest. repeat split; try assumption.
        apply Hne. intros ->. revert E.
        change (terminator_letter (line_terminator self)
                  :: command_text command args ++ [_endline self])
          with ([terminator_letter (line_terminator self)]
                  ++ command_text command args ++ [_endline self]).
        rewrite utf8_encode_app, terminator_letter_ascii.
        destruct (utf8_encode (command_text command args ++ [_endline self]));
          discriminate.
  - eexists _, _, []. repeat split.
    + unfold sent. cbn [close output]. now rewrite app_nil_r.
    + right. right. now repeat split.
Qed.

(** X3: whatever an operation that goes through [_command] returns or
    raises on a connected socket, the socket is closed when the call ends,
    and no more than the frame of the command has been written on it: the
    whole frame, or its first octets when writing fails, in which case the
    [OSError] of [sendall] leaves the operation as it is, not as an
    exception of the package, and the answer of the daemon is not read;
    nothing is written when the frame has no UTF-8 encoding. *)
Theorem socket_released (absolute : str -> str) (self : Clamd) (sock : socket)
    (req : request) :
  exists r s part,
    call absolute self (Connected sock) req = (r, Some s) /\
    closed s = true /\
    sent s = sent sock ++ part /\
    (frame_of self (verb req) (arguments absolute req) = Some part \/
     (exists e data rest,
        r = Raise (OSError_exn e) /\
        frame_of self (verb req) (arguments absolute req) = Some data /\
        data = part ++ rest /\ rest <> [] /\ incoming s = incoming sock) \/
     (r = Raise UnicodeEncodeError /\
      frame_of self (verb req) (arguments absolute req) = None /\ part = [])).
Proof.
  assert (C : forall roe,
             exists r s part,
               _command self (Connected sock) (verb req) (arguments absolute req)
                 true roe = (r, Some s) /\
               closed s = true /\
               sent s = sent sock ++ part /\
               (frame_of self (verb req) (arguments absolute req) = Some part \/
                (exists e data rest,
                   r = Raise (OSError_exn e) /\
                   frame_of self (verb req) (arguments absolute req) = Some data /\
                   data = part ++ rest /\ rest <> [] /\ incoming s = incoming sock) \/
                (r = Raise UnicodeEncodeError /\
                 frame_of self (verb req) (arguments absolute req) = None /\
                 part = [])))
    by (intros roe; apply _command_socket).
  destruct req; unfold call, map_outcome, ping, reload, version, stats, scan,
    contscan, multiscan, _any_scan; cbn [verb arguments] in C |- *;
    match goal with
    | |- context [_command self (Connected sock) ?c ?a true ?roe] =>
        destruct (C roe) as (r & s & part & E & Hc & Ho & H); rewrite E
    end; cbn [fst snd];
    (destruct H as [H | [(e & data & rest & -> & H) | (-> & H)]];
     eexists _, s, part; repeat split; try assumption;
     [now left | right; left; exists e, data, rest; now split
      | right; right; now split]).
Qed.

(** A connection that breaks after three octets of the frame of [PING]. *)
Example ping_on_a_broken_pipe :
  call (fun p => p) ClamdNetworkSocket
    (Connected (mk_socket (pyb "PONG") None []
                  (Some (3%nat, OSError2 32 (py "Broken pipe"))) false))
    Ping =
  (Raise (OSError_exn (OSError2 32 (py "Broken pipe"))),
   Some (mk_socket (pyb "PONG") None [pyb "nPI"]
           (Some (0%nat, OSError2 32 (py "Broken pipe"))) true)).
Proof. reflexivity. Qed.

(** X4: on a connection that takes the frame, [shutdown] writes the
    [SHUTDOWN] frame, reads nothing of what the daemon sends, returns
    [None] and closes the socket, whether or not reading would fail; on
    another, it raises the [OSError] of [sendall] as it is, with the socket
    closed, after the first octets of the frame at most. *)
Theorem shutdown_sends_and_leaves (self : Clamd) (sock : socket) :
  let frame :=
    terminator_letter (line_terminator self) :: pyb "SHUTDOWN" ++ [_endline self] in
  (takes (length frame) sock ->
   shutdown self (Connected sock) =
   (Ok tt, Some (close (wrote [frame] sock)))) /\
  (~ takes (length frame) sock ->
   exists e s part rest,
     shutdown self (Connected sock) = (Raise (OSError_exn e), Some s) /\
     closed s = true /\ incoming s = incoming sock /\
     frame = part ++ rest /\ rest <> [] /\ sent s = sent sock ++ part).
Proof.
  intros frame.
  assert (E : _send self (py "SHUTDOWN") [] sock = sendall frame sock).
  { rewrite _send_unfold. unfold frame, _endline.
    now destruct (line_terminator self). }
  unfold shutdown, with_socket. cbn [_acquire_socket]. rewrite E. split.
  - intros T. now rewrite sendall_takes.
  - intros T. destruct (sendall frame sock) as [r s] eqn:S.
    pose proof S as S'. apply sendall_cases in S'.
    destruct S' as (_ & Hi & _ & [(-> & Hc & _) | (e & part & rest & -> & Hd & Hne & Hs)]).
    + exfalso. apply T. split; [exact Hc|].
      revert S. unfold sendall. rewrite Hc.
      destruct (write_limit sock) as [[k e]|]; [|easy].
      destruct (Nat.leb_spec (length frame) k); [easy | discriminate].
    + exists e, (close s), part, rest. repeat split; try assumption.
      now apply Hne.
Qed.

Lemma shutdown_sends_and_leaves_witness :
  shutdown ClamdNetworkSocket (Connected (fresh_socket (pyb "bye"))) =
  (Ok tt, Some (mk_socket (pyb "bye") None [pyb "nSHUTDOWN" ++ [10]] None true)).
Proof.
  apply (shutdown_sends_and_leaves ClamdNetworkSocket (fresh_socket (pyb "bye"))).
  split; [reflexivity | exact I].
Defined.

(** ** The replies [_command] returns *)

Lemma rcut_contains (sep s : str) :
  sep <> [] -> (rcut sep s = None <-> contains sep s = false).
Proof.
  intros Hsep. split.
  - intros R. destruct (contains sep s) eqn:C; [|reflexivity].
    apply contains_iff in C as (a & b & E). now apply (rcut_None _ _ Hsep R) in E.
  - intros C. destruct (rcut sep s) as [[a b]|] eqn:R; [|reflexivity].
    apply rcut_Some in R as [E _]; [|exact Hsep].
    assert (H : contains sep s = true) by (apply contains_iff; eauto).
    congruence.
Qed.

(** X5: with [raise_on_error] set, [_command] returns a text exactly when
    the reply is neither of the two sentinels and does not contain
    [ERROR], and the text it returns is the reply. *)
Theorem command_returns (self : Clamd) (command : str) (args : list str)
    (multiline : bool) (sock sock1 sock2 : socket) (reply r : str) :
  _send self command args sock = (Ok tt, sock1) ->
  _recv self multiline sock1 = (Ok reply, sock2) ->
  (fst (_command self (Connected sock) command args multiline true) = Ok r <->
   r = reply /\ reply <> UNKNOWN_COMMAND /\ reply <> COMMAND_READ_TIMED_OUT /\
   contains (py "ERROR") reply = false).
Proof.
  intros Hs Hr.
  destruct (str_eqb reply UNKNOWN_COMMAND) eqn:U.
  { apply str_eqb_eq in U.
    rewrite (_command_unknown _ _ _ _ _ _ _ _ Hs Hr true U).
    split; [discriminate | now intros (_ & H & _)]. }
  destruct (str_eqb reply COMMAND_READ_TIMED_OUT) eqn:T.
  { apply str_eqb_eq in T.
    rewrite (_command_timed_out _ _ _ _ _ _ _ _ Hs Hr true T).
    split; [discriminate | now intros (_ & _ & H & _)]. }
  assert (Hu : reply <> UNKNOWN_COMMAND)
    by (intros E; apply str_eqb_eq in E; congruence).
  assert (Ht : reply <> COMMAND_READ_TIMED_OUT)
    by (intros E; apply str_eqb_eq in E; congruence).
  destruct (rcut (py "ERROR") reply) as [[a b]|] eqn:R.
  - rewrite (_command_error _ _ _ _ _ _ _ _ Hs Hr Hu Ht a b R).
    split; [discriminate|]. intros (_ & _ & _ & C).
    apply (rcut_contains _ _ ERROR_not_empty) in C. congruence.
  - rewrite (_command_success _ _ _ _ _ _ _ _ Hs Hr Hu Ht R). cbn [fst].
    apply (rcut_contains _ _ ERROR_not_empty) in R.
    split; [intros [= <-]; now repeat split | now intros (-> & _)].
Qed.

Lemma command_returns_witness :
  fst (_command ClamdNetworkSocket (Connected (fresh_socket (pyb "PONG" ++ [10])))
         (py "PING") [] true true) = Ok (py "PONG").
Proof.
  apply (command_returns ClamdNetworkSocket (py "PING") [] true
           (fresh_socket (pyb "PONG" ++ [10]))
           (mk_socket (pyb "PONG" ++ [10]) None [pyb "nPING" ++ [10]] None false)
           (mk_socket [] None [pyb "nPING" ++ [10]] None false)
           (py "PONG") (py "PONG")); [reflexivity | reflexivity |].
  repeat split; discriminate.
Defined.

(** ** What [_recv] returns *)

Lemma Forall_mem_single (e : N) (l : str) :
  Forall (fun c => mem_chars [e] c = true) l -> Forall (fun c => c = e) l.
Proof.
  intros F. eapply Forall_impl; [|exact F]. intros c H.
  now apply mem_chars_single in H.
Qed.

Lemma readline_newline (l rest : bytes) :
  ~ In 10 l -> readline (l ++ 10 :: rest) = (l ++ [10], rest).
Proof.
  induction l as [|x l IH]; intros H; cbn [app readline].
  - reflexivity.
  - destruct (N.eqb_spec x 10) as [->|]; [exfalso; apply H; now left|].
    rewrite IH; [reflexivity|]. intros Hin. apply H. now right.
Qed.

Lemma readline_no_newline (l : bytes) : ~ In 10 l -> readline l = (l, []).
Proof.
  induction l as [|x l IH]; intros H; cbn [readline]; [reflexivity|].
  destruct (N.eqb_spec x 10) as [->|]; [exfalso; apply H; now left|].
  rewrite IH; [reflexivity|]. intros Hin. apply H. now right.
Qed.

Lemma readline_app (l r : bytes) :
  In 10 l -> readline (l ++ r) = (fst (readline l), snd (readline l) ++ r).
Proof.
  induction l as [|x l IH]; intros H; [destruct H|]. cbn [app readline].
  destruct (N.eqb_spec x 10) as [->|Hx]; [reflexivity|].
  destruct H as [H|H]; [now contradiction Hx|].
  rewrite (IH H). now destruct (readline l).
Qed.

Lemma DEFAULT_BUFFER_SIZE_pos : (0 < DEFAULT_BUFFER_SIZE)%nat.
Proof. unfold DEFAULT_BUFFER_SIZE. lia. Qed.

Lemma existsb_newline (l : bytes) : existsb (N.eqb 10) l = true <-> In 10 l.
Proof.
  rewrite existsb_exists. split.
  - intros (x & Hin & E). apply N.eqb_eq in E. now subst x.
  - intros H. exists 10. split; [exact H | apply N.eqb_refl].
Qed.

(** The reader takes the start of what is on the socket, up to a block
    that holds a newline or to the end of the stream, and everything when
    no more than one block is there. *)
Lemma read_ahead_spec (fuel : nat) (b taken left : bytes) :
  (length b < fuel)%nat ->
  read_ahead fuel b = (taken, left) ->
  b = taken ++ left /\ (In 10 taken \/ left = []) /\
  ((length b <= DEFAULT_BUFFER_SIZE)%nat -> left = []).
Proof.
  pose proof DEFAULT_BUFFER_SIZE_pos as Hpos.
  revert b taken left. induction fuel as [|fuel IH]; intros b taken left Hf;
    [lia|]. cbn [read_ahead].
  generalize dependent DEFAULT_BUFFER_SIZE. intros n Hpos IH.
  destruct (existsb (N.eqb 10) (firstn n b)) eqn:E.
  - intros [= <- <-]. rewrite firstn_skipn. repeat split.
    + left. now apply existsb_newline.
    + intros Hl. now apply skipn_all2.
  - destruct (skipn n b) as [|y rest] eqn:K.
    + intros [= <- <-]. repeat split; [|now right].
      rewrite <- (firstn_skipn n b) at 1. now rewrite K.
    + assert (Hl : (length (y :: rest) = length b - n)%nat)
        by (rewrite <- K; apply length_skipn).
      cbn [length] in Hl.
      destruct (read_ahead fuel (y :: rest)) as [taken' left'] eqn:R.
      intros [= <- <-].
      apply IH in R; [|cbn [length]; lia].
      destruct R as (Hb & Hnl & _). repeat split.
      * rewrite <- app_assoc. rewrite <- Hb, <- K. now rewrite firstn_skipn.
      * destruct Hnl as [Hnl|Hnl]; [left | now right].
        apply in_or_app. now right.
      * intros Hle. lia.
Qed.

Lemma makefile_readline_spec (b : bytes) :
  fst (makefile_readline b) = fst (readline b) /\
  (exists dropped, snd (readline b) = dropped ++ snd (makefile_readline b)) /\
  ((length b <= DEFAULT_BUFFER_SIZE)%nat -> snd (makefile_readline b) = []).
Proof.
  unfold makefile_readline.
  destruct (read_ahead (S (length b)) b) as [taken left] eqn:R.
  apply read_ahead_spec in R; [|lia].
  destruct R as (Hb & Hnl & Hshort). cbn [fst snd].
  destruct Hnl as [Hnl | ->].
  - rewrite Hb, (readline_app _ _ Hnl). cbn [fst snd]. repeat split.
    + now exists (snd (readline taken)).
    + intros H. apply Hshort. now rewrite Hb.
  - rewrite app_nil_r in Hb. subst taken. repeat split.
    exists (snd (readline b)). now rewrite app_nil_r.
Qed.

(** X6: the text [_recv] returns is the decoded input (all of it, or its
    first line) without the terminator characters at its two ends: it
    neither starts nor ends with the terminator character, and only
    terminator characters were removed. *)
Theorem recv_stripped (self : Clamd) (multiline : bool) (sock sock' : socket)
    (reply : str) :
  _recv self multiline sock = (Ok reply, sock') ->
  (forall t, reply <> _endline self :: t) /\
  (forall t, reply <> t ++ [_endline self]) /\
  exists l r,
    utf8_decode (if multiline then incoming sock else fst (readline (incoming sock)))
      = Some (l ++ reply ++ r) /\
    Forall (fun c => c = _endline self) l /\
    Forall (fun c => c = _endline self) r.
Proof.
  unfold _recv. destruct (if closed sock then _ else _); [discriminate|].
  assert (D : (if multiline then (incoming sock, [])
               else makefile_readline (incoming sock))
              = (if multiline then incoming sock else fst (readline (incoming sock)),
                 if multiline then []
                 else snd (makefile_readline (incoming sock))))
    by (destruct multiline;
        [reflexivity
        | rewrite <- (proj1 (makefile_readline_spec _));
          now destruct (makefile_readline (incoming sock))]).
  rewrite D. clear D.
  destruct (utf8_decode _) as [s|]; [|discriminate].
  intros [= <- _]. unfold strip_chars.
  destruct (strip_by_spec (mem_chars [_endline self]) s)
    as (l & r & E & Fl & Fr & Hfirst & Hlast).
  repeat split.
  - intros t Ht. apply Hfirst in Ht.
    assert (H : mem_chars [_endline self] (_endline self) = true)
      by now apply mem_chars_single.
    congruence.
  - intros t Ht. apply Hlast in Ht.
    assert (H : mem_chars [_endline self] (_endline self) = true)
      by now apply mem_chars_single.
    congruence.
  - exists l, r. repeat split.
    + now rewrite E at 1.
    + now apply Forall_mem_single.
    + now apply Forall_mem_single.
Qed.

Lemma recv_stripped_witness :
  (forall t, py "PONG" <> 0 :: t) /\
  (forall t, py "PONG" <> t ++ [0]) /\
  exists l r,
    utf8_decode ([0] ++ pyb "PONG" ++ [0; 0]) = Some (l ++ py "PONG" ++ r) /\
    Forall (fun c => c = 0) l /\ Forall (fun c => c = 0) r.
Proof.
  exact (recv_stripped (mk_Clamd (AF_INET (py "127.0.0.1") 3310) 1024 LT_z) true
           (fresh_socket ([0] ++ pyb "PONG" ++ [0; 0])) (fresh_socket [])
           (py "PONG") eq_refl).
Defined.

(** ** The UTF-8 codec, from octets to text *)

Lemma option_map_cons_inv (c x : N) (o : option str) (s : str) :
  option_map (cons x) o = Some (c :: s) -> x = c /\ o = Some s.
Proof. destruct o; simpl; [now intros [= -> ->] | discriminate]. Qed.

Ltac decide_tests_in H :=
  repeat match type of H with
    | context [?a =? ?b] => destruct (N.eqb_spec a b); try lia
    | context [?a <? ?b] => destruct (N.ltb_spec a b); try lia
    | context [?a <=? ?b] => destruct (N.leb_spec a b); try lia
    end.

(** The first character of a decoded text comes from the first octets, and
    these are its encoding. *)
Lemma utf8_decode_inv (b : bytes) (c : N) (s : str) :
  utf8_decode b = Some (c :: s) ->
  exists bs rest,
    b = bs ++ rest /\ utf8_encode_char c = Some bs /\ utf8_decode rest = Some s.
Proof.
  destruct b as [|b0 r0]; [discriminate|]. rewrite utf8_decode_cons.
  unfold utf8_encode_char.
  pose proof (N.div_mod' c 64) as D1.
  pose proof (N.mod_upper_bound c 64 ltac:(lia)) as M1.
  pose proof (N.div_mod' (c / 64) 64) as D2.
  pose proof (N.mod_upper_bound (c / 64) 64 ltac:(lia)) as M2.
  pose proof (N.div_mod' c 4096) as D3.
  pose proof (N.mod_upper_bound c 4096 ltac:(lia)) as M3.
  pose proof (N.div_mod' (c / 4096) 64) as D4.
  pose proof (N.mod_upper_bound (c / 4096) 64 ltac:(lia)) as M4.
  pose proof (N.div_mod' c 262144) as D5.
  pose proof (N.mod_upper_bound c 262144 ltac:(lia)) as M5.
  set (q1 := c / 64) in *. set (r1 := c mod 64) in *.
  set (r2 := q1 mod 64) in *. set (q2 := q1 / 64) in *.
  set (q3 := c / 4096) in *. set (r3 := c mod 4096) in *.
  set (r4 := q3 mod 64) in *. set (q4 := q3 / 64) in *.
  set (q5 := c / 262144) in *. set (r5 := c mod 262144) in *.
  clearbody q1 r1 q2 r2 q3 r3 q4 r4 q5 r5.
  destruct (N.ltb_spec b0 0x80).
  { intros Hd. apply option_map_cons_inv in Hd as [-> Hd].
    exists [c], r0. repeat split; [|exact Hd].
    destruct (N.ltb_spec c 0x80); [reflexivity | lia]. }
  destruct (N.ltb_spec b0 0xC2); [discriminate|].
  destruct (N.ltb_spec b0 0xE0).
  { destruct r0 as [|b1 r1']; [discriminate|].
    unfold is_cont. intros Hd. decide_tests_in Hd; cbn [andb] in Hd; try discriminate.
    apply option_map_cons_inv in Hd as [Hc Hd].
    exists [b0; b1], r1'. repeat split; [|exact Hd].
    decide_tests. repeat f_equal; lia. }
  destruct (N.ltb_spec b0 0xF0).
  { destruct r0 as [|b1 [|b2 r2']]; try discriminate.
    unfold is_cont, in_range. intros Hd.
    decide_tests_in Hd; cbn [andb] in Hd; try discriminate;
      apply option_map_cons_inv in Hd as [Hc Hd];
      exists [b0; b1; b2], r2'; (repeat split; [|exact Hd]);
      decide_tests; cbn [andb]; repeat f_equal; lia. }
  destruct (N.ltb_spec b0 0xF5); [|discriminate].
  destruct r0 as [|b1 [|b2 [|b3 r3']]]; try discriminate.
  unfold is_cont, in_range. intros Hd.
  decide_tests_in Hd; cbn [andb] in Hd; try discriminate;
    apply option_map_cons_inv in Hd as [Hc Hd];
    exists [b0; b1; b2; b3], r3'; (repeat split; [|exact Hd]);
    decide_tests; cbn [andb]; repeat f_equal; lia.
Qed.

Lemma utf8_decode_nil (b : bytes) : utf8_decode b = Some [] -> b = [].
Proof.
  destruct b as [|b0 r0]; [reflexivity|]. rewrite utf8_decode_cons.
  destruct (b0 <? 0x80); [now destruct (utf8_decode r0)|].
  destruct (b0 <? 0xC2); [discriminate|].
  destruct (b0 <? 0xE0).
  { destruct r0 as [|b1 r1]; [discriminate|].
    destruct (is_cont b1); [now destruct (utf8_decode r1) | discriminate]. }
  destruct (b0 <? 0xF0).
  { destruct r0 as [|b1 [|b2 r2]]; try discriminate.
    destruct (_ && _); [now destruct (utf8_decode r2) | discriminate]. }
  destruct (b0 <? 0xF5); [|discriminate].
  destruct r0 as [|b1 [|b2 [|b3 r3]]]; try discriminate.
  destruct (_ && _); [now destruct (utf8_decode r3) | discriminate].
Qed.

Lemma utf8_encode_decode (b : bytes) (s : str) :
  utf8_decode b = Some s -> utf8_encode s = Some b.
Proof.
  revert b. induction s as [|c s IH]; intros b H.
  - now rewrite (utf8_decode_nil b H).
  - apply utf8_decode_inv in H as (bs & rest & -> & Ec & Hrest).
    cbn [utf8_encode]. now rewrite Ec, (IH _ Hrest).
Qed.

Lemma utf8_encode_char_scalar (c : N) :
  utf8_encode_char c <> None <-> scalar_value c.
Proof.
  unfold utf8_encode_char, scalar_value.
  decide_tests; cbn [andb]; split; try easy; try lia.
  all: try (intros _; lia). all: try (intros [H1 H2]; exfalso; lia).
Qed.

Lemma utf8_encode_scalar (s : str) :
  utf8_encode s <> None <-> Forall scalar_value s.
Proof.
  induction s as [|c s IH]; cbn [utf8_encode].
  - split; [constructor | discriminate].
  - destruct (utf8_encode_char c) as [bc|] eqn:Ec.
    + assert (Hc : scalar_value c)
        by (apply utf8_encode_char_scalar; now rewrite Ec).
      destruct (utf8_encode s) as [bs|].
      * split; [intros _; constructor; [exact Hc | now apply IH] | discriminate].
      * split; [easy|]. intros F. inversion F as [|x l _ Fs]; subst.
        apply IH in Fs. now contradiction Fs.
    + split; [easy|]. intros F. inversion F as [|x l Hx _]; subst.
      apply utf8_encode_char_scalar in Hx. now contradiction Hx.
Qed.

(** X7: the UTF-8 codec of [_send] and [_recv] is a bijection between the
    texts made of Unicode scalar values and the octet strings that decode:
    encoding is defined exactly on the texts without surrogates, a text
    that was encoded decodes to itself, and octets that decode are the
    encoding of the text they decode to. *)
Theorem utf8_codec (s : str) (b : bytes) :
  (utf8_encode s = Some b <-> utf8_decode b = Some s) /\
  (utf8_encode s <> None <-> Forall scalar_value s).
Proof.
  split; [split|].
  - apply utf8_decode_encode.
  - apply utf8_encode_decode.
  - apply utf8_encode_scalar.
Qed.

(** The octets that appear in no UTF-8 text. *)
Lemma utf8_encode_char_octets (c : N) (bs : bytes) :
  utf8_encode_char c = Some bs ->
  Forall (fun x => x < 0xC0 \/ 0xC2 <= x <= 0xF4) bs.
Proof.
  unfold utf8_encode_char.
  pose proof (N.div_mod' c 64) as D1.
  pose proof (N.mod_upper_bound c 64 ltac:(lia)) as M1.
  pose proof (N.div_mod' (c / 64) 64) as D2.
  pose proof (N.mod_upper_bound (c / 64) 64 ltac:(lia)) as M2.
  pose proof (N.div_mod' c 4096) as D3.
  pose proof (N.mod_upper_bound c 4096 ltac:(lia)) as M3.
  pose proof (N.div_mod' (c / 4096) 64) as D4.
  pose proof (N.mod_upper_bound (c / 4096) 64 ltac:(lia)) as M4.
  pose proof (N.div_mod' c 262144) as D5.
  pose proof (N.mod_upper_bound c 262144 ltac:(lia)) as M5.
  set (q1 := c / 64) in *. set (r1 := c mod 64) in *.
  set (r2 := q1 mod 64) in *. set (q2 := q1 / 64) in *.
  set (q3 := c / 4096) in *. set (r3 := c mod 4096) in *.
  set (r4 := q3 mod 64) in *. set (q4 := q3 / 64) in *.
  set (q5 := c / 262144) in *. set (r5 := c mod 262144) in *.
  clearbody q1 r1 q2 r2 q3 r3 q4 r4 q5 r5.
  remember (0xC0 + q1) as h2 eqn:Eh2. remember (0xE0 + q3) as h3 eqn:Eh3.
  remember (0xF0 + q5) as h4 eqn:Eh4. remember (0x80 + r1) as t1 eqn:Et1.
  remember (0x80 + r2) as t2 eqn:Et2. remember (0x80 + r4) as t3 eqn:Et3.
  decide_tests; cbn [andb]; try discriminate; intros [= <-];
    repeat (apply Forall_cons || apply Forall_nil); lia.
Qed.

Lemma utf8_decode_octets (b : bytes) (s : str) :
  utf8_decode b = Some s ->
  Forall (fun x => x < 0xC0 \/ 0xC2 <= x <= 0xF4) b.
Proof.
  intros H. apply utf8_encode_decode in H. revert b H.
  induction s as [|c s IH]; cbn [utf8_encode]; intros b.
  - intros [= <-]. constructor.
  - destruct (utf8_encode_char c) as [bc|] eqn:Ec; [|discriminate].
    destruct (utf8_encode s) as [bs|]; [|discriminate].
    intros [= <-]. apply Forall_app. split.
    + now apply (utf8_encode_char_octets c).
    + now apply IH.
Qed.

(** X8: when the daemon's answer holds an octet that no UTF-8 text
    contains (0xC0, 0xC1, or 0xF5 and above), [_command] raises
    [UnicodeDecodeError], an exception that is not one of the package;
    the frame has been written, the answer consumed and the socket
    closed. *)
Theorem undecodable_reply (self : Clamd) (command : str) (args : list str)
    (raise_on_error : bool) (sock sock1 : socket) (x : N) :
  _send self command args sock = (Ok tt, sock1) ->
  read_error sock = None ->
  In x (incoming sock) ->
  x = 0xC0 \/ x = 0xC1 \/ 0xF5 <= x ->
  _command self (Connected sock) command args true raise_on_error =
  (Raise UnicodeDecodeError, Some (close (set_incoming [] sock1))) /\
  error_name_of UnicodeDecodeError = None.
Proof.
  intros Hs He Hin Hx. split; [|reflexivity].
  destruct (_send_keeps_read_error _ _ _ _ _ _ Hs) as (Hre & Hinc & _).
  unfold _command, with_socket, bindM. cbn [_acquire_socket]. rewrite Hs.
  unfold _recv. rewrite (_send_open _ _ _ _ _ Hs), Hre, He, Hinc.
  destruct (utf8_decode (incoming sock)) as [s|] eqn:D; [|reflexivity].
  apply utf8_decode_octets in D. rewrite Forall_forall in D.
  apply D in Hin. lia.
Qed.

Lemma undecodable_reply_witness :
  _command ClamdNetworkSocket (Connected (fresh_socket [0x50; 0xFF; 10]))
    (py "PING") [] true true =
  (Raise UnicodeDecodeError,
   Some (mk_socket [] None [pyb "nPING" ++ [10]] None true)).
Proof.
  apply (undecodable_reply ClamdNetworkSocket (py "PING") [] true
           (fresh_socket [0x50; 0xFF; 10])
           (mk_socket [0x50; 0xFF; 10] None [pyb "nPING" ++ [10]] None false) 0xFF).
  - reflexivity.
  - reflexivity.
  - right. now left.
  - right. right. lia.
Defined.

(** ** Reading one line *)

(** X9: with [multiline] off, [_recv] returns the first line of what the
    daemon sends, in both terminator modes: the decoded line with its
    newline, stripped of the terminator character of the mode, so that in
    NUL mode the newline stays at the end of the reply.  Of the octets
    after the line, those that the buffered reader had taken go with the
    reader: they are not left on the socket, and nothing is left when the
    daemon sent no more than one buffer of octets. *)
Theorem recv_one_line (self : Clamd) (sock : socket) (line rest : bytes)
    (text : str) :
  closed sock = false ->
  read_error sock = None ->
  incoming sock = line ++ 10 :: rest ->
  ~ In 10 line ->
  utf8_decode line = Some text ->
  exists dropped left,
    _recv self false sock =
      (Ok (strip_chars [_endline self] (text ++ [10])), set_incoming left sock) /\
    rest = dropped ++ left /\
    ((length (incoming sock) <= DEFAULT_BUFFER_SIZE)%nat -> left = []) /\
    (line_terminator self = LT_z -> text <> [] ->
     (forall t, text <> 0 :: t) ->
     fst (_recv self false sock) = Ok (text ++ [10])).
Proof.
  intros Hc He Hinc Hnl Hd.
  destruct (makefile_readline_spec (incoming sock)) as (Hline & (dropped & Hdrop) & Hshort).
  rewrite Hinc, (readline_newline _ _ Hnl) in Hline, Hdrop. cbn [fst snd] in Hline, Hdrop.
  rewrite <- Hinc in Hline, Hdrop.
  assert (R : _recv self false sock =
              (Ok (strip_chars [_endline self] (text ++ [10])),
               set_incoming (snd (makefile_readline (incoming sock))) sock)).
  { unfold _recv. rewrite Hc, He.
    destruct (makefile_readline (incoming sock)) as [l left]. cbn [fst snd] in *.
    subst l.
    assert (E : utf8_decode (line ++ [10]) = Some (text ++ [10])).
    { apply utf8_decode_encode. apply utf8_encode_decode in Hd.
      now rewrite utf8_encode_app, Hd. }
    now rewrite E. }
  exists dropped, (snd (makefile_readline (incoming sock))).
  split; [exact R|]. split; [exact Hdrop|]. split; [exact Hshort|].
  intros Hz Hne Hfirst. rewrite R. cbn [fst]. f_equal.
  unfold _endline. rewrite Hz. unfold strip_chars, strip_by.
  destruct text as [|c t]; [now contradiction Hne|].
  assert (Hm : mem_chars [0] c = false).
  { destruct (mem_chars [0] c) eqn:M; [|reflexivity].
    apply mem_chars_single in M. subst c. now contradiction (Hfirst t). }
  cbn [app]. rewrite (lstrip_stop _ _ _ Hm).
  change (c :: t ++ [10]) with ((c :: t) ++ [10]).
  now rewrite rstrip_snoc.
Qed.

Lemma recv_one_line_witness :
  exists dropped left,
    _recv (mk_Clamd (AF_INET (py "127.0.0.1") 3310) 1024 LT_z) false
      (fresh_socket (pyb "stream: OK" ++ [0; 10] ++ pyb "more")) =
    (Ok (py "stream: OK" ++ [0; 10]), fresh_socket left) /\
    pyb "more" = dropped ++ left /\ left = [].
Proof.
  destruct (recv_one_line (mk_Clamd (AF_INET (py "127.0.0.1") 3310) 1024 LT_z)
              (fresh_socket (pyb "stream: OK" ++ [0; 10] ++ pyb "more"))
              (pyb "stream: OK" ++ [0]) (pyb "more") (py "stream: OK" ++ [0])
              eq_refl eq_refl eq_refl)
    as (dropped & left & R & Hd & Hs & _).
  - cbn. intuition discriminate.
  - reflexivity.
  - exists dropped, left. split; [exact R|]. split; [exact Hd|].
    apply Hs. unfold DEFAULT_BUFFER_SIZE. cbn [incoming fresh_socket]. cbn. lia.
Defined.

(** ** Lines of a scan reply *)

Lemma app_sep_unique (c : N) (p p' x x' : str) :
  ~ In c p -> ~ In c p' -> p ++ c :: x = p' ++ c :: x' -> p = p' /\ x = x'.
Proof.
  revert p'. induction p as [|a p IH]; intros [|a' p'] Hp Hp' E; cbn [app] in E.
  - now injection E.
  - injection E as <- _. exfalso. apply Hp'. now left.
  - injection E as -> _. exfalso. apply Hp. now left.
  - injection E as <- E. destruct (IH p') as [-> ->]; try easy.
    + intros H. apply Hp. now right.
    + intros H. apply Hp'. now right.
Qed.

Lemma rev_inj (a b : str) : rev a = rev b -> a = b.
Proof.
  intros H. apply (f_equal (@rev N)) in H. now rewrite !rev_involutive in H.
Qed.

Lemma tail_unique (r r' : option str) (st st' : ScanResult.scan_status) (e : str) :
  end_of_string e ->
  reason_text r ++ ScanResult.status_str st =
    reason_text r' ++ ScanResult.status_str st' ++ e ->
  r = r' /\ st = st'.
Proof.
  intros He H. apply (f_equal (@rev N)) in H.
  rewrite !rev_app_distr in H.
  destruct r as [rs|], r' as [rs'|]; cbn [reason_text] in H;
    rewrite ?rev_app_distr in H;
    destruct He as [-> | ->], st, st'; cbn in H; try discriminate;
    try (split; reflexivity);
    injection H as H; apply rev_inj in H; now subst.
Qed.

(** X10: a line written as [path: status] or [path: reason status], with
    a path that has no colon and a reason that is not empty and has no
    newline, is parsed back into exactly that path, reason and status. *)
Theorem parse_formatted_line (p : str) (reason : option str)
    (st : ScanResult.scan_status) (command : str) :
  ~ In 0x3A p ->
  (forall rs, reason = Some rs -> rs <> [] /\ ~ In 10 rs) ->
  ScanResult._from_str (format_result p reason st) command false =
  Ok (ScanResult.mk (ScanResult.Path p) reason st).
Proof.
  intros Hp Hr.
  assert (W : status_word (ScanResult.status_str st))
    by (destruct st; [now left | right; now left | right; now right]).
  assert (L : result_line (format_result p reason st)).
  { unfold format_result. destruct reason as [rs|].
    - destruct (Hr rs eq_refl) as [Hne Hnl].
      apply (line_with_reason _ p rs (ScanResult.status_str st) []);
        try assumption; [now left|].
      now rewrite <- !app_assoc, app_nil_r.
    - apply (line_without_reason _ p (ScanResult.status_str st) []);
        try assumption; [now left|]. now rewrite app_nil_r. }
  apply RESULT_REGEX_complete in L.
  destruct (_from_str_match _ command false L)
    as (p' & st' & e & Hp' & He & [[E R] | (rs' & _ & _ & E & R)]);
    rewrite R; unfold format_result in E;
    change (py ": ") with (0x3A :: py " ") in E; cbn [app] in E;
    apply app_sep_unique in E as [<- E]; try assumption;
    injection E as E.
  - destruct (tail_unique reason None st st' e He) as [-> ->]; [exact E|].
    reflexivity.
  - destruct (tail_unique reason (Some rs') st st' e He) as [-> ->].
    + cbn [reason_text]. now rewrite <- app_assoc.
    + reflexivity.
Qed.

Lemma parse_formatted_line_witness :
  ScanResult._from_str
    (format_result (py "/tmp/eicar") (Some (py "Win.Test.EICAR_HDB-1"))
       ScanResult.FOUND)
    (py "SCAN") false =
  Ok (ScanResult.mk (ScanResult.Path (py "/tmp/eicar"))
        (Some (py "Win.Test.EICAR_HDB-1")) ScanResult.FOUND).
Proof.
  apply (parse_formatted_line (py "/tmp/eicar") (Some (py "Win.Test.EICAR_HDB-1"))
           ScanResult.FOUND (py "SCAN")).
  - cbn. intuition discriminate.
  - intros rs [= <-]. split; [discriminate | cbn; intuition discriminate].
Defined.

(** X11: [ScanResult._from_str] returns a result exactly for the lines of
    the shape [<path>: [<reason> ]<status>] (a path without a colon, a
    reason without a newline, a status among [FOUND], [OK], [ERROR], at
    most one newline at the very end); for every other line it raises
    [ResponseError] with the message [Unable to match string: ] and the
    line, and it raises nothing else. *)
Theorem from_str_accepts_pattern (line command : str) (is_stream : bool) :
  ((exists r, ScanResult._from_str line command is_stream = Ok r) <-> result_line line) /\
  (~ result_line line <->
   ScanResult._from_str line command is_stream =
   Raise (ResponseError command (py "Unable to match string: " ++ line))).
Proof.
  destruct (_from_str_cases line command is_stream) as [[N R] | [L [r R]]].
  - split; split.
    + intros [r R']. rewrite R in R'. discriminate.
    + intros L. contradiction.
    + intros _. exact R.
    + intros _. exact N.
  - split; split.
    + intros _. exact L.
    + intros _. now exists r.
    + intros N. contradiction.
    + intros R'. rewrite R in R'. discriminate.
Qed.

Lemma split_length (c : N) (s : str) :
  length (split c s) = S (count_occ N.eq_dec s c).
Proof.
  induction s as [|x s IH]; [reflexivity|]. cbn [split count_occ].
  destruct (N.eqb_spec x c) as [->|Hx].
  - destruct (N.eq_dec c c); [|easy]. cbn [length]. now rewrite IH.
  - destruct (N.eq_dec x c); [easy|].
    destruct (split c s) as [|f fs]; cbn [length] in *; [discriminate | exact IH].
Qed.

Lemma list_comp_total {A B} (f : A -> Res B) (l : list A) :
  Forall (fun a => exists b, f a = Ok b) l ->
  exists bs, list_comp f l = Ok bs.
Proof.
  induction 1 as [|a l [b Hb] _ [bs IH]]; cbn [list_comp].
  - now exists [].
  - rewrite Hb, IH. now exists (b :: bs).
Qed.

(** X12: when every line of a scan reply has the shape
    [<path>: [<reason> ]<status>], the scan returns one result for each
    line, in the order of the lines; their number is one more than the
    number of terminator characters inside the reply, and the path of each
    is a path without a colon. *)
Theorem scan_reply_parsed (absolute : str -> str) (self : Clamd)
    (command path : str) (sock sock1 sock2 : socket) (reply : str) :
  _send self command [absolute path] sock = (Ok tt, sock1) ->
  _recv self true sock1 = (Ok reply, sock2) ->
  reply <> UNKNOWN_COMMAND ->
  reply <> COMMAND_READ_TIMED_OUT ->
  Forall result_line (split (_endline self) reply) ->
  exists l,
    _any_scan absolute self (Connected sock) command path false =
      (Ok (inr l), Some (close sock2)) /\
    Forall2 (fun line r => ScanResult._from_str line command false = Ok r)
      (split (_endline self) reply) l /\
    length l = S (count_occ N.eq_dec reply (_endline self)) /\
    Forall (fun r => exists p, ScanResult.path r = ScanResult.Path p /\ ~ In 0x3A p) l.
Proof.
  intros Hs Hr Hu Ht F. rewrite (_any_scan_parsed _ _ _ _ _ _ _ _ Hs Hr Hu Ht).
  destruct (list_comp_total
              (fun line => ScanResult._from_str line command false)
              (split (_endline self) reply)) as [l E].
  { eapply Forall_impl; [|exact F]. intros a La.
    now destruct (_from_str_cases a command false) as [[N _] | [_ R]]. }
  exists l. rewrite E. pose proof (list_comp_all _ _ _ E) as A.
  repeat split.
  - exact A.
  - rewrite <- split_length. symmetry. exact (Forall2_length A).
  - clear E F. induction A as [|line r lines rs Hline _ IH]; constructor; [|exact IH].
    assert (M : re_match false RESULT_REGEX line <> None).
    { intros N. rewrite (_from_str_no_match _ _ _ N) in Hline. discriminate. }
    destruct (_from_str_match line command false M)
      as (p & st & e & Hp & _ & [[_ R] | (rs' & _ & _ & _ & R)]);
      rewrite R in Hline; injection Hline as <-; now exists p.
Qed.

Lemma scan_reply_parsed_witness :
  exists l,
    _any_scan (fun p => p) ClamdNetworkSocket
      (Connected (fresh_socket (pyb "/a: OK" ++ [10] ++ pyb "/b: Eicar FOUND" ++ [10])))
      (py "CONTSCAN") (py "/") false =
      (Ok (inr l), Some (close (mk_socket [] None [pyb "nCONTSCAN /" ++ [10]] None false))) /\
    length l = 2%nat.
Proof.
  destruct (scan_reply_parsed (fun p => p) ClamdNetworkSocket (py "CONTSCAN") (py "/")
              (fresh_socket (pyb "/a: OK" ++ [10] ++ pyb "/b: Eicar FOUND" ++ [10]))
              (mk_socket (pyb "/a: OK" ++ [10] ++ pyb "/b: Eicar FOUND" ++ [10]) None
                 [pyb "nCONTSCAN /" ++ [10]] None false)
              (mk_socket [] None [pyb "nCONTSCAN /" ++ [10]] None false)
              (py "/a: OK" ++ [10] ++ py "/b: Eicar FOUND"))
    as (l & E & _ & Hlen & _).
  - reflexivity.
  - reflexivity.
  - discriminate.
  - discriminate.
  - repeat constructor.
    + apply (line_without_reason _ (py "/a") (py "OK") []);
        [cbn; intuition discriminate | right; left; reflexivity
        | left; reflexivity | reflexivity].
    + apply (line_with_reason _ (py "/b") (py "Eicar") (py "FOUND") []);
        [cbn; intuition discriminate | discriminate | cbn; intuition discriminate
        | left; reflexivity | left; reflexivity | reflexivity].
  - exists l. split; [exact E | exact Hlen].
Defined.

(** ** A daemon that answers nothing *)

Lemma utf8_decode_terminators (self : Clamd) (k : nat) :
  utf8_decode (repeat (_endline self) k) = Some (repeat (_endline self) k).
Proof.
  apply utf8_decode_encode, utf8_encode_ascii.
  apply Forall_forall. intros c Hc. apply repeat_spec in Hc. subst c.
  unfold _endline. destruct (line_terminator self); lia.
Qed.

Lemma lstrip_all (p : N -> bool) (l : str) :
  Forall (fun c => p c = true) l -> lstrip p l = [].
Proof. induction 1 as [|c l Hc _ IH]; simpl; [reflexivity | now rewrite Hc]. Qed.

Lemma _recv_nothing (self : Clamd) (sock : socket) (k : nat) :
  closed sock = false ->
  read_error sock = None ->
  incoming sock = repeat (_endline self) k ->
  _recv self true sock = (Ok [], set_incoming [] sock).
Proof.
  intros Hcl He Hi. unfold _recv. rewrite Hcl, He, Hi, utf8_decode_terminators.
  unfold strip_chars, strip_by. rewrite lstrip_all; [reflexivity|].
  apply Forall_forall. intros c Hc. apply repeat_spec in Hc. subst c.
  now apply mem_chars_single.
Qed.

(** X13: when the daemon closes the connection after sending nothing, or
    nothing but terminator characters, the reply is the empty text:
    [ping], [reload], [stats] and the raw forms of the other operations
    return it, [version] raises [IndexError], and the scans raise
    [ResponseError] with the message [Unable to match string: ]. *)
Theorem silent_daemon (absolute : str -> str) (self : Clamd) (req : request)
    (sock sock1 : socket) (k : nat) :
  _send self (verb req) (arguments absolute req) sock = (Ok tt, sock1) ->
  read_error sock = None ->
  incoming sock = repeat (_endline self) k ->
  call absolute self (Connected sock) req =
  (match req with
   | Version false => Raise IndexError
   | Scan _ false | Contscan _ false | Multiscan _ false =>
       Raise (ResponseError (verb req) (py "Unable to match string: "))
   | _ => Ok (Text [])
   end,
   Some (close (set_incoming [] sock1))).
Proof.
  intros Hs He Hi.
  destruct (_send_keeps_read_error _ _ _ _ _ _ Hs) as (Hre & Hinc & _).
  rewrite He in Hre. rewrite Hi in Hinc.
  pose proof (_recv_nothing self sock1 k (_send_open _ _ _ _ _ Hs) Hre Hinc) as Hr.
  assert (C : forall roe,
             _command self (Connected sock) (verb req) (arguments absolute req)
               true roe = (Ok [], Some (close (set_incoming [] sock1)))).
  { intros [|].
    - apply (_command_success _ _ _ _ _ _ _ _ Hs Hr); [discriminate.. | reflexivity].
    - apply (_command_no_raise _ _ _ _ _ _ _ _ Hs Hr); discriminate. }
  destruct req as [| |[|]| |? [|]|? [|]|? [|]];
    unfold call, map_outcome, ping, reload, version, stats, scan, contscan,
      multiscan, _any_scan; cbn [verb arguments] in C; rewrite C;
    try reflexivity; unfold _endline; now destruct (line_terminator self).
Qed.

Lemma silent_daemon_witness :
  call (fun p => p) ClamdNetworkSocket (Connected (fresh_socket [10; 10]))
    (Multiscan (py "/srv") false) =
  (Raise (ResponseError (py "MULTISCAN") (py "Unable to match string: ")),
   Some (mk_socket [] None [pyb "nMULTISCAN /srv" ++ [10]] None true)).
Proof.
  apply (silent_daemon (fun p => p) ClamdNetworkSocket (Multiscan (py "/srv") false)
           (fresh_socket [10; 10])
           (mk_socket [10; 10] None [pyb "nMULTISCAN /srv" ++ [10]] None false) 2);
    reflexivity.
Defined.

(** ** The body of a streamed upload *)

Lemma firstn_prefix (a b : bytes) : firstn (length a) (a ++ b) = a.
Proof. induction a; simpl; [reflexivity | now f_equal]. Qed.

Lemma decode_chunks_step (fuel : nat) (c rest : bytes) :
  c <> [] ->
  N.of_nat (length c) < 4294967296 ->
  decode_chunks (S fuel) (chunk_frame c ++ rest) =
  option_map (app c) (decode_chunks fuel rest).
Proof.
  intros Hne Hlen. unfold chunk_frame.
  destruct (be32_spec _ Hlen) as (_ & _ & Hv).
  set (n := N.of_nat (length c)) in *.
  assert (Hn : n <> 0) by (subst n; destruct c; [easy | simpl; lia]).
  unfold be32 in *. cbn [app decode_chunks]. rewrite Hv.
  destruct (N.eqb_spec n 0); [easy|].
  replace (N.of_nat (length (c ++ rest)) <? n) with false
    by (symmetry; apply N.ltb_ge; rewrite length_app; subst n; lia).
  subst n. now rewrite Nat2N.id, firstn_prefix, skipn_prefix.
Qed.

Lemma decode_chunks_frames (chunks : list bytes) :
  Forall (fun c => c <> [] /\ N.of_nat (length c) < 4294967296) chunks ->
  decode_chunks (S (length chunks)) (concat (map chunk_frame chunks ++ [[0; 0; 0; 0]])) =
  Some (concat chunks).
Proof.
  induction 1 as [|c chunks [Hne Hlen] _ IH]; [reflexivity|].
  cbn [map app concat length].
  rewrite (decode_chunks_step _ _ _ Hne Hlen), IH. reflexivity.
Qed.

(** X14: for a [BytesIO] and a maximum chunk size between 1 and 2^32 - 1,
    on a connection that takes every write, the payloads [instream]
    writes after the [INSTREAM] frame, read as length-prefixed chunks up
    to the chunk of length zero, give back exactly the content of the
    buffer; each payload is a length and at most the maximum chunk size
    of octets, and the buffer is left empty. *)
Theorem instream_carries_data (self : Clamd) (sock : socket) (data : bytes)
    (raw : bool) (arg : option Z) (m : Z) :
  (0 < m < 4294967296)%Z ->
  arg = Some m \/ (arg = None /\ max_chunk_size self = m) ->
  (forall n, takes n sock) ->
  exists r sock' payloads,
    instream bytes BytesIO_read (length data) self (Connected sock) data raw arg =
      Some ((r, Some sock'), []) /\
    output sock' =
      output sock ++
        (terminator_letter (line_terminator self)
           :: pyb "INSTREAM" ++ [_endline self]) :: payloads /\
    decode_chunks (length payloads) (concat payloads) = Some data /\
    Forall (fun pl => (Z.of_nat (length pl) <= 4 + m)%Z) payloads.
Proof.
  intros Hm Harg T.
  destruct (BytesIO_read_chunks m data) as (cs & C & Hcat & F); [lia|].
  rewrite <- (chunk_size_positive self arg m) in C by (lia || assumption).
  assert (F' : Forall (fun c => N.of_nat (length c) < 4294967296) cs).
  { eapply Forall_impl; [|exact F]. intros c [_ Hc]. cbv beta. lia. }
  destruct (instream_written bytes BytesIO_read (length data) self sock data
              raw arg cs [] C F' (T _)) as (r & sock' & I & O & _).
  exists r, sock', (map chunk_frame cs ++ [[0; 0; 0; 0]]). repeat split.
  - exact I.
  - exact O.
  - rewrite length_app, length_map, Nat.add_1_r, <- Hcat.
    apply decode_chunks_frames.
    eapply Forall_impl; [|exact F]. intros c [Hne Hc]. cbv beta. split; [exact Hne | lia].
  - apply Forall_app. split.
    + apply Forall_map. eapply Forall_impl; [|exact F].
      intros c [_ Hc]. unfold chunk_frame, be32. cbn [app length]. lia.
    + repeat constructor. cbn [length]. lia.
Qed.

Lemma instream_carries_data_witness :
  exists r sock' payloads,
    instream bytes BytesIO_read 5 ClamdNetworkSocket
      (Connected (fresh_socket (pyb "stream: OK"))) [9; 8; 7; 6; 5] false (Some 2%Z) =
      Some ((r, Some sock'), []) /\
    output sock' = [] ++ (terminator_letter LT_n :: pyb "INSTREAM" ++ [10]) :: payloads /\
    decode_chunks (length payloads) (concat payloads) = Some [9; 8; 7; 6; 5] /\
    Forall (fun pl => (Z.of_nat (length pl) <= 4 + 2)%Z) payloads.
Proof.
  apply (instream_carries_data ClamdNetworkSocket (fresh_socket (pyb "stream: OK"))
           [9; 8; 7; 6; 5] false (Some 2%Z) 2%Z).
  - lia.
  - now left.
  - intros n. split; [reflexivity | exact I].
Defined.

(** X15: the chunk size is used as it is, here on a connection that
    takes every write.  When it is zero (the argument is [None] or 0 and
    [self.max_chunk_size] is 0) a [BytesIO] gives an empty first read:
    nothing of it is uploaded and it is left as it was.  When it is
    negative the whole content, if it is not empty and shorter than 2^32
    octets, goes in one chunk. *)
Theorem chunk_size_not_positive (self : Clamd) (sock : socket) (data : bytes)
    (raw : bool) (arg : option Z) (fuel : nat) :
  (forall n, takes n sock) ->
  (chunk_size self arg = 0%Z ->
   exists r sock',
     instream bytes BytesIO_read fuel self (Connected sock) data raw arg =
       Some ((r, Some sock'), data) /\
     output sock' =
       output sock ++
         [terminator_letter (line_terminator self)
            :: pyb "INSTREAM" ++ [_endline self];
          [0; 0; 0; 0]]) /\
  ((chunk_size self arg < 0)%Z ->
   data <> [] -> N.of_nat (length data) < 4294967296 ->
   exists r sock',
     instream bytes BytesIO_read (S fuel) self (Connected sock) data raw arg =
       Some ((r, Some sock'), []) /\
     output sock' =
       output sock ++
         [terminator_letter (line_terminator self)
            :: pyb "INSTREAM" ++ [_endline self];
          chunk_frame data;
          [0; 0; 0; 0]]).
Proof.
  intros T. split.
  - intros Hz.
    destruct (instream_written bytes BytesIO_read fuel self sock data raw arg
                [] data) as (r & sock' & I & O & _).
    + unfold read_chunks. rewrite Hz, BytesIO_read_nonneg by lia.
      cbn [Z.to_nat firstn skipn]. destruct fuel; reflexivity.
    + constructor.
    + apply T.
    + exists r, sock'. split; [exact I | exact O].
  - intros Hneg Hne Hlen.
    destruct (instream_written bytes BytesIO_read (S fuel) self sock data raw arg
                [data] []) as (r & sock' & I & O & _).
    + unfold read_chunks, BytesIO_read.
      destruct (Z.ltb_spec (chunk_size self arg) 0); [|lia].
      destruct data as [|x data]; [easy|]. cbn [chunks_from].
      destruct (Z.ltb_spec (chunk_size self arg) 0); [|lia].
      destruct fuel; reflexivity.
    + now constructor.
    + apply T.
    + exists r, sock'. split; [exact I | exact O].
Qed.

Lemma chunk_size_not_positive_witness :
  (exists r sock',
      instream bytes BytesIO_read 0 (mk_Clamd (AF_UNIX DEFAULT_UNIX_SOCKET_PATH) 0 LT_n)
        (Connected (fresh_socket (pyb "stream: OK"))) [1; 2; 3] true (Some 0%Z) =
        Some ((r, Some sock'), [1; 2; 3]) /\
      output sock' = [pyb "nINSTREAM" ++ [10]; [0; 0; 0; 0]]) /\
  (exists r sock',
      instream bytes BytesIO_read 1 ClamdNetworkSocket
        (Connected (fresh_socket (pyb "stream: OK"))) [1; 2; 3] true (Some (-1)%Z) =
        Some ((r, Some sock'), []) /\
      output sock' = [pyb "nINSTREAM" ++ [10]; [0; 0; 0; 3; 1; 2; 3]; [0; 0; 0; 0]]).
Proof.
  assert (T : forall b n, takes n (fresh_socket b))
    by (intros b n; split; [reflexivity | exact I]).
  split.
  - exact (proj1 (chunk_size_not_positive
                    (mk_Clamd (AF_UNIX DEFAULT_UNIX_SOCKET_PATH) 0 LT_n)
                    (fresh_socket (pyb "stream: OK")) [1; 2; 3] true (Some 0%Z) 0
                    (T _))
             eq_refl).
  - refine (proj2 (chunk_size_not_positive ClamdNetworkSocket
                     (fresh_socket (pyb "stream: OK")) [1; 2; 3] true (Some (-1)%Z) 0
                     (T _))
              _ _ _).
    + reflexivity.
    + discriminate.
    + reflexivity.
Defined.

Section Instream_reply.

Variable Src : Type.
Variable read : Src -> Z -> bytes * Src.

(** X16: when the upload is done and the reply does not mention the size
    limit, [instream] with [raw] returns the reply as it is; without
    [raw] it returns a result exactly when the reply has the shape
    [<path>: [<reason> ]<status>], the path of the result is then the
    marker [stream] whatever path the reply names, and any other reply
    raises [ResponseError] for the command [INSTREAM]. *)
Theorem instream_result (fuel : nat) (self : Clamd) (sock : socket) (buff : Src)
    (arg : option Z) (sock1 sock2 : socket) (buff1 : Src) (reply : str) :
  instream_upload Src read fuel self buff arg sock = Some (Ok tt, sock1, buff1) ->
  _recv self true sock1 = (Ok reply, sock2) ->
  contains (py "INSTREAM size limit exceeded") reply = false ->
  instream Src read fuel self (Connected sock) buff true arg =
    Some ((Ok (inl reply), Some (close sock2)), buff1) /\
  (result_line reply ->
   exists r,
     instream Src read fuel self (Connected sock) buff false arg =
       Some ((Ok (inr r), Some (close sock2)), buff1) /\
     ScanResult.path r = ScanResult.stream) /\
  (~ result_line reply ->
   instream Src read fuel self (Connected sock) buff false arg =
     Some ((Raise (ResponseError (py "INSTREAM")
                     (py "Unable to match string: " ++ reply)),
            Some (close sock2)), buff1)).
Proof.
  intros U R C.
  assert (I : forall raw,
             instream Src read fuel self (Connected sock) buff raw arg =
             Some ((fst ((if raw then ret (inl reply)
                          else match ScanResult._from_str reply (py "INSTREAM") true with
                               | Ok r => ret (inr r)
                               | Raise e => raise e
                               end) sock2),
                    Some (close sock2)), buff1)).
  { intros raw. unfold instream. cbn [_acquire_socket]. rewrite U.
    unfold instream_reply, bindM. rewrite R, C.
    destruct raw; [reflexivity|].
    now destruct (ScanResult._from_str reply (py "INSTREAM") true). }
  repeat split.
  - now rewrite I.
  - intros L. apply RESULT_REGEX_complete in L.
    destruct (_from_str_match reply (py "INSTREAM") true L)
      as (p & st & e & _ & _ & [[_ P] | (rs & _ & _ & _ & P)]);
      eexists; rewrite I, P; split; reflexivity.
  - intros N. rewrite I.
    destruct (_from_str_cases reply (py "INSTREAM") true) as [[_ P] | [L _]];
      [now rewrite P | contradiction].
Qed.

End Instream_reply.

Lemma instream_result_witness :
  exists r,
    instream bytes BytesIO_read 1 ClamdNetworkSocket
      (Connected (fresh_socket (pyb "/tmp/upload: Eicar FOUND" ++ [10])))
      [1] false None =
      Some ((Ok (inr r),
             Some (close (mk_socket [] None
                            [pyb "nINSTREAM" ++ [10]; [0; 0; 0; 1; 1]; [0; 0; 0; 0]]
                            None false))), []) /\
    ScanResult.path r = ScanResult.stream.
Proof.
  refine (proj1 (proj2 (instream_result bytes BytesIO_read 1 ClamdNetworkSocket
            (fresh_socket (pyb "/tmp/upload: Eicar FOUND" ++ [10])) [1] None
            (mk_socket (pyb "/tmp/upload: Eicar FOUND" ++ [10]) None
               [pyb "nINSTREAM" ++ [10]; [0; 0; 0; 1; 1]; [0; 0; 0; 0]] None false)
            (mk_socket [] None
               [pyb "nINSTREAM" ++ [10]; [0; 0; 0; 1; 1]; [0; 0; 0; 0]] None false)
            [] (py "/tmp/upload: Eicar FOUND") eq_refl eq_refl eq_refl)) _).
  apply (line_with_reason _ (py "/tmp/upload") (py "Eicar") (py "FOUND") []);
    [cbn; intuition discriminate | discriminate | cbn; intuition discriminate
    | left; reflexivity | left; reflexivity | reflexivity].
Defined.

(** ** An upload that the connection cuts short *)

Lemma fold_left_sub (l : list bytes) (k : nat) :
  fold_left (fun k d => (k - length d)%nat) l k = (k - length (concat l))%nat.
Proof.
  revert k. induction l as [|d l IH]; intros k; cbn [fold_left concat length].
  - lia.
  - rewrite IH, length_app. lia.
Qed.

Lemma sent_wrote (l : list bytes) (s : socket) :
  sent (wrote l s) = sent s ++ concat l.
Proof. unfold sent, wrote. cbn [output]. apply concat_app. Qed.

Lemma firstn_app_le (k : nat) (a b : bytes) :
  (length a <= k)%nat -> firstn k (a ++ b) = a ++ firstn (k - length a) b.
Proof. intros H. now rewrite firstn_app, firstn_all2. Qed.

Lemma firstn_app_lt (k : nat) (a b : bytes) :
  (k <= length a)%nat -> firstn k (a ++ b) = firstn k a.
Proof.
  intros H. rewrite firstn_app. replace (k - length a)%nat with O by lia.
  cbn [firstn]. apply app_nil_r.
Qed.

(** A write on a connection that takes [k] more octets. *)
Lemma sendall_limit (data : bytes) (s : socket) (k : nat) (e : OSError) :
  closed s = false ->
  write_limit s = Some (k, e) ->
  ((length data <= k)%nat /\ sendall data s = (Ok tt, wrote [data] s)) \/
  ((k < length data)%nat /\
   exists s', sendall data s = (Raise (OSError_exn e), s') /\
              sent s' = sent s ++ firstn k data /\
              incoming s' = incoming s /\ closed s' = false).
Proof.
  intros Hc Hw. unfold sendall, wrote. rewrite Hc, Hw.
  destruct (Nat.leb_spec (length data) k) as [H|H]; [left | right];
    (split; [exact H|]); [reflexivity|].
  eexists. split; [reflexivity|]. unfold sent. cbn [output incoming closed].
  rewrite concat_app. cbn [concat]. now rewrite app_nil_r.
Qed.

Lemma takes_limit (n : nat) (s : socket) (k : nat) (e : OSError) :
  closed s = false -> write_limit s = Some (k, e) -> (n <= k)%nat -> takes n s.
Proof. intros Hc Hw H. split; [exact Hc | now rewrite Hw]. Qed.

Section Interrupted.

Variable Src : Type.
Variable read : Src -> Z -> bytes * Src.

Lemma send_chunks_interrupted (fuel : nat) (n : Z) (chunk : bytes) (buff : Src)
    (sock : socket) (cs : list bytes) (buff' : Src) (k : nat) (e : OSError) :
  chunks_from Src read fuel n chunk buff = Some (cs, buff') ->
  Forall (fun c => N.of_nat (length c) < 4294967296) cs ->
  closed sock = false ->
  write_limit sock = Some (k, e) ->
  (k < length (concat (map chunk_frame cs)))%nat ->
  exists s b1,
    send_chunks Src read fuel n chunk buff sock = Some (Raise (OSError_exn e), s, b1) /\
    sent s = sent sock ++ firstn k (concat (map chunk_frame cs)) /\
    incoming s = incoming sock /\ closed s = false.
Proof.
  revert chunk buff sock cs k. induction fuel as [|fuel IH];
    intros chunk buff sock cs k; destruct chunk as [|x chunk];
    cbn [chunks_from send_chunks]; try discriminate.
  - intros [= <- <-] _ _ _ H. cbn in H. lia.
  - intros [= <- <-] _ _ _ H. cbn in H. lia.
  - destruct (read buff n) as [chunk' buff1].
    destruct (chunks_from Src read fuel n chunk' buff1) as [[cs' b]|] eqn:C;
      [|discriminate].
    intros [= <- <-] F Hc Hw Hk. inversion F as [|c l Hlen Hcs]; subst.
    rewrite struct_pack_L_be32 by lia.
    rewrite <- nat_N_Z, N2Z.id.
    change (be32 (N.of_nat (length (x :: chunk))) ++ x :: chunk)
      with (chunk_frame (x :: chunk)).
    cbn [map concat] in Hk |- *. rewrite length_app in Hk.
    destruct (sendall_limit (chunk_frame (x :: chunk)) sock k e Hc Hw)
      as [[Hle ->] | [Hlt (s' & -> & Hs & Hi & Hc')]].
    + destruct (IH chunk' buff1 (wrote [chunk_frame (x :: chunk)] sock) cs'
                  (k - length (chunk_frame (x :: chunk)))%nat C Hcs)
        as (s & b1 & -> & Hs & Hi & Hc'); [exact Hc | | lia |].
      * unfold wrote. cbn [write_limit fold_left]. now rewrite Hw.
      * exists s, b1. repeat split; try assumption.
        rewrite Hs, sent_wrote. cbn [concat]. rewrite app_nil_r, <- app_assoc.
        now rewrite firstn_app_le.
    + exists s', buff. repeat split; try assumption.
      rewrite Hs. now rewrite firstn_app_lt by lia.
Qed.

(** X20: when the connection takes fewer octets than the upload has,
    [instream] raises the [OSError] of [sendall] as it is, not as an
    exception of the package; the octets written are the first of the
    upload, up to where the connection broke, so that no later chunk and
    no final zero length follow; the answer of the daemon is not read and
    the socket is closed.  When the connection breaks within the
    [INSTREAM] frame, the source has not been read. *)
Theorem upload_interrupted (fuel : nat) (self : Clamd) (sock : socket)
    (buff : Src) (raw : bool) (arg : option Z) (chunks : list bytes)
    (buff' : Src) (k : nat) (e : OSError) :
  read_chunks Src read fuel (chunk_size self arg) buff = Some (chunks, buff') ->
  Forall (fun c => N.of_nat (length c) < 4294967296) chunks ->
  closed sock = false ->
  write_limit sock = Some (k, e) ->
  (k < length (concat
                ((terminator_letter (line_terminator self)
                    :: pyb "INSTREAM" ++ [_endline self])
                 :: map chunk_frame chunks ++ [[0; 0; 0; 0]])%N))%nat ->
  exists s buff1,
    instream Src read fuel self (Connected sock) buff raw arg =
      Some ((Raise (OSError_exn e), Some s), buff1) /\
    sent s =
      sent sock ++
        firstn k (concat
                    ((terminator_letter (line_terminator self)
                        :: pyb "INSTREAM" ++ [_endline self])
                     :: map chunk_frame chunks ++ [[0; 0; 0; 0]])) /\
    incoming s = incoming sock /\ closed s = true /\
    ((k < length (terminator_letter (line_terminator self)
                    :: pyb "INSTREAM" ++ [_endline self]))%nat ->
     buff1 = buff).
Proof.
  intros C F Hc Hw Hk. unfold instream, instream_upload. cbn [_acquire_socket].
  rewrite instream_frame. unfold read_chunks in C.
  set (frame := terminator_letter (line_terminator self)
                  :: pyb "INSTREAM" ++ [_endline self]) in *.
  cbn [concat] in Hk |- *. rewrite concat_app in Hk |- *.
  cbn [concat] in Hk |- *. rewrite app_nil_r in Hk |- *.
  rewrite !length_app in Hk.
  destruct (sendall_limit frame sock k e Hc Hw)
    as [[Hle ->] | [Hlt (s' & -> & Hs & Hi & Hc')]].
  - destruct (read buff (chunk_size self arg)) as [chunk buff1].
    assert (Hw1 : write_limit (wrote [frame] sock) = Some ((k - length frame)%nat, e))
      by (unfold wrote; cbn [write_limit fold_left]; now rewrite Hw).
    destruct (Nat.le_gt_cases (length (concat (map chunk_frame chunks)))
                (k - length frame)) as [Hfit|Hcut].
    + rewrite (send_chunks_written _ _ _ _ _ _ _ _ _ C F)
        by (exact (takes_limit _ (wrote [frame] sock) _ _ Hc Hw1 Hfit)).
      cbn [struct_pack_L Z.leb Z.compare andb Z.to_N N.div N.modulo].
      rewrite wrote_wrote.
      change (sendall [0 / 16777216; (0 / 65536) mod 256; (0 / 256) mod 256; 0 mod 256])
        with (sendall [0; 0; 0; 0]).
      match goal with
      | |- context [sendall ?d ?s] =>
          destruct (sendall_limit d s
                      (k - length (concat ([frame] ++ map chunk_frame chunks)))%nat e)
            as [[Hle' _] | [Hlt (s' & -> & Hs & Hi & Hc')]]
      end.
      * exact Hc.
      * unfold wrote. cbn [write_limit]. now rewrite Hw, fold_left_sub.
      * cbn [app concat length] in Hle'. rewrite length_app in Hle'.
        cbn [length] in Hk. lia.
      * exists (close s'), buff'. repeat split; try assumption; [|lia].
        unfold sent in *. cbn [close output]. rewrite Hs.
        change (concat (output (wrote ([frame] ++ map chunk_frame chunks) sock)))
          with (sent (wrote ([frame] ++ map chunk_frame chunks) sock)).
        rewrite sent_wrote. unfold sent. cbn [app concat].
        rewrite <- !app_assoc. f_equal.
        rewrite firstn_app_le by exact Hle. f_equal.
        rewrite firstn_app_le by exact Hfit. f_equal. f_equal.
        rewrite length_app. lia.
    + match goal with
      | |- context [send_chunks _ _ _ _ _ _ ?s1] =>
          destruct (send_chunks_interrupted _ _ _ _ s1 _ _ _ e C F Hc Hw1 Hcut)
            as (s & b1 & -> & Hs & Hi & Hc')
      end.
      exists (close s), b1. repeat split; try assumption; [|lia].
      unfold sent in *. cbn [close output]. rewrite Hs.
      change (concat (output (wrote [frame] sock))) with (sent (wrote [frame] sock)).
      rewrite sent_wrote. unfold sent. cbn [concat]. rewrite app_nil_r, <- app_assoc.
      f_equal. rewrite firstn_app_le by exact Hle. f_equal.
      now rewrite firstn_app_lt by lia.
  - exists (close s'), buff. repeat split; try assumption.
    unfold sent in *. cbn [close output]. rewrite Hs. f_equal.
    now rewrite firstn_app_lt by lia.
Qed.

End Interrupted.

Lemma upload_interrupted_witness :
  exists s buff1,
    instream bytes BytesIO_read 3 ClamdNetworkSocket
      (Connected (mk_socket (pyb "stream: OK") None []
                    (Some (13%nat, OSError2 32 (py "Broken pipe"))) false))
      [1; 2; 3; 4; 5] false (Some 2%Z) =
      Some ((Raise (OSError_exn (OSError2 32 (py "Broken pipe"))), Some s), buff1) /\
    sent s = [] ++ firstn 13 (concat ((terminator_letter LT_n :: pyb "INSTREAM" ++ [10])
                                       :: map chunk_frame [[1; 2]; [3; 4]; [5]]
                                       ++ [[0; 0; 0; 0]])) /\
    incoming s = pyb "stream: OK" /\ closed s = true /\
    ((13 < length (terminator_letter LT_n :: pyb "INSTREAM" ++ [10])%N)%nat ->
     buff1 = [1; 2; 3; 4; 5]).
Proof.
  apply (upload_interrupted bytes BytesIO_read 3 ClamdNetworkSocket
           (mk_socket (pyb "stream: OK") None []
              (Some (13%nat, OSError2 32 (py "Broken pipe"))) false)
           [1; 2; 3; 4; 5] false (Some 2%Z) [[1; 2]; [3; 4]; [5]] []
           13%nat (OSError2 32 (py "Broken pipe"))).
  - reflexivity.
  - repeat (apply Forall_cons || apply Forall_nil); reflexivity.
  - reflexivity.
  - reflexivity.
  - cbn. lia.
Defined.

(** ** Parsing of the version *)

Lemma bindR_Raise {A B} (r : Res A) (f : A -> Res B) (e : exn) :
  bindR r f = Raise e -> r = Raise e \/ exists a, r = Ok a /\ f a = Raise e.
Proof. destruct r as [a|e']; simpl; [right; now exists a | left; congruence]. Qed.

Lemma bindR_Ok {A B} (r : Res A) (f : A -> Res B) (b : B) :
  bindR r f = Ok b -> exists a, r = Ok a /\ f a = Ok b.
Proof. destruct r as [a|e']; simpl; [now exists a | discriminate]. Qed.

Lemma int_error (s : str) (e : exn) : int s = Raise e -> e = ValueError.
Proof.
  unfold int. cbv zeta.
  repeat match goal with
    | |- context [match ?x with _ => _ end] => destruct x
    end; (discriminate || now intros [= <-]).
Qed.

Lemma index_error (s : str) (names : list string) (e : exn) :
  index s names = Raise e -> e = ValueError.
Proof.
  induction names as [|n names IH]; cbn [index]; [now intros [= <-]|].
  destruct (str_eqb s (py n)); [discriminate|].
  intros H. apply bindR_Raise in H as [H | (i & _ & H)]; [now apply IH | discriminate].
Qed.

Lemma new_datetime_valid (y mo d h mi s : Z) (t : datetime) :
  new_datetime y mo d h mi s = Ok t -> valid_datetime t.
Proof.
  unfold new_datetime, valid_datetime.
  destruct (_ && _)%bool eqn:B; [|discriminate]. intros [= <-]. cbn.
  repeat (apply andb_prop in B as [B ?]).
  repeat match goal with H : (_ <=? _)%Z = true |- _ => apply Z.leb_le in H end.
  assert (days_in_month y mo <= 31)%Z.
  { unfold days_in_month. destruct (mo =? 2)%Z; [destruct (is_leap y); lia|].
    destruct (_ || _)%bool; lia. }
  lia.
Qed.

Lemma new_datetime_error (y mo d h mi s : Z) (e : exn) :
  new_datetime y mo d h mi s = Raise e -> e = ValueError.
Proof. unfold new_datetime. destruct (_ && _)%bool; [discriminate | now intros [= <-]]. Qed.

Ltac bind_error H :=
  repeat (apply bindR_Raise in H as [H | (? & _ & H)];
          [first [now apply int_error in H | now apply index_error in H]|]).

Lemma strptime_error (s : str) (e : exn) : strptime s = Raise e -> e = ValueError.
Proof.
  unfold strptime. destruct (re_match true format_regex s) as [[rest found]|];
    [|now intros [= <-]].
  destruct rest; [|now intros [= <-]].
  intros H. bind_error H. now apply new_datetime_error in H.
Qed.

Lemma strptime_valid (s : str) (t : datetime) : strptime s = Ok t -> valid_datetime t.
Proof.
  unfold strptime. destruct (re_match true format_regex s) as [[rest found]|];
    [|discriminate].
  destruct rest; [|discriminate].
  intros H. repeat (apply bindR_Ok in H as (? & _ & H)).
  now apply new_datetime_valid in H.
Qed.

Lemma split_not_nil (c : N) (s : str) : split c s <> [].
Proof.
  intros E. apply (f_equal (@length str)) in E. rewrite split_length in E.
  discriminate.
Qed.

Lemma split_first (c : N) (s f : str) (fs : list str) :
  split c s = f :: fs ->
  ~ In c f /\
  ((fs = [] /\ s = f) \/ (exists t, s = f ++ c :: t /\ split c t = fs)).
Proof.
  revert f fs. induction s as [|x s IH]; intros f fs; cbn [split].
  - intros [= <- <-]. split; [easy | now left].
  - destruct (N.eqb_spec x c) as [->|Hx].
    + intros [= <- <-]. split; [easy|]. right. now exists s.
    + destruct (split c s) as [|f' fs'] eqn:E; [now apply split_not_nil in E|].
      intros [= <- <-]. destruct (IH f' fs' eq_refl) as [Hf [[-> ->] | (t & -> & Ht)]].
      * split; [|now left]. intros [H | H]; [congruence | contradiction].
      * split; [intros [H | H]; [congruence | contradiction]|].
        right. now exists t.
Qed.

(** X17: when [VersionInfo._from_str] fails it raises [ValueError] or
    [IndexError], built-in exceptions and none of the package.  A text
    without a slash raises [IndexError]; a text with one slash raises
    [ValueError] when what follows the slash is not an integer, and
    [IndexError] when it is. *)
Theorem version_parse_errors (s v f : str) :
  (forall e, VersionInfo._from_str s = Raise e ->
             (e = ValueError \/ e = IndexError) /\ error_name_of e = None) /\
  (~ In 0x2F s -> VersionInfo._from_str s = Raise IndexError) /\
  (~ In 0x2F v -> ~ In 0x2F f ->
   VersionInfo._from_str (v ++ py "/" ++ f) =
   match int f with
   | Ok _ => Raise IndexError
   | Raise _ => Raise ValueError
   end).
Proof.
  split; [|split].
  - intros e H.
    assert (X : e = ValueError \/ e = IndexError).
    { unfold VersionInfo._from_str, VersionInfo.item in H.
      destruct (nth_error _ 0); [|injection H as <-; now right].
      destruct (nth_error _ 1); [|injection H as <-; now right].
      cbn [bindR] in H. apply bindR_Raise in H as [H | (n & _ & H)];
        [apply int_error in H; now left|].
      destruct (nth_error _ 2); [|injection H as <-; now right].
      cbn [bindR] in H. apply bindR_Raise in H as [H | (d & _ & H)];
        [apply strptime_error in H; now left | discriminate]. }
    split; [exact X | destruct X as [-> | ->]; reflexivity].
  - intros Hs. unfold VersionInfo._from_str. now rewrite split_no_sep.
  - intros Hv Hf. unfold VersionInfo._from_str.
    change (py "/" ++ f) with (0x2F :: f).
    rewrite split_field, split_no_sep by assumption. cbn.
    destruct (int f) as [n|e] eqn:E; [reflexivity|].
    now rewrite (int_error _ _ E).
Qed.

Lemma version_parse_errors_witness :
  VersionInfo._from_str (py "ClamAV 1.4.1" ++ py "/" ++ py "27400") = Raise IndexError.
Proof.
  refine (proj2 (proj2 (version_parse_errors [] (py "ClamAV 1.4.1") (py "27400"))) _ _);
    cbn; intuition discriminate.
Defined.

(** X18: when [VersionInfo._from_str] returns, the version is the text
    before the first slash of the reply, the signature is what [int] gives
    for the second field and the date what [strptime] gives for the third;
    the date is one that exists: a year from 1 to 9999, a month from 1 to
    12, a day of that month, and a time of day up to 23:59:59. *)
Theorem version_parsed (s : str) (v : VersionInfo.t) :
  VersionInfo._from_str s = Ok v ->
  (exists f d rest t,
      split 0x2F s = VersionInfo.version v :: f :: d :: rest /\
      s = VersionInfo.version v ++ 0x2F :: t /\
      int f = Ok (VersionInfo.signature v) /\
      strptime d = Ok (VersionInfo.signature_date v)) /\
  ~ In 0x2F (VersionInfo.version v) /\
  valid_datetime (VersionInfo.signature_date v).
Proof.
  unfold VersionInfo._from_str, VersionInfo.item.
  destruct (split 0x2F s) as [|f0 [|f1 [|f2 rest]]] eqn:E; cbn [nth_error bindR];
    try discriminate.
  - destruct (int f1); discriminate.
  - intros H. apply bindR_Ok in H as (n & Hn & H).
    apply bindR_Ok in H as (d & Hd & H). injection H as <-. cbn.
    destruct (split_first _ _ _ _ E) as [Hv [[H _] | (t & Hs & _)]]; [discriminate|].
    split; [|split].
    + exists f1, f2, rest, t. split; [reflexivity|]. split; [exact Hs|].
      split; assumption.
    + exact Hv.
    + now apply strptime_valid in Hd.
Qed.

Lemma version_parsed_witness :
  valid_datetime (mk_datetime 2024 2 29 23 59 59).
Proof.
  exact (proj2 (proj2 (version_parsed (py "ClamAV 1.4.1/27400/Thu Feb 29 23:59:59 2024")
                         (VersionInfo.mk (py "ClamAV 1.4.1") 27400
                            (mk_datetime 2024 2 29 23 59 59))
                         ltac:(vm_compute; reflexivity)))).
Defined.

(** ** The error [_command] reports *)

(** X19: when [_command] raises [ResponseError], the reply is some white
    space, the message of the error, some white space, [ERROR], and a rest
    in which [ERROR] does not occur again; the message neither starts nor
    ends with white space. *)
Theorem response_error_message (self : Clamd) (command : str) (args : list str)
    (multiline raise_on_error : bool) (sock sock1 sock2 : socket)
    (reply c msg : str) :
  _send self command args sock = (Ok tt, sock1) ->
  _recv self multiline sock1 = (Ok reply, sock2) ->
  fst (_command self (Connected sock) command args multiline raise_on_error) =
    Raise (ResponseError c msg) ->
  raise_on_error = true /\ c = command /\
  (exists l r rest,
      reply = (l ++ msg ++ r) ++ py "ERROR" ++ rest /\
      Forall (fun x => Py_UNICODE_ISSPACE x = true) l /\
      Forall (fun x => Py_UNICODE_ISSPACE x = true) r /\
      contains (py "ERROR") rest = false) /\
  (forall x t, msg = x :: t -> Py_UNICODE_ISSPACE x = false) /\
  (forall t x, msg = t ++ [x] -> Py_UNICODE_ISSPACE x = false).
Proof.
  intros Hs Hr.
  destruct (str_eqb reply UNKNOWN_COMMAND) eqn:U.
  { apply str_eqb_eq in U.
    now rewrite (_command_unknown _ _ _ _ _ _ _ _ Hs Hr raise_on_error U). }
  destruct (str_eqb reply COMMAND_READ_TIMED_OUT) eqn:T.
  { apply str_eqb_eq in T.
    now rewrite (_command_timed_out _ _ _ _ _ _ _ _ Hs Hr raise_on_error T). }
  assert (Hu : reply <> UNKNOWN_COMMAND)
    by (intros E; apply str_eqb_eq in E; congruence).
  assert (Ht : reply <> COMMAND_READ_TIMED_OUT)
    by (intros E; apply str_eqb_eq in E; congruence).
  destruct raise_on_error;
    [|now rewrite (_command_no_raise _ _ _ _ _ _ _ _ Hs Hr Hu Ht)].
  destruct (rcut (py "ERROR") reply) as [[a b]|] eqn:R;
    [|now rewrite (_command_success _ _ _ _ _ _ _ _ Hs Hr Hu Ht R)].
  rewrite (_command_error _ _ _ _ _ _ _ _ Hs Hr Hu Ht a b R). cbn [fst].
  intros [= <- <-].
  apply rcut_Some in R as [E L]; [|exact ERROR_not_empty].
  destruct (strip_by_spec Py_UNICODE_ISSPACE a) as (l & r & Ea & Fl & Fr & Hf & Hl).
  split; [reflexivity|]. split; [reflexivity|]. split; [|split].
  - exists l, r, b. split; [|split; [exact Fl | split; [exact Fr|]]].
    + unfold strip. now rewrite <- Ea.
    + destruct (contains (py "ERROR") b) eqn:Cb; [|reflexivity].
      apply contains_iff in Cb as (x & y & ->).
      specialize (L (a ++ py "ERROR" ++ x) y).
      rewrite length_app, length_app in L. cbn [py list_ascii_of_string map length] in L.
      assert (reply = (a ++ py "ERROR" ++ x) ++ py "ERROR" ++ y)
        by (rewrite E, <- !app_assoc; reflexivity).
      apply L in H. lia.
  - intros x t Hx. exact (Hf x t Hx).
  - intros t x Hx. exact (Hl t x Hx).
Qed.

Lemma response_error_message_witness :
  exists l r rest,
    py "  lstat() failed: No such file.  ERROR" =
      (l ++ py "lstat() failed: No such file." ++ r) ++ py "ERROR" ++ rest /\
    Forall (fun x => Py_UNICODE_ISSPACE x = true) l /\
    Forall (fun x => Py_UNICODE_ISSPACE x = true) r /\
    contains (py "ERROR") rest = false.
Proof.
  exact (proj1 (proj2 (proj2
           (response_error_message ClamdNetworkSocket (py "SCAN") [py "/x"] true true
              (fresh_socket (pyb "  lstat() failed: No such file.  ERROR"))
              (mk_socket (pyb "  lstat() failed: No such file.  ERROR") None
                 [pyb "nSCAN /x" ++ [10]] None false)
              (mk_socket [] None [pyb "nSCAN /x" ++ [10]] None false)
              (py "  lstat() failed: No such file.  ERROR")
              (py "SCAN") (py "lstat() failed: No such file.")
              eq_refl eq_refl eq_refl)))).
Defined.
